(** * Expectiminimax domino: a shallow embedding of [expectiminimax_solo.py]

    The Python program keeps its tiles ([Pedra] objects) and its hands
    (Python lists) on the heap, writes the [position] attribute of tiles that
    several states share, and sorts one list in place.  The embedding therefore
    threads an explicit store through every operation that allocates or
    writes, and a Python exception is an [Err] result.

    Numbers: Python mixes [int] and [float] (IEEE binary64).  The numeric code
    is written once over an interface ([Arith], [Ord]) and run at two
    instances: the kernel's binary64 floats, which evaluate as Python does,
    and exact rationals, over which the probability laws are stated. *)

From Stdlib Require Import ZArith QArith Lia List PrimFloat Uint63 Permutation Sorted.
From stdpp Require Import base list.

#[local] Open Scope Z_scope.

(** ** Python exceptions and the two monads *)

Inductive exn : Set :=
| ValueError
| AttributeError
| ZeroDivisionError
| TypeError
| IndexError
| OutOfFuel.

Inductive Res (A : Type) : Type :=
| Ok (a : A)
| Err (e : exn).

Arguments Ok {A} a.
Arguments Err {A} e.

Definition bindR {A B} (r : Res A) (k : A -> Res B) : Res B :=
  match r with
  | Ok a => k a
  | Err e => Err e
  end.

Notation "'doR' x <- e ; k" := (bindR e (fun x => k))
  (at level 10, x name, e at level 100, k at level 200).

Definition len {A} (l : list A) : Z := Z.of_nat (length l).

(** ** Tiles *)

Module Pedra.

Record t : Set := make { valor : Z * Z; position : Z }.

Definition set_position (self : t) (p : Z) : t :=
  make (valor self) p.

(** [Pedra.__eq__]: the same piece, whichever way round. *)
Definition __eq__ (self other : t) : bool :=
  ((valor self).1 =? (valor other).1) && ((valor self).2 =? (valor other).2)
  || ((valor self).1 =? (valor other).2) && ((valor self).2 =? (valor other).1).

(** [Pedra.igual]: does [self] match the open side of the end tile [p]?
    The three position tests are exclusive, so falling through the Python
    [if]s is a cascade.  The first test repeats one comparison, as the
    source does. *)
Definition igual (self p : t) : bool :=
  if (position p =? -1)
     && (((valor self).1 =? (valor p).1) || ((valor self).2 =? (valor p).2)
         || ((valor self).2 =? (valor p).1) || ((valor self).2 =? (valor p).1))
  then true
  else if (position p =? 0)
          && (((valor self).2 =? (valor p).1) || ((valor self).1 =? (valor p).1))
  then true
  else if (position p =? 1)
          && (((valor self).2 =? (valor p).2) || ((valor self).1 =? (valor p).2))
  then true
  else false.

Definition getValor (self : t) : Z := (valor self).1 + (valor self).2.

End Pedra.

(** ** The store *)

(** Addresses are indices. *)
Abbreviation loc := nat (only parsing).

(** Tile objects and list objects, each addressed by its index.  Python
    references never dangle; an address outside the store reads as
    [dangling] (respectively the empty list). *)
Record Heap : Set := mkHeap { objs : list Pedra.t; lists : list (list loc) }.

Definition dangling : Pedra.t := Pedra.make (0, 0) 0.

Definition obj (h : Heap) (l : loc) : Pedra.t := default dangling (objs h !! l).

Definition seq_of (h : Heap) (l : loc) : list loc := default [] (lists h !! l).

Definition M (A : Type) : Type := Heap -> Res (A * Heap).

Definition ret {A} (a : A) : M A := fun h => Ok (a, h).

Definition raise {A} (e : exn) : M A := fun _ => Err e.

Definition bindM {A B} (m : M A) (k : A -> M B) : M B :=
  fun h => match m h with
           | Ok (a, h') => k a h'
           | Err e => Err e
           end.

Notation "'do' x <- e ; k" := (bindM e (fun x => k))
  (at level 10, x name, e at level 100, k at level 200).
Notation "'do' ' p <- e ; k" := (bindM e (fun x => match x with p => k end))
  (at level 10, p pattern, e at level 100, k at level 200).
Notation "'exec' e ; k" := (bindM e (fun _ => k))
  (at level 10, e at level 100, k at level 200).

Definition liftR {A} (r : Res A) : M A :=
  fun h => match r with Ok a => Ok (a, h) | Err e => Err e end.

(** A computation that only reads the store. *)
Definition reading {A} (f : Heap -> Res A) : M A := fun h => liftR (f h) h.

Definition get_obj (l : loc) : M Pedra.t := fun h => Ok (obj h l, h).

Definition get_list (l : loc) : M (list loc) := fun h => Ok (seq_of h l, h).

(** [o.position = p] *)
Definition write_position (l : loc) (p : Z) : M unit :=
  fun h => Ok (tt, mkHeap (alter (fun o => Pedra.set_position o p) l (objs h)) (lists h)).

Definition set_list (l : loc) (xs : list loc) : M unit :=
  fun h => Ok (tt, mkHeap (objs h) (<[l := xs]> (lists h))).

(** [Pedra(a, b, position)] *)
Definition new_obj (o : Pedra.t) : M loc :=
  fun h => Ok (length (objs h), mkHeap (objs h ++ [o]) (lists h)).

(** [list(xs)] and list displays: a new list object. *)
Definition new_list (xs : list loc) : M loc :=
  fun h => Ok (length (lists h), mkHeap (objs h) (lists h ++ [xs])).

Fixpoint foldM {A B} (f : B -> A -> M B) (l : list A) (b : B) : M B :=
  match l with
  | [] => ret b
  | a :: l' => do b' <- f b a; foldM f l' b'
  end.

Fixpoint foldR {A B} (f : B -> A -> Res B) (l : list A) (b : B) : Res B :=
  match l with
  | [] => Ok b
  | a :: l' => doR b' <- f b a; foldR f l' b'
  end.

(** ** Game states *)

(** A move is the tuple [(pedra, ponta)]. *)
Abbreviation Move := (nat * Z)%type (only parsing).

Module GameState.

(** The namedtuple [GameState]: [pedras] and [pedras_restantes] refer to list
    objects, [ponta1] and [ponta2] are [None] or refer to a tile. *)
Record t : Set := make {
  to_move : Z;
  pedras : loc;
  pedras_restantes : loc;
  ponta1 : option loc;
  ponta2 : option loc;
  moves : list Move;
  utility : Z
}.

End GameState.

(** A chance is the tuple [(category, moves, n_moves, n)]. *)
Abbreviation Chance := (Z * list (nat * Z) * Z * Z)%type (only parsing).

(** ** Numbers *)

(** The arithmetic Python performs on [int] and [float] operands.  [of_Z] is
    the conversion of an [int] operand in a mixed operation, [lit] a decimal
    literal of the source. *)
Class Arith (F : Type) : Type := {
  of_Z : Z -> F;
  lit : Q -> F;
  fadd : F -> F -> F;
  fsub : F -> F -> F;
  fmul : F -> F -> F;
  fdiv : F -> F -> F;
  fopp : F -> F
}.

(** Comparison and [float('inf')], which only the search uses. *)
Class Ord (F : Type) : Type := {
  flt : F -> F -> bool;
  infinity : F
}.

(** Exact rationals. *)
#[export] Instance Arith_Q : Arith Q := {
  of_Z := inject_Z;
  lit := fun q => q;
  fadd := Qplus;
  fsub := Qminus;
  fmul := Qmult;
  fdiv := Qdiv;
  fopp := Qopp
}.

(** IEEE binary64, Python's [float]: every operation rounds to nearest even.
    An [int] below [2^63] in absolute value converts as Python converts it,
    and a decimal literal is the correctly rounded quotient of its numerator
    and denominator. *)
Definition float_of_Z (z : Z) : float :=
  if z <? 0 then PrimFloat.opp (PrimFloat.of_uint63 (Uint63.of_Z (- z)))
  else PrimFloat.of_uint63 (Uint63.of_Z z).

#[export] Instance Arith_float : Arith float := {
  of_Z := float_of_Z;
  lit := fun q => PrimFloat.div (float_of_Z (Qnum q)) (float_of_Z (Zpos (Qden q)));
  fadd := PrimFloat.add;
  fsub := PrimFloat.sub;
  fmul := PrimFloat.mul;
  fdiv := PrimFloat.div;
  fopp := PrimFloat.opp
}.

#[export] Instance Ord_float : Ord float := {
  flt := PrimFloat.ltb;
  infinity := PrimFloat.infinity
}.

(** [a / b] on two [int]s, or on a number and an [int]: the divisor is
    tested before the division. *)
Definition truediv `{Arith F} (a : F) (b : Z) : Res F :=
  if b =? 0 then Err ZeroDivisionError else Ok (fdiv a (of_Z b)).

(** Python's [max(v, x)] and [min(v, x)] on two arguments: [x] replaces [v]
    only when strictly better.  Comparing [None] with a number is a
    [TypeError]. *)
Definition py_max `{Ord F} (v x : option F) : Res (option F) :=
  match v, x with
  | Some a, Some b => Ok (Some (if flt a b then b else a))
  | _, _ => Err TypeError
  end.

Definition py_min `{Ord F} (v x : option F) : Res (option F) :=
  match v, x with
  | Some a, Some b => Ok (Some (if flt b a then b else a))
  | _, _ => Err TypeError
  end.

(** A value used as a number: [None] in arithmetic is a [TypeError]. *)
Definition number {F} (v : option F) : Res F :=
  match v with
  | Some a => Ok a
  | None => Err TypeError
  end.

(** ** The game *)

Module Domino.

Definition is_not_None {A} (o : option A) : bool :=
  match o with Some _ => true | None => false end.

(** [pedra.igual(ponta)] through references; [ponta] is [None] on an empty
    board, where reading [p.position] raises. *)
Definition igual_ref (h : Heap) (pedra : loc) (ponta : option loc) : Res bool :=
  match ponta with
  | Some p => Ok (Pedra.igual (obj h pedra) (obj h p))
  | None => Err AttributeError
  end.

Definition actions (state : GameState.t) : list Move := GameState.moves state.

(** One iteration of either loop of [moves] (both have the same body) on the
    accumulated [(moves, i)]. *)
Definition moves_step (h : Heap) (ponta1 ponta2 : option loc)
    (acc : list Move * Z) (pedra : loc) : Res (list Move * Z) :=
  let '(moves, i) := acc in
  if is_not_None ponta1 then
    doR b1 <- igual_ref h pedra ponta1;
    if b1 then Ok (moves ++ [(pedra, 0)], i + 1)
    else
      doR b2 <- igual_ref h pedra ponta2;
      if b2 then Ok (moves ++ [(pedra, 1)], i + 1) else Ok (moves, i)
  else Ok (moves ++ [(pedra, -1)], i).

Definition moves_loop (h : Heap) (ponta1 ponta2 : option loc) (xs : list loc)
    : Res (list Move * Z) :=
  foldR (moves_step h ponta1 ponta2) xs ([], 0).

Definition moves (to_move : Z) (pedras pedras_restantes : loc)
    (ponta1 ponta2 : option loc) (player : Z) : M (list Move) :=
  do xs <- get_list (if to_move =? player then pedras else pedras_restantes);
  do '(moves, i) <- reading (fun h => moves_loop h ponta1 ponta2 xs);
  if i =? 0 then
    do s <- new_obj (Pedra.make (-1, -1) (-1));
    ret (moves ++ [(s, -1)])
  else ret moves.

(** [for p in ps: if p.igual(ponta1) or p.igual(ponta2): return 0] *)
Fixpoint some_igual (h : Heap) (ponta1 ponta2 : option loc) (ps : list loc)
    : Res bool :=
  match ps with
  | [] => Ok false
  | p :: ps' =>
      doR b1 <- igual_ref h p ponta1;
      if b1 then Ok true
      else
        doR b2 <- igual_ref h p ponta2;
        if b2 then Ok true else some_igual h ponta1 ponta2 ps'
  end.

(** [soma += pedra.getValor()] over a list. *)
Definition soma_valores (h : Heap) (ps : list loc) : Z :=
  fold_left (fun soma pedra => soma + Pedra.getValor (obj h pedra)) ps 0.

(** [list.sort(key=...)]: the stable sort by key. *)
Fixpoint insert_by (key : loc -> Z) (x : loc) (l : list loc) : list loc :=
  match l with
  | [] => [x]
  | y :: l' => if key x <=? key y then x :: y :: l' else y :: insert_by key x l'
  end.

Definition sort_by (key : loc -> Z) (l : list loc) : list loc :=
  fold_right (insert_by key) [] l.

Definition compute_utility (to_move : Z) (pedras pedras_restantes : loc)
    (ponta1 ponta2 : option loc) (move : Move) (player : Z) : M Z :=
  do m0 <- get_obj move.1;
  if ((Pedra.valor m0).1 =? -1) && is_not_None ponta1 then
    do rest <- get_list pedras_restantes;
    do b <- reading (fun h => some_igual h ponta1 ponta2 rest);
    if b then ret 0
    else
      do hand <- get_list pedras;
      do b <- reading (fun h => some_igual h ponta1 ponta2 hand);
      if b then ret 0
      else
        let total := len hand in
        do soma <- reading (fun h => Ok (soma_valores h hand));
        do rest <- get_list pedras_restantes;
        do sorted <- reading (fun h =>
                       Ok (sort_by (fun x => (Pedra.valor (obj h x)).1
                                             + (Pedra.valor (obj h x)).2) rest));
        exec set_list pedras_restantes sorted;
        do rest <- get_list pedras_restantes;
        do soma_res <- reading (fun h =>
                         Ok (soma_valores h
                               (take (Z.to_nat (Z.min total (len rest))) rest)));
        if soma <? soma_res then
          if negb (to_move =? player) then ret (-1) else ret 4
        else
          if negb (to_move =? player) then ret (-1) else ret 4
  else if negb ((Pedra.valor m0).1 =? -1) then
    if to_move =? player then
      do hand <- get_list pedras;
      if len hand =? 1 then ret 4 else ret 0
    else
      do rest <- get_list pedras_restantes;
      if len rest =? 3 then ret (-1) else ret 0
  else ret (-1).

Definition utility (state : GameState.t) (player : Z) : Z :=
  GameState.utility state.

Definition terminal_test (state : GameState.t) : bool :=
  negb (GameState.utility state =? 0).

(** [l.remove(x)]: drops the first element equal to [x] by [Pedra.__eq__]
    (an element identical to [x] is also equal to it). *)
Fixpoint remove_first (h : Heap) (x : loc) (l : list loc) : Res (list loc) :=
  match l with
  | [] => Err ValueError
  | y :: l' =>
      if Pedra.__eq__ (obj h y) (obj h x) then Ok l'
      else doR r <- remove_first h x l'; Ok (y :: r)
  end.

Definition list_remove (l : loc) (x : loc) : M unit :=
  do xs <- get_list l;
  do xs' <- reading (fun h => remove_first h x xs);
  set_list l xs'.

(** The orientation written on the tile [move0] placed against the end tile
    [e]: [position] 1 when the first pip of the tile is one of the pips of
    [e], 0 when the second is, nothing otherwise.  Against end 1
    ([also_end]) the end tile's own [position] is then set to 1 if it is
    still -1. *)
Definition orient (move0 e : loc) (also_end : bool) : M unit :=
  do m0 <- get_obj move0;
  do p <- get_obj e;
  let mark_end :=
    if also_end then
      do p' <- get_obj e;
      if Pedra.position p' =? -1 then write_position e 1 else ret tt
    else ret tt in
  if ((Pedra.valor m0).1 =? (Pedra.valor p).1)
     || ((Pedra.valor m0).1 =? (Pedra.valor p).2) then
    exec write_position move0 1; mark_end
  else if ((Pedra.valor m0).2 =? (Pedra.valor p).1)
          || ((Pedra.valor m0).2 =? (Pedra.valor p).2) then
    exec write_position move0 0; mark_end
  else ret tt.

(** The placement of [move] on the board of [state]: the
    orientation writes of [result] and the two ends it rebinds. *)
Definition place (state : GameState.t) (move : Move) : M (option loc * option loc) :=
  let ponta1 := GameState.ponta1 state in
  let ponta2 := GameState.ponta2 state in
  match GameState.ponta1 state with
  | Some e1 =>
      if move.2 =? 0 then
        exec orient move.1 e1 true;
        ret (Some move.1, ponta2)
      else if move.2 =? 1 then
        match GameState.ponta2 state with
        | Some e2 =>
            exec orient move.1 e2 false;
            ret (ponta1, Some move.1)
        | None => raise AttributeError
        end
      else ret (ponta1, ponta2)
  | None =>
      exec write_position move.1 (-1);
      ret (Some move.1, Some move.1)
  end.

Definition result (state : GameState.t) (move : Move) (player : Z)
    : M GameState.t :=
  do hand0 <- get_list (GameState.pedras state);
  do pedras <- new_list hand0;
  do rest0 <- get_list (GameState.pedras_restantes state);
  do pedras_restantes <- new_list rest0;
  let ponta1 := GameState.ponta1 state in
  let ponta2 := GameState.ponta2 state in
  do utility <- compute_utility (GameState.to_move state) (GameState.pedras state)
                  (GameState.pedras_restantes state) (GameState.ponta1 state)
                  (GameState.ponta2 state) move player;
  do m0 <- get_obj move.1;
  do '(ponta1, ponta2) <-
    (if negb ((Pedra.valor m0).1 =? -1) then
       do pontas <- place state move;
       exec (if GameState.to_move state =? player
             then list_remove pedras move.1
             else list_remove pedras_restantes move.1);
       ret pontas
     else ret (ponta1, ponta2));
  let to_move := (GameState.to_move state + 1) mod 4 in
  do moves <- moves to_move pedras pedras_restantes ponta1 ponta2 player;
  ret (GameState.make to_move pedras pedras_restantes ponta1 ponta2 moves utility).

Definition ponta1 (move : Move) : bool := move.2 =? 0.

Definition ponta2 (move : Move) : bool := move.2 =? 1.

Definition chances (state : GameState.t) : M (list Chance) :=
  let n_moves := len (GameState.moves state) in
  let lista : list Chance := [] in
  if negb (GameState.to_move state =? 0) then
    do rest <- get_list (GameState.pedras_restantes state);
    let n := len rest in
    let p1 : Chance := (1, List.filter ponta1 (GameState.moves state), n_moves, n) in
    let lista := if 0 <? len p1.1.1.2 then lista ++ [p1] else lista in
    let p2 : Chance := (2, List.filter ponta2 (GameState.moves state), n_moves, n) in
    let lista := if 0 <? len p2.1.1.2 then lista ++ [p2] else lista in
    do s <- new_obj (Pedra.make (-1, -1) (-1));
    let pi : Chance := (-1, [(s, -1)], n_moves, n) in
    ret (lista ++ [pi])
  else
    do hand <- get_list (GameState.pedras state);
    ret [(0, GameState.moves state, n_moves, len hand)].

Definition outcome (state : GameState.t) (chance : Chance) : GameState.t :=
  GameState.make (GameState.to_move state) (GameState.pedras state)
    (GameState.pedras_restantes state) (GameState.ponta1 state)
    (GameState.ponta2 state) chance.1.1.2 (GameState.utility state).

(** *** The evaluation heuristic *)

Definition buchas (h : Heap) (pedras : list loc) : Z :=
  fold_left
    (fun res pedra =>
       let p := obj h pedra in
       if (Pedra.valor p).1 =? (Pedra.valor p).2 then
         if negb ((Pedra.valor p).1 =? 0) then res + (Pedra.valor p).1
         else res + 1
       else res)
    pedras 0.

Definition soma_pedras_max (h : Heap) (state : GameState.t) : Z :=
  soma_valores h (seq_of h (GameState.pedras state)).

(** The seven tests of the loop body of [checa_diversidade_max], for the
    suits [0..6] in turn. *)
Definition marca_nipes (p : Pedra.t) (nipes : list bool) : list bool :=
  fold_left
    (fun nipes k =>
       if (Z.of_nat k =? (Pedra.valor p).1) || (Z.of_nat k =? (Pedra.valor p).2)
       then <[k := true]> nipes else nipes)
    (seq 0 7) nipes.

Definition checa_diversidade_max (h : Heap) (state : GameState.t) : Z :=
  let nipes :=
    fold_left (fun nipes pedra => marca_nipes (obj h pedra) nipes)
      (seq_of h (GameState.pedras state)) (replicate 7 false) in
  fold_left (fun res (e : bool) => if e then res + 1 else res) nipes 0.

Section Numeric.

Context {F : Type} `{Arith F}.

(** [eval]: every feature is computed first, [moves] included (it may
    raise, and it allocates a sentinel), then the seat selects a formula.
    A seat other than 0, 1 and 2 falls off the end of the function, which
    returns [None]. *)
Definition eval (state : GameState.t) (player : Z) : M (option F) :=
  do hand <- get_list (GameState.pedras state);
  let n := len hand in
  do rest <- get_list (GameState.pedras_restantes state);
  do m <- liftR (truediv (of_Z (len rest)) 3);
  do buchas <- reading (fun h => Ok (buchas h hand));
  let n_pedras := n in
  let delta := fsub m (of_Z n) in
  do movimentos <- moves player (GameState.pedras state)
                     (GameState.pedras_restantes state) (GameState.ponta1 state)
                     (GameState.ponta2 state) player;
  do soma_pedras <- reading (fun h => Ok (soma_pedras_max h state));
  do diversidade <- reading (fun h => Ok (checa_diversidade_max h state));
  if player =? 0 then
    ret (Some (fsub (fadd (fsub (fmul (fopp (lit (9 # 10))) (of_Z buchas))
                                (fmul (lit (2 # 10)) (of_Z n)))
                          (fmul (lit (7 # 10)) delta))
                    (fmul (lit (4 # 10)) (of_Z soma_pedras))))
  else if player =? 1 then
    ret (Some (fadd (fmul (lit (5 # 10)) (of_Z (len movimentos)))
                    (fmul (lit (6 # 10)) (of_Z diversidade))))
  else if player =? 2 then
    ret (Some (fadd (fsub (fadd (fadd (fsub (fmul (fopp (lit (9 # 10))) (of_Z buchas))
                                            (fmul (lit (2 # 10)) (of_Z n_pedras)))
                                      (fmul (lit (7 # 10)) delta))
                                (fmul (lit (5 # 10)) (of_Z (len movimentos))))
                          (fmul (lit (4 # 10)) (of_Z soma_pedras)))
                    (fmul (lit (6 # 10)) (of_Z diversidade))))
  else ret None.

Definition probability (chance : Chance) : Res F :=
  if (chance.1.1.1 =? 1) || (chance.1.1.1 =? 2) then
    truediv (of_Z (len chance.1.1.2)) chance.2
  else if chance.1.1.1 =? -1 then
    doR q <- truediv (of_Z chance.1.2) chance.2;
    Ok (fsub (of_Z 1) q)
  else Ok (of_Z 1).

(** [x * l] for a float [x] and a list [l]: Python repeats a sequence only
    an integer number of times, and a float factor is a [TypeError]. *)
Definition mul_seq {A} (x : F) (l : list A) : Res F := Err TypeError.

(** The three per-seat heuristics, which [eval] gathers. *)
Definition eval_0 (state : GameState.t) (player : Z) : M F :=
  do hand <- get_list (GameState.pedras state);
  let n := len hand in
  do rest <- get_list (GameState.pedras_restantes state);
  do m <- liftR (truediv (of_Z (len rest)) 3);
  do buchas <- reading (fun h => Ok (buchas h hand));
  do soma_pedras <- reading (fun h => Ok (soma_pedras_max h state));
  let delta := fsub m (of_Z n) in
  ret (fsub (fadd (fsub (fmul (fopp (lit (9 # 10))) (of_Z buchas))
                        (fmul (lit (2 # 10)) (of_Z n)))
                  (fmul (lit (7 # 10)) delta))
            (fmul (lit (4 # 10)) (of_Z soma_pedras))).

(** [eval_1] multiplies 0.5 by the list of moves itself, not by its
    length. *)
Definition eval_1 (state : GameState.t) (player : Z) : M F :=
  do movimentos <- moves player (GameState.pedras state)
                     (GameState.pedras_restantes state) (GameState.ponta1 state)
                     (GameState.ponta2 state) player;
  do diversidade <- reading (fun h => Ok (checa_diversidade_max h state));
  do a <- liftR (mul_seq (lit (5 # 10)) movimentos);
  ret (fadd a (fmul (lit (6 # 10)) (of_Z diversidade))).

Definition eval_2 (state : GameState.t) (player : Z) : M F :=
  do hand <- get_list (GameState.pedras state);
  let n := len hand in
  do rest <- get_list (GameState.pedras_restantes state);
  do m <- liftR (truediv (of_Z (len rest)) 3);
  do buchas <- reading (fun h => Ok (buchas h hand));
  let n_pedras := n in
  let delta := fsub m (of_Z n) in
  do movimentos <- moves player (GameState.pedras state)
                     (GameState.pedras_restantes state) (GameState.ponta1 state)
                     (GameState.ponta2 state) player;
  do soma_pedras <- reading (fun h => Ok (soma_pedras_max h state));
  do diversidade <- reading (fun h => Ok (checa_diversidade_max h state));
  ret (fadd (fsub (fadd (fadd (fsub (fmul (fopp (lit (9 # 10))) (of_Z buchas))
                                    (fmul (lit (2 # 10)) (of_Z n_pedras)))
                              (fmul (lit (7 # 10)) delta))
                        (fmul (lit (5 # 10)) (of_Z (len movimentos))))
                  (fmul (lit (4 # 10)) (of_Z soma_pedras)))
            (fmul (lit (6 # 10)) (of_Z diversidade))).

End Numeric.

(** *** The deal *)

(** [range(n)] *)
Definition range (n : nat) : list Z := map Z.of_nat (seq 0 n).

Definition cria_domino : M (list loc) :=
  foldM
    (fun pedras i =>
       foldM
         (fun pedras j =>
            if j <=? i then
              do p <- new_obj (Pedra.make (i, j) (-1));
              ret (pedras ++ [p])
            else ret pedras)
         (range 7) pedras)
    (range 7) [].

(** [random.randint(a, b)], both ends included, as a function of the raw
    draw [r]: every draw is a possible run. *)
Definition randint (a b r : Z) : Z := a + r mod (b - a + 1).

(** [l.pop(i)]: a negative index counts from the end; outside the list it
    is an [IndexError]. *)
Definition py_pop (l : list loc) (i : Z) : Res (loc * list loc) :=
  let i' := if i <? 0 then i + len l else i in
  if (i' <? 0) || (len l <=? i') then Err IndexError
  else
    match l !! Z.to_nat i' with
    | Some x => Ok (x, delete (Z.to_nat i') l)
    | None => Err IndexError
    end.

Definition list_pop (l : loc) (i : Z) : M loc :=
  do xs <- get_list l;
  do r <- liftR (py_pop xs i);
  exec set_list l r.2;
  ret r.1.

Definition list_append (l : loc) (x : loc) : M unit :=
  do xs <- get_list l;
  set_list l (xs ++ [x]).

(** The body of the inner loop of [escolhe_pedras], which deals one tile
    from the list [pedras] to the hand [jogador]: [rnd k] is the raw value
    of the [k]-th draw, and the loop variables are [n] and the number of
    draws made. *)
Definition deal_one (rnd : nat -> Z) (pedras jogador : loc) (acc : Z * nat) (_ : Z)
    : M (Z * nat) :=
  let '(n, k) := acc in
  let pos := randint 0 n (rnd k) in
  do x <- list_pop pedras (pos - 1);
  exec list_append jogador x;
  ret (n - 1, S k).

Definition escolhe_pedras (rnd : nat -> Z) (self_pedras : loc) : M (list loc) :=
  do ps <- get_list self_pedras;
  do pedras <- new_list ps;
  let n := len ps in
  do jogadores <- foldM (fun js _ => do l <- new_list []; ret (js ++ [l])) (range 4) [];
  do _ <- foldM
            (fun acc j =>
               foldM (deal_one rnd pedras (nth (Z.to_nat j) jogadores O)) (range 7) acc)
            (range 4) (n, O);
  ret jogadores.

(** The attributes of a [Domino] object. *)
Record t : Set := make {
  self_pedras : loc;
  jogadores : list loc;
  initial : GameState.t
}.

Definition __init__ (rnd : nat -> Z) : M t :=
  do ps <- cria_domino;
  do self_pedras <- new_list ps;
  do jogadores <- escolhe_pedras rnd self_pedras;
  do pedras_restantes <- new_list [];
  do _ <- foldM
            (fun (_ : unit) i =>
               do xs <- get_list pedras_restantes;
               do js <- get_list (nth (Z.to_nat i) jogadores O);
               set_list pedras_restantes (xs ++ js))
            [1; 2; 3] tt;
  do j0 <- get_list (nth 0 jogadores O);
  do pedras <- new_list j0;
  do moves <- moves 0 (nth 0 jogadores O) pedras_restantes None None 0;
  ret (make self_pedras jogadores
         (GameState.make 0 pedras pedras_restantes None None moves 0)).

End Domino.

(** ** The search *)

(** The depth limit [d] that [expectiminimax] sets from [n = len(state.pedras)]. *)
Definition depth_limit (n : Z) : Z :=
  if (n =? 7) || (n =? 6) then 7
  else if (n =? 5) || (n =? 4) then 5
  else 9.

Section Search.

Context {F : Type} `{Arith F} `{Ord F}.

(** The closure variables of the three local functions. *)
Variable d : Z.
Variable player : Z.

(** One iteration of the loop of [chance_node] over the chances:
    [res_state] and [sum_chances] are the loop's two variables. *)
Definition chance_step (max_value min_value : GameState.t -> Z -> M (option F))
    (depth : Z) (acc : GameState.t * F) (chance : Chance) : M (GameState.t * F) :=
  let '(res_state, sum_chances) := acc in
  let res_state := Domino.outcome res_state chance in
  do util <- (if GameState.to_move res_state =? player
              then max_value res_state (depth + 1)
              else min_value res_state (depth + 1));
  do p <- liftR (Domino.probability chance);
  do u <- liftR (number util);
  ret (res_state, fadd sum_chances (fmul u p)).

Definition chance_node_body (max_value min_value : GameState.t -> Z -> M (option F))
    (state : GameState.t) (action : Move) (depth : Z) : M (option F) :=
  do res_state <- Domino.result state action player;
  if Domino.terminal_test res_state then
    ret (Some (of_Z (Domino.utility res_state player)))
  else if d <=? depth then Domino.eval state player
  else
    do chances <- Domino.chances res_state;
    let num_chances := len chances in
    do '(_, sum_chances) <-
      foldM (chance_step max_value min_value depth) chances (res_state, of_Z 0);
    do v <- liftR (truediv sum_chances num_chances);
    ret (Some v).

(** [max_value] and [min_value].  The recursion of the source ends because
    [depth] grows to [d]: a call at [depth] opens [d - depth] further levels.
    [n] counts them; the branch for [n = 0] below the limit is never reached
    from [max_value] and [min_value] ([max_value_unfold], [min_value_unfold]). *)
Fixpoint max_value_rec (n : nat) (state : GameState.t) (depth : Z) : M (option F) :=
  let v := Some (fopp infinity) in
  if d <=? depth then Domino.eval state player
  else
    match n with
    | O => raise OutOfFuel
    | S n' =>
        foldM
          (fun v acao =>
             do x <- chance_node_body (max_value_rec n') (min_value_rec n')
                       state acao depth;
             liftR (py_max v x))
          (Domino.actions state) v
    end
with min_value_rec (n : nat) (state : GameState.t) (depth : Z) : M (option F) :=
  if d <=? depth then Domino.eval state player
  else
    let v := Some infinity in
    match n with
    | O => raise OutOfFuel
    | S n' =>
        foldM
          (fun v acao =>
             do x <- chance_node_body (max_value_rec n') (min_value_rec n')
                       state acao depth;
             liftR (py_min v x))
          (Domino.actions state) v
    end.

Definition max_value (state : GameState.t) (depth : Z) : M (option F) :=
  max_value_rec (Z.to_nat (d - depth)) state depth.

Definition min_value (state : GameState.t) (depth : Z) : M (option F) :=
  min_value_rec (Z.to_nat (d - depth)) state depth.

Definition chance_node (state : GameState.t) (action : Move) (depth : Z)
    : M (option F) :=
  chance_node_body max_value min_value state action depth.

End Search.

(** *** The chance-node value as the claims state it *)

Fixpoint mapM {A B} (f : A -> M B) (l : list A) : M (list B) :=
  match l with
  | [] => ret []
  | a :: l' => do b <- f a; do bs <- mapM f l'; ret (b :: bs)
  end.

Section ChanceValue.

Context {F : Type} `{Arith F} `{Ord F}.

Variable d : Z.
Variable player : Z.

(** The sum of the terms, taken from 0 in the order of the events. *)
Definition sum_terms (terms : list F) : F := fold_left fadd terms (of_Z 0).

(** The level an event's state is passed to: the next max level when the
    next mover is the searching player, the next min level otherwise. *)
Definition next_level (st : GameState.t) (depth : Z) : M (option F) :=
  if GameState.to_move st =? player then max_value d player st (depth + 1)
  else min_value d player st (depth + 1).

(** The term of one event: the value of recursing into its state, times the
    event's probability. *)
Definition event_term (res_state : GameState.t) (depth : Z) (chance : Chance) : M F :=
  do util <- next_level (Domino.outcome res_state chance) depth;
  do p <- liftR (Domino.probability chance);
  do u <- liftR (number util);
  ret (fmul u p).

(** The sum of the events' terms divided by the number of events. *)
Definition expected_value (res_state : GameState.t) (depth : Z)
    (chances : list Chance) : M (option F) :=
  do terms <- mapM (event_term res_state depth) chances;
  do v <- liftR (truediv (sum_terms terms) (len chances));
  ret (Some v).

End ChanceValue.

(** ** Descriptions used in the statements *)

(** The store after [Pedra(-1, -1, -1)] was allocated in it. *)
Definition with_sentinel (h : Heap) : Heap :=
  mkHeap (objs h ++ [Pedra.make (-1, -1) (-1)]) (lists h).

(** The placements of the tiles [xs] on a board whose end tiles are [e1] and
    [e2]: a tile that matches end 1 is placed there, one that only matches
    end 2 is placed there, and a tile is never placed twice. *)
Definition placements (h : Heap) (e1 e2 : loc) (xs : list loc) : list Move :=
  flat_map
    (fun l =>
       if Pedra.igual (obj h l) (obj h e1) then [(l, 0)]
       else if Pedra.igual (obj h l) (obj h e2) then [(l, 1)]
       else [])
    xs.

(** The free placements on an empty board. *)
Definition free_placements (xs : list loc) : list Move :=
  map (fun l => (l, -1)) xs.

(** The tile objects after [o.position = p] on the object at [l]. *)
Definition positioned (os : list Pedra.t) (l : loc) (p : Z) : list Pedra.t :=
  alter (fun o => Pedra.set_position o p) l os.

Definition obj_of (os : list Pedra.t) (l : loc) : Pedra.t :=
  default dangling (os !! l).

(** The tile objects after [orient]. *)
Definition oriented (os : list Pedra.t) (m e : loc) (also_end : bool)
    : list Pedra.t :=
  let m0 := obj_of os m in
  let p := obj_of os e in
  let mark_end os1 :=
    if also_end && (Pedra.position (obj_of os1 e) =? -1)
    then positioned os1 e 1 else os1 in
  if ((Pedra.valor m0).1 =? (Pedra.valor p).1)
     || ((Pedra.valor m0).1 =? (Pedra.valor p).2) then
    mark_end (positioned os m 1)
  else if ((Pedra.valor m0).2 =? (Pedra.valor p).1)
          || ((Pedra.valor m0).2 =? (Pedra.valor p).2) then
    mark_end (positioned os m 0)
  else os.

(** The tile objects and the ends after [place]. *)
Definition placed_objs (os : list Pedra.t) (p1 p2 : option loc) (move : Move)
    : list Pedra.t :=
  match p1 with
  | Some e1 =>
      if move.2 =? 0 then oriented os move.1 e1 true
      else if move.2 =? 1 then
        match p2 with
        | Some e2 => oriented os move.1 e2 false
        | None => os
        end
      else os
  | None => positioned os move.1 (-1)
  end.

Definition placed_ends (p1 p2 : option loc) (move : Move) : option loc * option loc :=
  match p1 with
  | Some e1 =>
      if move.2 =? 0 then (Some move.1, p2)
      else if move.2 =? 1 then (p1, Some move.1)
      else (p1, p2)
  | None => (Some move.1, Some move.1)
  end.

(** The list objects of a state are objects of the store. *)
Definition valid_lists (h : Heap) (state : GameState.t) : Prop :=
  (GameState.pedras state < length (lists h))%nat
  /\ (GameState.pedras_restantes state < length (lists h))%nat.

(** A placement, as [result] and [compute_utility] test it: the first pip of
    the tile moved is not the sentinel's -1. *)
Definition is_placement (h : Heap) (move : Move) : Prop :=
  (Pedra.valor (obj h move.1)).1 <> -1.

(** Some tile of [ps] matches one of the end tiles [e1] and [e2]. *)
Definition can_play (h : Heap) (e1 e2 : loc) (ps : list loc) : bool :=
  existsb (fun p => Pedra.igual (obj h p) (obj h e1)
                    || Pedra.igual (obj h p) (obj h e2)) ps.

(** The key of the sort in [compute_utility]. *)
Definition pip_sum (h : Heap) (x : loc) : Z :=
  (Pedra.valor (obj h x)).1 + (Pedra.valor (obj h x)).2.

(** The tiles a state and a move refer to are objects of the store. *)
Definition valid_objs (h : Heap) (state : GameState.t) (move : Move) : Prop :=
  (move.1 < length (objs h))%nat
  /\ Forall (fun l => (l < length (objs h))%nat) (seq_of h (GameState.pedras state))
  /\ Forall (fun l => (l < length (objs h))%nat)
       (seq_of h (GameState.pedras_restantes state))
  /\ (forall e, GameState.ponta1 state = Some e -> (e < length (objs h))%nat)
  /\ (forall e, GameState.ponta2 state = Some e -> (e < length (objs h))%nat).

(** Two states are structurally equal in a store: field by field, the list
    objects by their sequences and the tiles of the moves by their content
    (a pass sentinel is a new object at every call). *)
Definition same_state (h : Heap) (s1 s2 : GameState.t) : Prop :=
  GameState.to_move s1 = GameState.to_move s2
  /\ seq_of h (GameState.pedras s1) = seq_of h (GameState.pedras s2)
  /\ seq_of h (GameState.pedras_restantes s1)
     = seq_of h (GameState.pedras_restantes s2)
  /\ GameState.ponta1 s1 = GameState.ponta1 s2
  /\ GameState.ponta2 s1 = GameState.ponta2 s2
  /\ Forall2 (fun m1 m2 : Move => obj h m1.1 = obj h m2.1 /\ m1.2 = m2.2)
       (GameState.moves s1) (GameState.moves s2)
  /\ GameState.utility s1 = GameState.utility s2.

(** Both ends are set, or neither: what [result] keeps true of the states it
    builds from such a state. *)
Definition ends_together (ponta1 ponta2 : option loc) : Prop :=
  ponta1 <> None -> ponta2 <> None.

Fixpoint mapR {A B} (f : A -> Res B) (l : list A) : Res (list B) :=
  match l with
  | [] => Ok []
  | a :: l' => doR b <- f a; doR bs <- mapR f l'; Ok (b :: bs)
  end.

(** The exact sum of a list of probabilities. *)
Definition sum_Q (ps : list Q) : Q := fold_right Qplus 0%Q ps.

(** The same sum in binary64, as Python's [sum] takes it: from 0, left to
    right, rounding at every step. *)
Definition sum_float (ps : list float) : float :=
  fold_left PrimFloat.add ps (float_of_Z 0).

(** [abs(x - 1) <= sys.float_info.epsilon] *)
Definition within_epsilon (x : float) : bool :=
  PrimFloat.leb (PrimFloat.abs (PrimFloat.sub x (float_of_Z 1))) 0x1p-52%float.

(** The binary64 probabilities of the categories of a node with [a] moves at
    end 1 and [b] at end 2 against a pool of [n] tiles, in the order
    [chances] returns them. *)
Definition event_probabilities (a b n : Z) : list float :=
  (if 0 <? a then [PrimFloat.div (float_of_Z a) (float_of_Z n)] else [])
  ++ (if 0 <? b then [PrimFloat.div (float_of_Z b) (float_of_Z n)] else [])
  ++ [PrimFloat.sub (float_of_Z 1)
        (PrimFloat.div (float_of_Z (a + b)) (float_of_Z n))].

(** The check of every node of a game of 28 tiles. *)
Definition all_within_epsilon : bool :=
  forallb (fun n =>
    forallb (fun a =>
      forallb (fun b =>
        (n =? 0) || negb (a + b <=? n)
        || within_epsilon (sum_float (event_probabilities a b n)))
        (Domino.range 29))
      (Domino.range 29))
    (Domino.range 29).

(** ** Reachable states *)

(** The number of tiles on the board after [move]: a placement adds one, a
    pass none.  The program keeps no such count; it is the ghost variable of
    the invariant. *)
Definition played_after (h : Heap) (move : Move) (played : Z) : Z :=
  if (Pedra.valor (obj h move.1)).1 =? -1 then played else played + 1.

(** The states reached from a deal by transitions (for any searching
    player) and chance outcomes, with the store they live in and the number
    of tiles played.  All the states of a search live in one store, which
    the search keeps changing: a state reached stays a state of the game
    while a transition, a chance enumeration or an evaluation of any state
    reached takes the store further (the parent of a successor, its
    siblings, the root of a second search). *)
Inductive reachable : Heap -> GameState.t -> Z -> Prop :=
| reach_deal (rnd : nat -> Z) (h0 : Heap) (d : Domino.t) (h : Heap) :
    Domino.__init__ rnd h0 = Ok (d, h) ->
    reachable h (Domino.initial d) 0
| reach_result (h : Heap) (s : GameState.t) (k : Z) (move : Move) (player : Z)
    (s' : GameState.t) (h' : Heap) :
    reachable h s k ->
    Domino.result s move player h = Ok (s', h') ->
    reachable h' s' (played_after h move k)
| reach_outcome (h : Heap) (s : GameState.t) (k : Z) (chance : Chance) :
    reachable h s k ->
    reachable h (Domino.outcome s chance) k
| reach_after_result (h : Heap) (s : GameState.t) (k : Z) (s0 : GameState.t)
    (k0 : Z) (move : Move) (player : Z) (s' : GameState.t) (h' : Heap) :
    reachable h s k ->
    reachable h s0 k0 ->
    Domino.result s0 move player h = Ok (s', h') ->
    reachable h' s k
| reach_after_chances (h : Heap) (s : GameState.t) (k : Z) (s0 : GameState.t)
    (k0 : Z) (chances : list Chance) (h' : Heap) :
    reachable h s k ->
    reachable h s0 k0 ->
    Domino.chances s0 h = Ok (chances, h') ->
    reachable h' s k
| reach_after_eval (F : Type) (A : Arith F) (h : Heap) (s : GameState.t) (k : Z)
    (s0 : GameState.t) (k0 : Z) (player : Z) (v : option F) (h' : Heap) :
    reachable h s k ->
    reachable h s0 k0 ->
    Domino.eval (F := F) s0 player h = Ok (v, h') ->
    reachable h' s k.

(** Modelled from the spec: [argmax] is imported from [utils], which is not
    among the sources.  "Return the move maximizing that value, ties broken
    by encounter order (first-seen wins)"; the keys are computed in order,
    each once, and an empty sequence is a [ValueError] (Python's [max]). *)
Fixpoint argmax_from {F A} `{Ord F} (key : A -> M (option F)) (best : A)
    (kbest : option F) (l : list A) : M A :=
  match l with
  | [] => ret best
  | a :: l' =>
      do k <- key a;
      do kb <- liftR (number kbest);
      do kn <- liftR (number k);
      if flt kb kn then argmax_from key a k l' else argmax_from key best kbest l'
  end.

Definition argmax {F A} `{Ord F} (l : list A) (key : A -> M (option F)) : M A :=
  match l with
  | [] => raise ValueError
  | a :: l' => do k <- key a; argmax_from key a k l'
  end.

Definition expectiminimax {F} `{Arith F} `{Ord F} (state : GameState.t) : M Move :=
  let player := GameState.to_move state in
  do hand <- get_list (GameState.pedras state);
  let n := len hand in
  let d := depth_limit n in
  argmax (Domino.actions state) (fun a => chance_node d player state a 1).

(** ** The match *)

(** [l[i]]: a negative index counts from the end; outside the list it is an
    [IndexError]. *)
Definition py_index {A} (l : list A) (i : Z) : Res A :=
  let i' := if i <? 0 then i + len l else i in
  if (i' <? 0) || (len l <=? i') then Err IndexError
  else
    match l !! Z.to_nat i' with
    | Some x => Ok x
    | None => Err IndexError
    end.

(** [random.choice(seq)] as a function of the raw draw [r]: an empty
    sequence is an [IndexError]. *)
Definition random_choice {A} (r : Z) (l : list A) : Res A :=
  if len l =? 0 then Err IndexError else py_index l (r mod len l).

Definition random_player (r : Z) (state : GameState.t) : Res Move :=
  random_choice r (Domino.actions state).

(** [argmax] at integer keys (see [argmax]): the first element whose key no
    later element exceeds. *)
Fixpoint argmax_int_from {A} (key : A -> M Z) (best : A) (kbest : Z) (l : list A)
    : M A :=
  match l with
  | [] => ret best
  | a :: l' =>
      do k <- key a;
      if kbest <? k then argmax_int_from key a k l'
      else argmax_int_from key best kbest l'
  end.

Definition argmax_int {A} (l : list A) (key : A -> M Z) : M A :=
  match l with
  | [] => raise ValueError
  | a :: l' => do k <- key a; argmax_int_from key a k l'
  end.

(** The methods of [Domino] that run a match on the hands [self.jogadores].
    Console output ([print], [display], [imprime_jogadores]) and the clock
    are not part of the store and are left out. *)
Module Play.

Definition soma_pedras (self : Domino.t) (i : Z) : M Z :=
  do j <- liftR (py_index (Domino.jogadores self) i);
  do ps <- get_list j;
  reading (fun h => Ok (Domino.soma_valores h ps)).

Definition menor_soma (self : Domino.t) : M Z :=
  argmax_int [0; 1; 2; 3] (fun a => do s <- soma_pedras self a; ret (- s)).

Definition pode_jogar (self : Domino.t) (i : Z) (state : GameState.t) : M bool :=
  if Domino.is_not_None (GameState.ponta1 state) then
    do j <- liftR (py_index (Domino.jogadores self) i);
    do ps <- get_list j;
    reading (fun h => Domino.some_igual h (GameState.ponta1 state)
                        (GameState.ponta2 state) ps)
  else ret true.

(** The first loop of [vitoria]: the first seat of [ixs] whose hand is
    empty. *)
Fixpoint first_empty (self : Domino.t) (ixs : list Z) : M (option Z) :=
  match ixs with
  | [] => ret None
  | i :: ixs' =>
      do j <- liftR (py_index (Domino.jogadores self) i);
      do ps <- get_list j;
      if len ps =? 0 then ret (Some i) else first_empty self ixs'
  end.

(** The second loop: does some seat of [ixs] hold a playable tile? *)
Fixpoint some_pode_jogar (self : Domino.t) (state : GameState.t) (ixs : list Z)
    : M bool :=
  match ixs with
  | [] => ret false
  | i :: ixs' =>
      do b <- pode_jogar self i state;
      if b then ret true else some_pode_jogar self state ixs'
  end.

Definition vitoria (self : Domino.t) (state : GameState.t) : M Z :=
  do e <- first_empty self (Domino.range 4);
  match e with
  | Some i => ret i
  | None =>
      do b <- some_pode_jogar self state (Domino.range 4);
      if b then ret (-1) else menor_soma self
  end.

(** A player is a function of the game and the state; [expectiminimax] and
    [random_player] are the two the program uses. *)
Abbreviation Player := (Domino.t -> GameState.t -> M Move) (only parsing).

(** The body of the loop [for player in players] of [play_game]: the winner
    when the match ends with this move, the state handed to the next player
    otherwise. *)
Definition turn (self : Domino.t) (player : Player) (state : GameState.t)
    : M (Z + GameState.t) :=
  do move <- player self state;
  do m0 <- get_obj move.1;
  exec (if negb ((Pedra.valor m0).1 =? -1) then
          do j <- liftR (py_index (Domino.jogadores self) (GameState.to_move state));
          Domino.list_remove j move.1
        else ret tt);
  do state_res <- Domino.result state move (GameState.to_move state);
  do vencedor <- vitoria self state_res;
  if negb (vencedor =? -1) then ret (inl vencedor)
  else
    let ponta1 := GameState.ponta1 state_res in
    let ponta2 := GameState.ponta2 state_res in
    let to_move := GameState.to_move state_res in
    do pedras_restantes <- new_list [];
    exec foldM
           (fun (_ : unit) i =>
              if negb (i =? to_move) then
                do xs <- get_list pedras_restantes;
                do j <- liftR (py_index (Domino.jogadores self) i);
                do js <- get_list j;
                set_list pedras_restantes (xs ++ js)
              else ret tt)
           (Domino.range 4) tt;
    do j <- liftR (py_index (Domino.jogadores self) to_move);
    do hand <- get_list j;
    do pedras <- new_list hand;
    do moves <- Domino.moves to_move j pedras_restantes ponta1 ponta2 to_move;
    do utility <- Domino.compute_utility to_move j pedras_restantes ponta1 ponta2
                    move to_move;
    ret (inr (GameState.make to_move pedras pedras_restantes ponta1 ponta2
                moves utility)).

(** One pass of [for player in players]. *)
Fixpoint round (self : Domino.t) (players : list Player) (state : GameState.t)
    : M (Z + GameState.t) :=
  match players with
  | [] => ret (inr state)
  | player :: players' =>
      do r <- turn self player state;
      match r with
      | inl vencedor => ret (inl vencedor)
      | inr state' => round self players' state'
      end
  end.

(** [while True]: the source sets no bound on the rounds; [rounds] is the
    number the run is followed for. *)
Fixpoint play_rounds (rounds : nat) (self : Domino.t) (players : list Player)
    (state : GameState.t) : M Z :=
  match rounds with
  | O => raise OutOfFuel
  | S rounds' =>
      do r <- round self players state;
      match r with
      | inl vencedor => ret vencedor
      | inr state' => play_rounds rounds' self players state'
      end
  end.

Definition play_game (rounds : nat) (self : Domino.t) (players : list Player) : M Z :=
  play_rounds rounds self players (Domino.initial self).

End Play.

(** ** Concrete positions *)

(** A store for the examples: the double six lies alone on the board, so
    it is the tile at both ends; object 7 is a pass sentinel. *)
Definition ex_heap : Heap :=
  mkHeap
    [Pedra.make (6, 6) (-1); Pedra.make (6, 5) (-1); Pedra.make (3, 2) (-1);
     Pedra.make (6, 3) (-1); Pedra.make (1, 1) (-1); Pedra.make (4, 2) (-1);
     Pedra.make (4, 1) (-1); Pedra.make (-1, -1) (-1)]
    [[1; 2]; [3; 4; 5; 6]; [2]; [4; 5; 6]; [5; 4]]%nat.

(** Seat 0 to move, holding (6,5) and (3,2); the pool holds four tiles. *)
Definition ex_state : GameState.t :=
  GameState.make 0 0%nat 1%nat (Some 0%nat) (Some 0%nat) [(1%nat, 0)] 0.

(** Seat 0 to move, holding only (3,2), which matches no end: it must pass,
    while (6,3) in the pool still matches. *)
Definition ex_pass_state : GameState.t :=
  GameState.make 0 2%nat 1%nat (Some 0%nat) (Some 0%nat) [(7%nat, -1)] 0.

(** Seat 1, an opponent of the searching seat 0, to move from a pool of four
    tiles. *)
Definition ex_opponent_state : GameState.t :=
  GameState.make 1 0%nat 1%nat (Some 0%nat) (Some 0%nat) [(3%nat, 0)] 0.

(** Seat 1 to move and searching: its moves are those of its own hand. *)
Definition ex_seat1_state : GameState.t :=
  GameState.make 1 0%nat 1%nat (Some 0%nat) (Some 0%nat) [(1%nat, 0)] 0.

(** Seat 0 to move against a pool, (1,1), (4,2) and (4,1), that holds neither
    a 5 nor a 6. *)
Definition ex_lone_state : GameState.t :=
  GameState.make 0 0%nat 3%nat (Some 0%nat) (Some 0%nat) [(1%nat, 0)] 0.

(** A blocked board: nobody holds a 6, and the pool, (4,2) then (1,1), is
    not in the order of its pip sums. *)
Definition ex_blocked_state : GameState.t :=
  GameState.make 0 2%nat 4%nat (Some 0%nat) (Some 0%nat) [(7%nat, -1)] 0.

(** A board with two different open ends, 6 on (6,4) and 1 on (3,1), and a
    hand holding (6,1), which matches both, and (5,5), which matches none. *)
Definition ex_ends_heap : Heap :=
  mkHeap
    [Pedra.make (6, 4) 0; Pedra.make (3, 1) 1; Pedra.make (6, 1) (-1);
     Pedra.make (5, 5) (-1)]
    [[2; 3]; []]%nat.

(** What the transition returns on some of these positions. *)
Definition ex_after : GameState.t * Heap :=
  Eval vm_compute in
    match Domino.result ex_state (1%nat, 0) 0 ex_heap with
    | Ok r => r
    | Err _ => (ex_state, ex_heap)
    end.

Definition ex_after_lone : GameState.t * Heap :=
  Eval vm_compute in
    match Domino.result ex_lone_state (1%nat, 0) 0 ex_heap with
    | Ok r => r
    | Err _ => (ex_lone_state, ex_heap)
    end.

Definition ex_chances : list Chance * Heap :=
  Eval vm_compute in
    match Domino.chances ex_after.1 ex_after.2 with
    | Ok r => r
    | Err _ => ([], ex_heap)
    end.

(** A deal in which every draw is 0, so that each [pop] takes the last
    tile. *)
Definition ex_deal : Domino.t * Heap :=
  Eval vm_compute in
    match Domino.__init__ (fun _ => 0) (mkHeap [] []) with
    | Ok r => r
    | Err _ => (Domino.make O [] ex_state, ex_heap)
    end.

(** The first move of that deal's initial state, the placement of its
    first tile; the successor it leads to and the store it leaves; and the
    successor of a second transition from the initial state, by the second
    tile, in that later store. *)
Definition ex_first_move : Move :=
  Eval vm_compute in nth 0 (GameState.moves (Domino.initial ex_deal.1)) (O, 0).

Definition ex_second_move : Move :=
  Eval vm_compute in nth 1 (GameState.moves (Domino.initial ex_deal.1)) (O, 0).

Definition ex_deal_after : GameState.t * Heap :=
  Eval vm_compute in
    match Domino.result (Domino.initial ex_deal.1) ex_first_move 0 ex_deal.2 with
    | Ok r => r
    | Err _ => (ex_state, ex_heap)
    end.

Definition ex_deal_sibling : GameState.t * Heap :=
  Eval vm_compute in
    match Domino.result (Domino.initial ex_deal.1) ex_second_move 0 ex_deal_after.2 with
    | Ok r => r
    | Err _ => (ex_state, ex_heap)
    end.

(** ** Descriptions used for the rest of the program *)

(** A double: both pips are the same. *)
Definition is_double (p : Pedra.t) : bool :=
  (Pedra.valor p).1 =? (Pedra.valor p).2.

(** The tile carries the suit [k] on one of its halves. *)
Definition has_suit (p : Pedra.t) (k : Z) : bool :=
  (k =? (Pedra.valor p).1) || (k =? (Pedra.valor p).2).

(** The suits, among 0..6, that some tile of [hand] carries. *)
Definition suits_held (h : Heap) (hand : list loc) : list Z :=
  List.filter (fun k => existsb (fun l => has_suit (obj h l) k) hand)
    (Domino.range 7).

(** The double-six set in the order [cria_domino] makes it: [(i, j)] for
    [i] from 0 to 6 and [j] from 0 to [i], each with [position] -1. *)
Definition double_six : list Pedra.t :=
  flat_map
    (fun i => map (fun j => Pedra.make (i, j) (-1))
                (List.filter (fun j => Z.leb j i) (Domino.range 7)))
    (Domino.range 7).

(** No two tiles of a list are equal by [Pedra.__eq__]. *)
Definition distinct_tiles (ts : list Pedra.t) : bool :=
  forallb
    (fun a =>
       forallb
         (fun b =>
            (a =? b)%nat
            || negb (Pedra.__eq__ (default dangling (ts !! a))
                       (default dangling (ts !! b))))
         (seq 0 (length ts)))
    (seq 0 (length ts)).

(** The hand of seat [i] of a game, as the store has it. *)
Definition hand_of (self : Domino.t) (h : Heap) (i : nat) : list loc :=
  seq_of h (nth i (Domino.jogadores self) O).

(** [random_player] as a player of the match, when the draw falls on the
    last of the legal moves: [-1 mod n] is [n - 1]. *)
Definition last_move_player (self : Domino.t) (state : GameState.t) : M Move :=
  liftR (random_player (-1) state).

(** The store [h'] keeps every list and every tile of the store [h]. *)
Definition extends (h h' : Heap) : Prop :=
  (forall l, (l < length (lists h))%nat -> seq_of h' l = seq_of h l)
  /\ (forall o, (o < length (objs h))%nat -> obj h' o = obj h o)
  /\ (length (lists h) <= length (lists h'))%nat
  /\ (length (objs h) <= length (objs h'))%nat.

(** A state of a match in which nothing has been placed and whose last
    legal move is the pass: the board is empty, the two lists of the state
    and the four hands of the game are lists of the store, and no hand is
    empty. *)
Definition idle_board (self : Domino.t) (h : Heap) (state : GameState.t) : Prop :=
  GameState.ponta1 state = None
  /\ valid_lists h state
  /\ 0 <= GameState.to_move state < 4
  /\ (exists ms s, GameState.moves state = ms ++ [(s, -1)]
                   /\ (Pedra.valor (obj h s)).1 = -1)
  /\ length (Domino.jogadores self) = 4%nat
  /\ Forall (fun j => (j < length (lists h))%nat) (Domino.jogadores self)
  /\ (forall k, (k < 4)%nat -> hand_of self h k <> []).

(** ** Concrete positions for the rest of the program *)

(** An empty board in [ex_heap]: seat 0 holds (6,5) and (3,2), and its
    moves are both tiles and the pass. *)
Definition ex_empty_state : GameState.t :=
  GameState.make 0 0%nat 1%nat None None [(1%nat, -1); (2%nat, -1); (7%nat, -1)] 0.

(** Seat 1 to move against an empty pool. *)
Definition ex_empty_pool_heap : Heap :=
  mkHeap (objs ex_heap) [[1; 2]; []]%nat.

Definition ex_empty_pool_state : GameState.t :=
  GameState.make 1 0%nat 1%nat (Some 0%nat) (Some 0%nat) [(7%nat, -1)] 0.

(** A match on the double six: the four hands are the lists 0 to 3, (6,5),
    (3,2), (6,3) and (1,1); lists 4 and 5 are the hand and the pool of the
    state of seat 0, and list 6 is [self.pedras]. *)
Definition ex_match_heap : Heap :=
  mkHeap (objs ex_heap)
    [[1]; [2]; [3]; [4]; [1]; [2; 3; 4]; [0; 1; 2; 3; 4; 5; 6]]%nat.

Definition ex_match_state : GameState.t :=
  GameState.make 0 4%nat 5%nat (Some 0%nat) (Some 0%nat) [(1%nat, 0)] 0.

Definition ex_match : Domino.t :=
  Domino.make 6%nat [0; 1; 2; 3]%nat ex_match_state.

(** The same match once seat 1 has no tile left. *)
Definition ex_won_heap : Heap :=
  mkHeap (objs ex_heap)
    [[1]; []; [3]; [4]; [1]; [3; 4]; [0; 1; 2; 3; 4; 5; 6]]%nat.

(** A blocked match on the double six: the hands are (3,2), (1,1), (4,2) and
    (4,1), of pip sums 5, 2, 6 and 5. *)
Definition ex_blocked_match_heap : Heap :=
  mkHeap (objs ex_heap)
    [[2]; [4]; [5]; [6]; [2]; [4; 5; 6]; [0; 1; 2; 3; 4; 5; 6]]%nat.

(** What [expectiminimax] chooses for seat 0 in [ex_match_state], and the
    store it leaves. *)
Definition ex_choice : Move * Heap :=
  Eval vm_compute in
    match expectiminimax (F := float) ex_match_state ex_match_heap with
    | Ok r => r
    | Err _ => ((7%nat, -1), ex_match_heap)
    end.

(** The store in which [escolhe_pedras] deals: the 28 tiles and the list
    [self.pedras]. *)
Definition ex_tiles_heap : Heap :=
  mkHeap double_six [seq 0 28].

(** * Proofs *)

(** ** Running the monad *)

Lemma bindM_run {A B} (m : M A) (k : A -> M B) (h : Heap) :
  bindM m k h = match m h with Ok (a, h') => k a h' | Err e => Err e end.
Proof. reflexivity. Qed.

Lemma bindM_ok {A B} (m : M A) (k : A -> M B) (h h' : Heap) (a : A) :
  m h = Ok (a, h') -> bindM m k h = k a h'.
Proof. intros E. unfold bindM. now rewrite E. Qed.

Lemma bindM_err {A B} (m : M A) (k : A -> M B) (h : Heap) (e : exn) :
  m h = Err e -> bindM m k h = Err e.
Proof. intros E. unfold bindM. now rewrite E. Qed.

Lemma bindM_inv {A B} (m : M A) (k : A -> M B) (h h2 : Heap) (b : B) :
  bindM m k h = Ok (b, h2) ->
  exists a h1, m h = Ok (a, h1) /\ k a h1 = Ok (b, h2).
Proof.
  unfold bindM. destruct (m h) as [[a h1]|e]; [eauto | discriminate].
Qed.

Lemma foldM_ext {A B} (f g : B -> A -> M B) (l : list A) :
  (forall b a h, f b a h = g b a h) ->
  forall b h, foldM f l b h = foldM g l b h.
Proof.
  intros E. induction l as [|a l IH]; intros b h; simpl; [reflexivity|].
  unfold bindM. rewrite E. destruct (g b a h) as [[b' h']|e]; auto.
Qed.

(** ** The recursion of the search *)

Section SearchEquations.

Context {F : Type} `{Arith F} `{Ord F}.

Variable d : Z.
Variable player : Z.

(** [chance_node] only calls the two level functions one level down. *)
Lemma chance_node_body_ext (mx mn mx' mn' : GameState.t -> Z -> M (option F))
    (state : GameState.t) (action : Move) (depth : Z) (h : Heap) :
  (forall st h', mx st (depth + 1) h' = mx' st (depth + 1) h') ->
  (forall st h', mn st (depth + 1) h' = mn' st (depth + 1) h') ->
  chance_node_body d player mx mn state action depth h
  = chance_node_body d player mx' mn' state action depth h.
Proof.
  intros Emx Emn. unfold chance_node_body, bindM.
  destruct (Domino.result state action player h) as [[res h1]|e]; [|reflexivity].
  destruct (Domino.terminal_test res); [reflexivity|].
  destruct (d <=? depth); [reflexivity|].
  destruct (Domino.chances res h1) as [[cs h2]|e]; [|reflexivity].
  erewrite foldM_ext; [reflexivity|].
  intros [st acc] c h'. unfold chance_step, bindM.
  destruct (GameState.to_move (Domino.outcome st c) =? player);
    [rewrite Emx | rewrite Emn]; reflexivity.
Qed.

Lemma levels_below (depth : Z) :
  (d <=? depth) = false ->
  Z.to_nat (d - depth) = S (Z.to_nat (d - (depth + 1))).
Proof. intros Hd. apply Z.leb_gt in Hd. lia. Qed.

(** The equation the source's [max_value] satisfies. *)
Lemma max_value_unfold (state : GameState.t) (depth : Z) (h : Heap) :
  max_value d player state depth h
  = (if d <=? depth then Domino.eval state player
     else foldM
            (fun v acao =>
               do x <- chance_node d player state acao depth;
               liftR (py_max v x))
            (Domino.actions state) (Some (fopp infinity))) h.
Proof.
  unfold max_value. destruct (d <=? depth) eqn:Hd.
  - destruct (Z.to_nat (d - depth)); simpl; now rewrite Hd.
  - rewrite (levels_below _ Hd). simpl. rewrite Hd.
    apply foldM_ext. intros v acao h'. unfold bindM.
    now rewrite (chance_node_body_ext _ _ (max_value d player) (min_value d player)).
Qed.

Lemma min_value_unfold (state : GameState.t) (depth : Z) (h : Heap) :
  min_value d player state depth h
  = (if d <=? depth then Domino.eval state player
     else foldM
            (fun v acao =>
               do x <- chance_node d player state acao depth;
               liftR (py_min v x))
            (Domino.actions state) (Some infinity)) h.
Proof.
  unfold min_value. destruct (d <=? depth) eqn:Hd.
  - destruct (Z.to_nat (d - depth)); simpl; now rewrite Hd.
  - rewrite (levels_below _ Hd). simpl. rewrite Hd.
    apply foldM_ext. intros v acao h'. unfold bindM.
    now rewrite (chance_node_body_ext _ _ (max_value d player) (min_value d player)).
Qed.

End SearchEquations.

(** C7.  The depth limit is 7 for a hand of 6 or 7 tiles, 5 for 4 or 5 tiles
    and 9 for every other size (so 7 for a hand of 7 and 9 for a hand of 3);
    [expectiminimax] searches with that limit computed from the length of
    the mover's hand; and a level entered at or beyond the limit returns the
    evaluation heuristic of its state without expanding any action. *)
Theorem depth_policy {F : Type} `{Arith F} `{Ord F} :
  (forall n, n = 6 \/ n = 7 -> depth_limit n = 7)
  /\ (forall n, n = 4 \/ n = 5 -> depth_limit n = 5)
  /\ (forall n, n <> 4 -> n <> 5 -> n <> 6 -> n <> 7 -> depth_limit n = 9)
  /\ depth_limit 7 = 7
  /\ depth_limit 3 = 9
  /\ (forall (state : GameState.t) (h : Heap),
        expectiminimax (F := F) state h
        = argmax (Domino.actions state)
            (fun a => chance_node (depth_limit (len (seq_of h (GameState.pedras state))))
                        (GameState.to_move state) state a 1) h)
  /\ (forall (d player : Z) (state : GameState.t) (depth : Z) (h : Heap),
        d <= depth ->
        max_value (F := F) d player state depth h = Domino.eval state player h
        /\ min_value (F := F) d player state depth h = Domino.eval state player h).
Proof.
  repeat split.
  - intros n [-> | ->]; reflexivity.
  - intros n [-> | ->]; reflexivity.
  - intros n H4 H5 H6 H7. unfold depth_limit.
    destruct (Z.eqb_spec n 7); [contradiction|].
    destruct (Z.eqb_spec n 6); [contradiction|].
    destruct (Z.eqb_spec n 5); [contradiction|].
    destruct (Z.eqb_spec n 4); [contradiction|]. reflexivity.
  - rewrite max_value_unfold. apply Z.leb_le in H1. now rewrite H1.
  - rewrite min_value_unfold. apply Z.leb_le in H1. now rewrite H1.
Qed.

(** ** The chance node *)

Section ChanceNode.

Context {F : Type} `{Arith F} `{Ord F}.

Variable d : Z.
Variable player : Z.

Lemma outcome_outcome (s : GameState.t) (c c' : Chance) :
  Domino.outcome (Domino.outcome s c) c' = Domino.outcome s c'.
Proof. reflexivity. Qed.

(** The loop of [chance_node] accumulates, in order, the terms of the
    events; the state it rebinds at each turn only differs from
    [res_state] in its move list, which the next turn replaces. *)
Lemma chance_loop_terms (res : GameState.t) (depth : Z) (cs : list Chance) :
  forall (st : GameState.t) (acc : F) (h : Heap),
    (forall c, Domino.outcome st c = Domino.outcome res c) ->
    match foldM (chance_step player (max_value d player) (min_value d player) depth)
            cs (st, acc) h with
    | Ok ((_, total), h') =>
        exists terms,
          mapM (event_term d player res depth) cs h = Ok (terms, h')
          /\ total = fold_left fadd terms acc
    | Err e => mapM (event_term d player res depth) cs h = Err e
    end.
Proof.
  induction cs as [|c cs IH]; intros st acc h Hst; simpl.
  - exists []. split; reflexivity.
  - assert (Htm : GameState.to_move st = GameState.to_move res)
      by exact (f_equal GameState.to_move (Hst c)).
    set (rest := mapM (event_term d player res depth) cs) in *.
    unfold event_term, next_level. rewrite Hst, Htm.
    cbn [GameState.to_move Domino.outcome]. unfold bindM.
    destruct ((if GameState.to_move res =? player
               then max_value d player (Domino.outcome res c) (depth + 1)
               else min_value d player (Domino.outcome res c) (depth + 1)) h)
      as [[util h1]|e]; [|reflexivity].
    unfold liftR.
    destruct (Domino.probability c) as [p|e]; [|reflexivity].
    destruct (number util) as [u|e]; [|reflexivity].
    unfold ret.
    specialize (IH (Domino.outcome res c) (fadd acc (fmul u p)) h1 (fun c' => eq_refl)).
    unfold bindM in IH.
    destruct (foldM _ cs _ h1) as [[[st' total] h2]|e].
    + destruct IH as (terms & -> & ->). exists (fmul u p :: terms).
      split; reflexivity.
    + rewrite IH. reflexivity.
Qed.

End ChanceNode.

(** C5.  For a child state that is not terminal and is expanded below the
    depth limit, the value of the chance node is the sum, over the events the
    chance model returns, of the event's probability times the value of the
    next max level (when the next mover is the searching player) or min level
    (otherwise), divided by the number of events; the probabilities
    themselves are not summed. *)
Theorem chance_node_value {F : Type} `{Arith F} `{Ord F} (d player : Z)
    (state : GameState.t) (action : Move) (depth : Z) (h : Heap)
    (res_state : GameState.t) (h1 : Heap) (chances : list Chance) (h2 : Heap) :
  Domino.result state action player h = Ok (res_state, h1) ->
  Domino.terminal_test res_state = false ->
  depth < d ->
  Domino.chances res_state h1 = Ok (chances, h2) ->
  chance_node d player state action depth h
  = expected_value d player res_state depth chances h2.
Proof.
  intros Hres Hterm Hd Hcs.
  unfold chance_node, chance_node_body.
  rewrite (bindM_ok _ _ _ _ _ Hres), Hterm.
  apply Z.leb_gt in Hd. rewrite Hd.
  rewrite (bindM_ok _ _ _ _ _ Hcs).
  unfold expected_value, bindM at 1. unfold bindM at 2.
  pose proof (chance_loop_terms d player res_state depth chances res_state (of_Z 0) h2
                (fun c => eq_refl)) as L.
  destruct (foldM _ chances _ h2) as [[[st total] h3]|e].
  - destruct L as (terms & -> & ->). reflexivity.
  - rewrite L. reflexivity.
Qed.

(** ** The move generator *)

Lemma len_app {A} (l1 l2 : list A) : len (l1 ++ l2) = len l1 + len l2.
Proof. unfold len. rewrite length_app. lia. Qed.

Lemma len_nonneg {A} (l : list A) : 0 <= len l.
Proof. unfold len. lia. Qed.

Lemma len_zero {A} (l : list A) : len l = 0 -> l = [].
Proof. destruct l; [reflexivity|]. unfold len. simpl. lia. Qed.

Lemma moves_loop_set_acc (h : Heap) (e1 e2 : loc) (xs : list loc) :
  forall (acc : list Move) (i : Z),
    foldR (Domino.moves_step h (Some e1) (Some e2)) xs (acc, i)
    = Ok (acc ++ placements h e1 e2 xs, i + len (placements h e1 e2 xs)).
Proof.
  induction xs as [|x xs IH]; intros acc i; simpl.
  - rewrite app_nil_r. f_equal. f_equal. unfold len. simpl. lia.
  - destruct (Pedra.igual (obj h x) (obj h e1)); simpl.
    + rewrite IH. rewrite <- app_assoc. simpl. f_equal. f_equal.
      change ((x, 0) :: placements h e1 e2 xs) with ([(x, 0)] ++ placements h e1 e2 xs).
      rewrite len_app. unfold len at 2. simpl. lia.
    + destruct (Pedra.igual (obj h x) (obj h e2)); simpl.
      * rewrite IH. rewrite <- app_assoc. simpl. f_equal. f_equal.
        change ((x, 1) :: placements h e1 e2 xs) with ([(x, 1)] ++ placements h e1 e2 xs).
        rewrite len_app. unfold len at 2. simpl. lia.
      * apply IH.
Qed.

Lemma moves_loop_set (h : Heap) (e1 e2 : loc) (xs : list loc) :
  Domino.moves_loop h (Some e1) (Some e2) xs
  = Ok (placements h e1 e2 xs, len (placements h e1 e2 xs)).
Proof. unfold Domino.moves_loop. now rewrite moves_loop_set_acc. Qed.

Lemma moves_loop_unset_acc (h : Heap) (p2 : option loc) (xs : list loc) :
  forall (acc : list Move) (i : Z),
    foldR (Domino.moves_step h None p2) xs (acc, i)
    = Ok (acc ++ free_placements xs, i).
Proof.
  induction xs as [|x xs IH]; intros acc i; simpl.
  - now rewrite app_nil_r.
  - rewrite IH. now rewrite <- app_assoc.
Qed.

Lemma moves_loop_unset (h : Heap) (p2 : option loc) (xs : list loc) :
  Domino.moves_loop h None p2 xs = Ok (free_placements xs, 0).
Proof. unfold Domino.moves_loop. now rewrite moves_loop_unset_acc. Qed.

(** What [moves] returns on a board with both ends set. *)
Lemma moves_set (to_move : Z) (pedras pedras_restantes e1 e2 : loc) (player : Z)
    (h : Heap) :
  Domino.moves to_move pedras pedras_restantes (Some e1) (Some e2) player h
  = match placements h e1 e2
            (seq_of h (if to_move =? player then pedras else pedras_restantes)) with
    | [] => Ok ([(length (objs h), -1)], with_sentinel h)
    | ps => Ok (ps, h)
    end.
Proof.
  unfold Domino.moves, bindM, get_list, reading, liftR.
  rewrite moves_loop_set.
  destruct (placements h e1 e2 _) as [|m ms] eqn:E; [reflexivity|].
  replace (len (m :: ms) =? 0) with false; [reflexivity|].
  symmetry. apply Z.eqb_neq. unfold len. simpl. lia.
Qed.

(** What [moves] returns on an empty board: the pass sentinel always
    follows the free placements, since the loop leaves [i] at 0. *)
Lemma moves_unset (to_move : Z) (pedras pedras_restantes : loc) (p2 : option loc)
    (player : Z) (h : Heap) :
  Domino.moves to_move pedras pedras_restantes None p2 player h
  = Ok (free_placements
          (seq_of h (if to_move =? player then pedras else pedras_restantes))
        ++ [(length (objs h), -1)], with_sentinel h).
Proof.
  unfold Domino.moves, bindM, get_list, reading, liftR.
  rewrite moves_loop_unset. reflexivity.
Qed.

Lemma placements_selector (h : Heap) (e1 e2 : loc) (xs : list loc) (m : Move) :
  In m (placements h e1 e2 xs) ->
  In m.1 xs
  /\ (m.2 = 0 /\ Pedra.igual (obj h m.1) (obj h e1) = true
      \/ m.2 = 1 /\ Pedra.igual (obj h m.1) (obj h e1) = false
                 /\ Pedra.igual (obj h m.1) (obj h e2) = true).
Proof.
  unfold placements. rewrite in_flat_map. intros (l & Hl & Hm).
  destruct (Pedra.igual (obj h l) (obj h e1)) eqn:E1.
  - destruct Hm as [<-|[]]. simpl.
    split; [assumption | left; split; [reflexivity | assumption]].
  - destruct (Pedra.igual (obj h l) (obj h e2)) eqn:E2.
    + destruct Hm as [<-|[]]. simpl.
      split; [assumption | right; repeat split; assumption].
    + destruct Hm.
Qed.

Lemma placements_length (h : Heap) (e1 e2 : loc) (xs : list loc) :
  (length (placements h e1 e2 xs) <= length xs)%nat.
Proof.
  unfold placements.
  induction xs as [|x xs IH]; simpl; [lia|].
  rewrite length_app.
  destruct (Pedra.igual (obj h x) (obj h e1)); simpl; [apply le_n_S, IH|].
  destruct (Pedra.igual (obj h x) (obj h e2)); simpl;
    [apply le_n_S, IH | apply le_S, IH].
Qed.

(** C8, as the code has it.  On a board with both ends set the move
    generator returns, for the tiles of the relevant list in order, at most
    one move per tile: at end 1 (selector 0) when the tile matches end 1,
    otherwise at end 2 (selector 1) when it matches end 2.  A tile that
    matches both ends therefore yields the single move at end 1.  The pass
    sentinel is the only move exactly when no tile matches. *)
Theorem moves_one_per_tile (to_move : Z) (pedras pedras_restantes e1 e2 : loc)
    (player : Z) (h : Heap) :
  let xs := seq_of h (if to_move =? player then pedras else pedras_restantes) in
  Domino.moves to_move pedras pedras_restantes (Some e1) (Some e2) player h
  = match placements h e1 e2 xs with
    | [] => Ok ([(length (objs h), -1)], with_sentinel h)
    | ps => Ok (ps, h)
    end
  /\ (length (placements h e1 e2 xs) <= length xs)%nat
  /\ (forall l, In l xs ->
        Pedra.igual (obj h l) (obj h e1) = true ->
        In (l, 0) (placements h e1 e2 xs) /\ ~ In (l, 1) (placements h e1 e2 xs))
  /\ (forall l, In l xs ->
        Pedra.igual (obj h l) (obj h e1) = false ->
        Pedra.igual (obj h l) (obj h e2) = true ->
        In (l, 1) (placements h e1 e2 xs) /\ ~ In (l, 0) (placements h e1 e2 xs))
  /\ (forall l, In l xs ->
        Pedra.igual (obj h l) (obj h e1) = false ->
        Pedra.igual (obj h l) (obj h e2) = false ->
        forall k, ~ In (l, k) (placements h e1 e2 xs)).
Proof.
  intros xs. split; [apply moves_set|]. split; [apply placements_length|].
  split; [|split].
  - intros l Hl H1. split.
    + unfold placements. rewrite in_flat_map. exists l. split; [assumption|].
      rewrite H1. now left.
    + intros Hin. apply placements_selector in Hin. simpl in Hin.
      destruct Hin as (_ & [(? & _) | (_ & ? & _)]); congruence.
  - intros l Hl H1 H2. split.
    + unfold placements. rewrite in_flat_map. exists l. split; [assumption|].
      rewrite H1, H2. now left.
    + intros Hin. apply placements_selector in Hin. simpl in Hin.
      destruct Hin as (_ & [(_ & ?) | (? & _)]); congruence.
  - intros l Hl H1 H2 k Hin. apply placements_selector in Hin. simpl in Hin.
    destruct Hin as (_ & [(_ & ?) | (_ & _ & ?)]); congruence.
Qed.

(** ** The evaluation heuristic *)

(** [moves] returns on every board whose ends are set together. *)
Lemma moves_returns (to_move : Z) (pedras pedras_restantes : loc)
    (p1 p2 : option loc) (player : Z) (h : Heap) :
  ends_together p1 p2 ->
  exists ms h', Domino.moves to_move pedras pedras_restantes p1 p2 player h = Ok (ms, h')
                /\ (h' = h \/ h' = with_sentinel h).
Proof.
  intros He. destruct p1 as [e1|].
  - destruct p2 as [e2|]; [|exfalso; now apply He].
    rewrite moves_set. destruct (placements h e1 e2 _); eauto.
  - rewrite moves_unset. eauto.
Qed.

(** C10, as the code has it.  The heuristic computes all its features, the
    move list included, and then selects by seat: seats 0, 1 and 2 return
    their weighted combination; seat 3, like every other seat, raises
    nothing and returns [None]. *)
Theorem eval_profiles {F : Type} `{Arith F} (state : GameState.t) (player : Z)
    (h : Heap) :
  ends_together (GameState.ponta1 state) (GameState.ponta2 state) ->
  exists (movimentos : list Move) (h' : Heap),
    Domino.moves player (GameState.pedras state) (GameState.pedras_restantes state)
      (GameState.ponta1 state) (GameState.ponta2 state) player h
    = Ok (movimentos, h')
    /\ let hand := seq_of h (GameState.pedras state) in
       let n := len hand in
       let m := fdiv (of_Z (len (seq_of h (GameState.pedras_restantes state)))) (of_Z 3) in
       let buchas := Domino.buchas h hand in
       let delta := fsub m (of_Z n) in
       let soma_pedras := Domino.soma_pedras_max h' state in
       let diversidade := Domino.checa_diversidade_max h' state in
       (player = 0 ->
        Domino.eval state player h
        = Ok (Some (fsub (fadd (fsub (fmul (fopp (lit (9 # 10))) (of_Z buchas))
                                     (fmul (lit (2 # 10)) (of_Z n)))
                               (fmul (lit (7 # 10)) delta))
                         (fmul (lit (4 # 10)) (of_Z soma_pedras))), h'))
       /\ (player = 1 ->
           Domino.eval state player h
           = Ok (Some (fadd (fmul (lit (5 # 10)) (of_Z (len movimentos)))
                            (fmul (lit (6 # 10)) (of_Z diversidade))), h'))
       /\ (player = 2 ->
           Domino.eval state player h
           = Ok (Some (fadd (fsub (fadd (fadd (fsub (fmul (fopp (lit (9 # 10))) (of_Z buchas))
                                                    (fmul (lit (2 # 10)) (of_Z n)))
                                              (fmul (lit (7 # 10)) delta))
                                        (fmul (lit (5 # 10)) (of_Z (len movimentos))))
                                  (fmul (lit (4 # 10)) (of_Z soma_pedras)))
                            (fmul (lit (6 # 10)) (of_Z diversidade))), h'))
       /\ (player <> 0 -> player <> 1 -> player <> 2 ->
           Domino.eval state player h = Ok (None, h')).
Proof.
  intros He.
  destruct (moves_returns player (GameState.pedras state)
              (GameState.pedras_restantes state) _ _ player h He)
    as (ms & h' & Hm & _).
  exists ms, h'. split; [exact Hm|].
  unfold Domino.eval, bindM, get_list, liftR, truediv, reading. simpl.
  rewrite Hm. unfold ret.
  repeat split.
  - intros ->. reflexivity.
  - intros ->. reflexivity.
  - intros ->. reflexivity.
  - intros H0 H1 H2.
    destruct (Z.eqb_spec player 0); [contradiction|].
    destruct (Z.eqb_spec player 1); [contradiction|].
    destruct (Z.eqb_spec player 2); [contradiction|]. reflexivity.
Qed.

(** ** The chance model *)

Lemma chances_seat0 (state : GameState.t) (h : Heap) :
  GameState.to_move state = 0 ->
  Domino.chances state h
  = Ok ([(0, GameState.moves state, len (GameState.moves state),
          len (seq_of h (GameState.pedras state)))], h).
Proof. intros E. unfold Domino.chances. rewrite E. reflexivity. Qed.

Lemma chances_other_seat (state : GameState.t) (h : Heap) :
  GameState.to_move state <> 0 ->
  let n_moves := len (GameState.moves state) in
  let n := len (seq_of h (GameState.pedras_restantes state)) in
  let m1 := List.filter Domino.ponta1 (GameState.moves state) in
  let m2 := List.filter Domino.ponta2 (GameState.moves state) in
  Domino.chances state h
  = Ok ((if 0 <? len m1 then [(1, m1, n_moves, n)] else [])
        ++ (if 0 <? len m2 then [(2, m2, n_moves, n)] else [])
        ++ [(-1, [(length (objs h), -1)], n_moves, n)], with_sentinel h).
Proof.
  intros E. unfold Domino.chances.
  apply Z.eqb_neq in E. rewrite E. simpl.
  unfold bindM, get_list, new_obj, ret. simpl.
  destruct (0 <? len (List.filter Domino.ponta1 (GameState.moves state)));
    destruct (0 <? len (List.filter Domino.ponta2 (GameState.moves state)));
    reflexivity.
Qed.

(** The root player's own seat, when it is seat 0: one event, of
    probability 1. *)
Lemma chances_seat0_certain {F : Type} `{Arith F} (state : GameState.t) (h : Heap) :
  GameState.to_move state = 0 ->
  exists c, Domino.chances state h = Ok ([c], h)
            /\ Domino.probability c = Ok (of_Z 1).
Proof.
  intros E. eexists. split; [now apply chances_seat0|]. reflexivity.
Qed.

Lemma filter_by_end (ms : list Move) :
  (forall m, In m ms -> m.2 = 0 \/ m.2 = 1) ->
  len (List.filter Domino.ponta1 ms) + len (List.filter Domino.ponta2 ms) = len ms.
Proof.
  unfold len. induction ms as [|m ms IH]; intros Hsel; simpl; [reflexivity|].
  assert (IH' := IH (fun m' Hm' => Hsel m' (or_intror Hm'))).
  unfold Domino.ponta1 at 1, Domino.ponta2 at 1.
  destruct (Hsel m (or_introl eq_refl)) as [E|E]; rewrite E; simpl; lia.
Qed.

Lemma inject_Z_nonzero (n : Z) : n <> 0 -> ~ (inject_Z n == 0)%Q.
Proof. intros Hn E. unfold Qeq in E. simpl in E. lia. Qed.

Lemma probability_match (k : Z) (ms : list Move) (n_moves n : Z) :
  (k = 1 \/ k = 2) -> n <> 0 ->
  Domino.probability (F := Q) (k, ms, n_moves, n)
  = Ok (inject_Z (len ms) / inject_Z n)%Q.
Proof.
  intros Hk Hn. unfold Domino.probability, truediv. simpl.
  apply Z.eqb_neq in Hn. rewrite Hn.
  destruct Hk as [-> | ->]; reflexivity.
Qed.

Lemma probability_no_match (ms : list Move) (n_moves n : Z) :
  n <> 0 ->
  Domino.probability (F := Q) (-1, ms, n_moves, n)
  = Ok (1 - inject_Z n_moves / inject_Z n)%Q.
Proof.
  intros Hn. unfold Domino.probability, truediv. simpl.
  apply Z.eqb_neq in Hn. now rewrite Hn.
Qed.

(** Where some tile matches, the complement is right.  At a node whose
    mover is not seat 0, whose pool is not empty and whose legal moves are
    all placements at an end (selector 0 or 1), the exact probabilities of
    the categories returned sum to 1, and the no-match category, which comes
    last, has probability 1 minus the sum of the match categories. *)
Theorem probabilities_sum_to_one (state : GameState.t) (h : Heap) :
  GameState.to_move state <> 0 ->
  seq_of h (GameState.pedras_restantes state) <> [] ->
  (forall m, In m (GameState.moves state) -> m.2 = 0 \/ m.2 = 1) ->
  exists (matches : list Chance) (no_match : Chance) (h' : Heap) (ps : list Q) (p : Q),
    Domino.chances state h = Ok (matches ++ [no_match], h')
    /\ (forall c, In c matches -> c.1.1.1 = 1 \/ c.1.1.1 = 2)
    /\ no_match.1.1.1 = -1
    /\ mapR Domino.probability matches = Ok ps
    /\ Domino.probability no_match = Ok p
    /\ (sum_Q ps + p == 1)%Q
    /\ (p == 1 - sum_Q ps)%Q.
Proof.
  intros Hseat Hpool Hsel.
  pose proof (chances_other_seat state h Hseat) as Hc. cbv zeta in Hc.
  pose proof (filter_by_end _ Hsel) as Hcount.
  set (n := len (seq_of h (GameState.pedras_restantes state))) in *.
  set (m1 := List.filter Domino.ponta1 (GameState.moves state)) in *.
  set (m2 := List.filter Domino.ponta2 (GameState.moves state)) in *.
  set (n_moves := len (GameState.moves state)) in *.
  assert (Hn : n <> 0).
  { unfold n, len. destruct (seq_of h (GameState.pedras_restantes state));
      [contradiction | simpl; lia]. }
  pose proof (inject_Z_nonzero n Hn) as HnQ.
  assert (Hsum : (inject_Z n_moves == inject_Z (len m1) + inject_Z (len m2))%Q).
  { rewrite <- inject_Z_plus. now rewrite Hcount. }
  pose proof (len_nonneg m1) as H1. pose proof (len_nonneg m2) as H2.
  rewrite app_assoc in Hc.
  destruct (0 <? len m1) eqn:E1; destruct (0 <? len m2) eqn:E2;
    (eexists _, _, _, _, _; split; [exact Hc|]; split;
     [ simpl; intros c Hin; intuition (subst; simpl; auto) | ];
     split; [reflexivity|]; split;
     [ simpl; rewrite ?probability_match by auto; simpl; reflexivity | ];
     split; [now apply probability_no_match | ]).
  - simpl. rewrite Hsum. split; field; exact HnQ.
  - apply Z.ltb_ge in E2. assert (len m2 = 0) as E by lia. rewrite E in Hsum.
    simpl. rewrite Hsum. split; field; exact HnQ.
  - apply Z.ltb_ge in E1. assert (len m1 = 0) as E by lia. rewrite E in Hsum.
    simpl. rewrite Hsum. split; field; exact HnQ.
  - apply Z.ltb_ge in E1. apply Z.ltb_ge in E2.
    assert (len m1 = 0) as Ea by lia. assert (len m2 = 0) as Eb by lia.
    rewrite Ea, Eb in Hsum.
    simpl. rewrite Hsum. split; field; exact HnQ.
Qed.

(** *** The same law in binary64 *)

Lemma range_In (k : Z) (n : nat) :
  0 <= k < Z.of_nat n -> In k (Domino.range n).
Proof.
  intros Hk. unfold Domino.range. apply in_map_iff.
  exists (Z.to_nat k). split; [lia|]. apply in_seq. lia.
Qed.

Lemma event_probabilities_close (a b n : Z) :
  0 <= a -> 0 <= b -> a + b <= n -> 0 < n <= 28 ->
  within_epsilon (sum_float (event_probabilities a b n)) = true.
Proof.
  intros Ha Hb Hab Hn.
  assert (Hall : all_within_epsilon = true) by (vm_compute; reflexivity).
  unfold all_within_epsilon in Hall.
  rewrite forallb_forall in Hall.
  specialize (Hall n (range_In n 29 ltac:(lia))).
  rewrite forallb_forall in Hall.
  specialize (Hall a (range_In a 29 ltac:(lia))).
  rewrite forallb_forall in Hall.
  specialize (Hall b (range_In b 29 ltac:(lia))).
  destruct (Z.eqb_spec n 0); [lia|].
  destruct (Z.leb_spec (a + b) n); [|lia].
  exact Hall.
Qed.

(** X19.  In Python's own arithmetic: at a node of a game of 28 tiles
    whose mover is not seat 0, whose pool is not empty and whose legal moves
    are placements at an end of distinct pool tiles (so no more moves than
    pool tiles), the binary64 probabilities of the categories returned sum
    to 1 within machine epsilon. *)
Lemma probabilities_sum_binary64 (state : GameState.t) (h : Heap) :
  GameState.to_move state <> 0 ->
  seq_of h (GameState.pedras_restantes state) <> [] ->
  len (seq_of h (GameState.pedras_restantes state)) <= 28 ->
  (forall m, In m (GameState.moves state) -> m.2 = 0 \/ m.2 = 1) ->
  len (GameState.moves state) <= len (seq_of h (GameState.pedras_restantes state)) ->
  exists (cs : list Chance) (h' : Heap) (ps : list float),
    Domino.chances state h = Ok (cs, h')
    /\ mapR Domino.probability cs = Ok ps
    /\ within_epsilon (sum_float ps) = true.
Proof.
  intros Hseat Hpool Hsmall Hsel Hfew.
  pose proof (chances_other_seat state h Hseat) as Hc. cbv zeta in Hc.
  pose proof (filter_by_end _ Hsel) as Hcount.
  set (n := len (seq_of h (GameState.pedras_restantes state))) in *.
  set (m1 := List.filter Domino.ponta1 (GameState.moves state)) in *.
  set (m2 := List.filter Domino.ponta2 (GameState.moves state)) in *.
  assert (Hn : n <> 0).
  { unfold n, len. destruct (seq_of h (GameState.pedras_restantes state));
      [contradiction | simpl; lia]. }
  pose proof (len_nonneg m1) as H1. pose proof (len_nonneg m2) as H2.
  assert (Hpos : 0 < n) by (pose proof (len_nonneg
    (seq_of h (GameState.pedras_restantes state))); fold n in H; lia).
  eexists _, _, (event_probabilities (len m1) (len m2) n).
  split; [exact Hc|]. split.
  - unfold event_probabilities. rewrite <- Hcount.
    apply Z.eqb_neq in Hn.
    destruct (0 <? len m1); destruct (0 <? len m2);
      cbn [app mapR bindR Domino.probability fst snd Z.eqb orb truediv];
      unfold Domino.probability, truediv; cbn [fst snd];
      rewrite ?Hn; reflexivity.
  - apply event_probabilities_close; lia.
Qed.

(** ** The store under the transition *)

Lemma heap_eta (h : Heap) : mkHeap (objs h) (lists h) = h.
Proof. now destruct h. Qed.

Lemma obj_obj_of (h : Heap) (l : loc) : obj h l = obj_of (objs h) l.
Proof. reflexivity. Qed.

Lemma obj_of_positioned (os : list Pedra.t) (l l' : loc) (p : Z) :
  obj_of (positioned os l p) l'
  = if decide (l = l' /\ (l < length os)%nat)
    then Pedra.set_position (obj_of os l') p else obj_of os l'.
Proof.
  unfold obj_of, positioned.
  destruct (decide (l = l' /\ (l < length os)%nat)) as [[<- Hlt]|Hn].
  - rewrite list_lookup_alter_eq.
    destruct (lookup_lt_is_Some_2 os l Hlt) as [o E]. rewrite E. reflexivity.
  - destruct (decide (l = l')) as [<-|Hne].
    + rewrite list_lookup_alter_eq.
      assert (E : os !! l = None) by (apply lookup_ge_None; lia).
      rewrite E. reflexivity.
    + now rewrite list_lookup_alter_ne.
Qed.

Lemma positioned_length (os : list Pedra.t) (l : loc) (p : Z) :
  length (positioned os l p) = length os.
Proof. unfold positioned. apply length_alter. Qed.

Lemma positioned_pips (os : list Pedra.t) (l l' : loc) (p : Z) :
  Pedra.valor (obj_of (positioned os l p) l') = Pedra.valor (obj_of os l').
Proof. rewrite obj_of_positioned. now destruct (decide _). Qed.

Lemma oriented_length (os : list Pedra.t) (m e : loc) (b : bool) :
  length (oriented os m e b) = length os.
Proof.
  unfold oriented.
  repeat match goal with
         | |- context [if ?c then _ else _] => destruct c
         end; rewrite ?positioned_length; reflexivity.
Qed.

Lemma oriented_pips (os : list Pedra.t) (m e : loc) (b : bool) (l : loc) :
  Pedra.valor (obj_of (oriented os m e b) l) = Pedra.valor (obj_of os l).
Proof.
  unfold oriented.
  repeat match goal with
         | |- context [if ?c then _ else _] => destruct c
         end; rewrite ?positioned_pips; reflexivity.
Qed.

Lemma placed_length (os : list Pedra.t) (p1 p2 : option loc) (move : Move) :
  length (placed_objs os p1 p2 move) = length os.
Proof.
  unfold placed_objs.
  destruct p1 as [e1|]; [|apply positioned_length].
  destruct (move.2 =? 0); [apply oriented_length|].
  destruct (move.2 =? 1); [|reflexivity].
  destruct p2; [apply oriented_length | reflexivity].
Qed.

(** The transition never changes the pips of a tile. *)
Lemma placed_pips (os : list Pedra.t) (p1 p2 : option loc) (move : Move) (l : loc) :
  Pedra.valor (obj_of (placed_objs os p1 p2 move) l) = Pedra.valor (obj_of os l).
Proof.
  unfold placed_objs.
  destruct p1 as [e1|]; [|apply positioned_pips].
  destruct (move.2 =? 0); [apply oriented_pips|].
  destruct (move.2 =? 1); [|reflexivity].
  destruct p2; [apply oriented_pips | reflexivity].
Qed.

(** It only writes the placed tile and the tile at end 1. *)
Lemma oriented_frame (os : list Pedra.t) (m e : loc) (b : bool) (l : loc) :
  l <> m -> l <> e -> obj_of (oriented os m e b) l = obj_of os l.
Proof.
  intros Hm He. unfold oriented.
  repeat match goal with
         | |- context [if ?c then _ else _] => destruct c
         end; rewrite ?obj_of_positioned;
    repeat (rewrite decide_False by (intros [? _]; congruence)); reflexivity.
Qed.

Lemma oriented_frame_end2 (os : list Pedra.t) (m e : loc) (l : loc) :
  l <> m -> obj_of (oriented os m e false) l = obj_of os l.
Proof.
  intros Hm. unfold oriented. simpl.
  repeat match goal with
         | |- context [if ?c then _ else _] => destruct c
         end; rewrite ?obj_of_positioned;
    repeat (rewrite decide_False by (intros [? _]; congruence)); reflexivity.
Qed.

Lemma placed_frame (os : list Pedra.t) (p1 p2 : option loc) (move : Move) (l : loc) :
  l <> move.1 -> p1 <> Some l ->
  obj_of (placed_objs os p1 p2 move) l = obj_of os l.
Proof.
  intros Hm He. unfold placed_objs.
  destruct p1 as [e1|].
  - destruct (move.2 =? 0); [apply oriented_frame; congruence|].
    destruct (move.2 =? 1); [|reflexivity].
    destruct p2; [now apply oriented_frame_end2 | reflexivity].
  - rewrite obj_of_positioned. rewrite decide_False; [reflexivity|].
    intros [? _]. congruence.
Qed.

Lemma orient_run (m e : loc) (b : bool) (h : Heap) :
  Domino.orient m e b h = Ok (tt, mkHeap (oriented (objs h) m e b) (lists h)).
Proof.
  destruct h as [os ls].
  unfold Domino.orient, oriented, bindM, get_obj, write_position, ret, obj, positioned.
  simpl. fold (obj_of os m) (obj_of os e).
  destruct (((Pedra.valor (obj_of os m)).1 =? (Pedra.valor (obj_of os e)).1)
            || ((Pedra.valor (obj_of os m)).1 =? (Pedra.valor (obj_of os e)).2)).
  - destruct b; simpl; [|reflexivity].
    unfold obj_of. simpl.
    destruct (Pedra.position _ =? -1); reflexivity.
  - destruct (((Pedra.valor (obj_of os m)).2 =? (Pedra.valor (obj_of os e)).1)
              || ((Pedra.valor (obj_of os m)).2 =? (Pedra.valor (obj_of os e)).2));
      [|reflexivity].
    destruct b; simpl; [|reflexivity].
    unfold obj_of. simpl.
    destruct (Pedra.position _ =? -1); reflexivity.
Qed.

Lemma place_run (state : GameState.t) (move : Move) (h : Heap) :
  ends_together (GameState.ponta1 state) (GameState.ponta2 state) ->
  Domino.place state move h
  = Ok (placed_ends (GameState.ponta1 state) (GameState.ponta2 state) move,
        mkHeap (placed_objs (objs h) (GameState.ponta1 state)
                  (GameState.ponta2 state) move) (lists h)).
Proof.
  intros He. unfold Domino.place, placed_ends, placed_objs.
  destruct (GameState.ponta1 state) as [e1|].
  - destruct (GameState.ponta2 state) as [e2|]; [|exfalso; now apply He].
    destruct (move.2 =? 0).
    + unfold bindM. rewrite orient_run. reflexivity.
    + destruct (move.2 =? 1).
      * unfold bindM. rewrite orient_run. reflexivity.
      * unfold ret. now rewrite heap_eta.
  - reflexivity.
Qed.

(** ** [compute_utility] *)

Lemma some_igual_set (h : Heap) (e1 e2 : loc) (ps : list loc) :
  Domino.some_igual h (Some e1) (Some e2) ps
  = Ok (existsb (fun p => Pedra.igual (obj h p) (obj h e1)
                          || Pedra.igual (obj h p) (obj h e2)) ps).
Proof.
  induction ps as [|p ps IH]; simpl; [reflexivity|].
  destruct (Pedra.igual (obj h p) (obj h e1)); simpl; [reflexivity|].
  destruct (Pedra.igual (obj h p) (obj h e2)); simpl; [reflexivity|].
  exact IH.
Qed.

Lemma compute_utility_placement (to_move : Z) (pedras pedras_restantes : loc)
    (p1 p2 : option loc) (move : Move) (player : Z) (h : Heap) :
  (Pedra.valor (obj h move.1)).1 <> -1 ->
  Domino.compute_utility to_move pedras pedras_restantes p1 p2 move player h
  = Ok (if to_move =? player
        then (if len (seq_of h pedras) =? 1 then 4 else 0)
        else (if len (seq_of h pedras_restantes) =? 3 then -1 else 0), h).
Proof.
  intros Hp. apply Z.eqb_neq in Hp.
  unfold Domino.compute_utility, bindM, get_obj, get_list. rewrite Hp. simpl.
  destruct (to_move =? player).
  - destruct (len (seq_of h pedras) =? 1); reflexivity.
  - destruct (len (seq_of h pedras_restantes) =? 3); reflexivity.
Qed.

(** ** The transition on a placement *)

Lemma seq_of_app_l (os : list Pedra.t) (ls ext : list (list loc)) (l : loc) :
  (l < length ls)%nat ->
  seq_of (mkHeap os (ls ++ ext)) l = seq_of (mkHeap os ls) l.
Proof. intros Hl. unfold seq_of. simpl. now rewrite lookup_app_l. Qed.

Lemma seq_of_objs (os os' : list Pedra.t) (ls : list (list loc)) (l : loc) :
  seq_of (mkHeap os ls) l = seq_of (mkHeap os' ls) l.
Proof. reflexivity. Qed.

Lemma seq_of_middle (os : list Pedra.t) (ls : list (list loc)) (x : list loc)
    (ext : list (list loc)) :
  seq_of (mkHeap os (ls ++ x :: ext)) (length ls) = x.
Proof. unfold seq_of. simpl. now rewrite list_lookup_middle. Qed.

Lemma seq_of_second (os : list Pedra.t) (ls : list (list loc)) (x y : list loc) :
  seq_of (mkHeap os (ls ++ [x; y])) (S (length ls)) = y.
Proof.
  unfold seq_of. simpl.
  change (ls ++ [x; y]) with (ls ++ [x] ++ [y]). rewrite app_assoc.
  rewrite list_lookup_middle; [reflexivity|]. rewrite length_app. simpl. lia.
Qed.

Lemma insert_first_new (ls : list (list loc)) (x y r : list loc) :
  <[length ls := r]> (ls ++ [x; y]) = ls ++ [r; y].
Proof.
  rewrite insert_app_r_alt by lia. now rewrite Nat.sub_diag.
Qed.

Lemma insert_second_new (ls : list (list loc)) (x y r : list loc) :
  <[S (length ls) := r]> (ls ++ [x; y]) = ls ++ [x; r].
Proof.
  rewrite insert_app_r_alt by lia.
  replace (S (length ls) - length ls)%nat with 1%nat by lia. reflexivity.
Qed.

(** [remove] compares pips only. *)
Lemma remove_first_pips (h h' : Heap) (x : loc) (l : list loc) :
  (forall a, Pedra.valor (obj h' a) = Pedra.valor (obj h a)) ->
  Domino.remove_first h' x l = Domino.remove_first h x l.
Proof.
  intros Hp. induction l as [|y l IH]; simpl; [reflexivity|].
  unfold Pedra.__eq__. rewrite !Hp. now rewrite IH.
Qed.

Lemma remove_first_length (h : Heap) (x : loc) (l r : list loc) :
  Domino.remove_first h x l = Ok r -> len l = len r + 1.
Proof.
  revert r. induction l as [|y l IH]; intros r; simpl; [discriminate|].
  destruct (Pedra.__eq__ (obj h y) (obj h x)).
  - intros [= ->]. unfold len. simpl. lia.
  - destruct (Domino.remove_first h x l) as [r'|e]; simpl; [|discriminate].
    intros [= <-]. specialize (IH r' eq_refl). unfold len in *. simpl. lia.
Qed.

Lemma pedra_eq_refl (p : Pedra.t) : Pedra.__eq__ p p = true.
Proof. unfold Pedra.__eq__. now rewrite !Z.eqb_refl. Qed.

(** A tile that is in the list can be removed from it. *)
Lemma remove_first_in (h : Heap) (x : loc) (l : list loc) :
  In x l -> exists r, Domino.remove_first h x l = Ok r.
Proof.
  induction l as [|y l IH]; intros Hin; [destruct Hin|]. simpl.
  destruct (Pedra.__eq__ (obj h y) (obj h x)) eqn:E; [eauto|].
  destruct Hin as [->|Hin]; [now rewrite pedra_eq_refl in E|].
  destruct (IH Hin) as [r ->]. simpl. eauto.
Qed.

Lemma placed_ends_set (p1 p2 : option loc) (move : Move) :
  ends_together p1 p2 ->
  exists a b, placed_ends p1 p2 move = (Some a, Some b).
Proof.
  intros He. unfold placed_ends. destruct p1 as [e1|]; [|eauto].
  destruct p2 as [e2|]; [|exfalso; now apply He].
  destruct (move.2 =? 0); [eauto|]. destruct (move.2 =? 1); eauto.
Qed.

(** The transition on a placement, up to the final call of [moves]: the
    store it has built and the state it is about to return. *)
Lemma result_placement_run (state : GameState.t) (move : Move) (player : Z)
    (h : Heap) :
  valid_lists h state ->
  is_placement h move ->
  ends_together (GameState.ponta1 state) (GameState.ponta2 state) ->
  let hand0 := seq_of h (GameState.pedras state) in
  let rest0 := seq_of h (GameState.pedras_restantes state) in
  let mine := GameState.to_move state =? player in
  let L := length (lists h) in
  let ends := placed_ends (GameState.ponta1 state) (GameState.ponta2 state) move in
  let to_move := (GameState.to_move state + 1) mod 4 in
  let utility :=
    if mine then (if len hand0 =? 1 then 4 else 0)
    else (if len rest0 =? 3 then -1 else 0) in
  Domino.result state move player h
  = match Domino.remove_first h move.1 (if mine then hand0 else rest0) with
    | Ok r =>
        (do ms <- Domino.moves to_move L (S L) ends.1 ends.2 player;
         ret (GameState.make to_move L (S L) ends.1 ends.2 ms utility))
          (mkHeap (placed_objs (objs h) (GameState.ponta1 state)
                     (GameState.ponta2 state) move)
                  (lists h ++ [if mine then r else hand0; if mine then rest0 else r]))
    | Err e => Err e
    end.
Proof.
  intros [Hv1 Hv2] Hpl He hand0 rest0 mine L ends to_move utility.
  destruct h as [os ls]. simpl in Hv1, Hv2.
  unfold Domino.result.
  unfold bindM at 1. unfold get_list at 1.
  unfold bindM at 1. unfold new_list at 1.
  unfold bindM at 1. unfold get_list at 1.
  unfold bindM at 1. unfold new_list at 1.
  cbn [objs lists].
  rewrite (seq_of_app_l os ls [seq_of (mkHeap os ls) (GameState.pedras state)]) by assumption.
  fold hand0 rest0. rewrite <- app_assoc. cbn [app].
  unfold bindM at 1.
  rewrite compute_utility_placement by exact Hpl.
  rewrite !seq_of_app_l by assumption. fold hand0 rest0 mine utility.
  unfold bindM at 1. unfold get_obj at 1.
  assert (Hpl' : ((Pedra.valor (obj (mkHeap os (ls ++ [hand0; rest0])) move.1)).1 =? -1) = false)
    by (apply Z.eqb_neq; exact Hpl).
  rewrite Hpl'. cbn [negb].
  unfold bindM at 1. unfold bindM at 1. unfold bindM at 1.
  rewrite place_run by exact He. cbn [objs lists]. fold ends.
  rewrite length_app. cbn [length]. rewrite Nat.add_1_r.
  set (os' := placed_objs os (GameState.ponta1 state) (GameState.ponta2 state) move).
  assert (Hpips : forall a, Pedra.valor (obj (mkHeap os' (ls ++ [hand0; rest0])) a)
                            = Pedra.valor (obj (mkHeap os ls) a)).
  { intros a. apply placed_pips. }
  fold L.
  destruct mine eqn:Emine.
  - unfold Domino.list_remove, bindM, get_list, reading, liftR, set_list.
    rewrite seq_of_middle.
    rewrite (remove_first_pips _ _ _ _ Hpips).
    destruct (Domino.remove_first (mkHeap os ls) move.1 hand0) as [r|e]; [|reflexivity].
    cbn [objs lists].
    unfold L. rewrite insert_first_new. unfold ret. destruct ends. reflexivity.
  - unfold Domino.list_remove, bindM, get_list, reading, liftR, set_list.
    unfold L. rewrite seq_of_second.
    rewrite (remove_first_pips _ _ _ _ Hpips).
    destruct (Domino.remove_first (mkHeap os ls) move.1 rest0) as [r|e]; [|reflexivity].
    cbn [objs lists].
    rewrite insert_second_new. unfold ret. destruct ends. reflexivity.
Qed.

(** The state and the store a placement returns. *)
Lemma result_placement (state : GameState.t) (move : Move) (player : Z)
    (h : Heap) (r : list loc) :
  valid_lists h state ->
  is_placement h move ->
  ends_together (GameState.ponta1 state) (GameState.ponta2 state) ->
  let hand0 := seq_of h (GameState.pedras state) in
  let rest0 := seq_of h (GameState.pedras_restantes state) in
  let mine := GameState.to_move state =? player in
  Domino.remove_first h move.1 (if mine then hand0 else rest0) = Ok r ->
  let L := length (lists h) in
  let to_move := (GameState.to_move state + 1) mod 4 in
  let utility :=
    if mine then (if len hand0 =? 1 then 4 else 0)
    else (if len rest0 =? 3 then -1 else 0) in
  let hb := mkHeap (placed_objs (objs h) (GameState.ponta1 state)
                      (GameState.ponta2 state) move)
              (lists h ++ [if mine then r else hand0; if mine then rest0 else r]) in
  exists a b,
    placed_ends (GameState.ponta1 state) (GameState.ponta2 state) move = (Some a, Some b)
    /\ Domino.result state move player h
       = match placements hb a b (seq_of hb (if to_move =? player then L else S L)) with
         | [] => Ok (GameState.make to_move L (S L) (Some a) (Some b)
                       [(length (objs hb), -1)] utility, with_sentinel hb)
         | ps => Ok (GameState.make to_move L (S L) (Some a) (Some b) ps utility, hb)
         end.
Proof.
  intros Hv Hpl He hand0 rest0 mine Hr L to_move utility hb.
  destruct (placed_ends_set _ _ move He) as (a & b & Hends).
  exists a, b. split; [exact Hends|].
  rewrite (result_placement_run state move player h Hv Hpl He).
  fold hand0 rest0 mine. rewrite Hr.
  rewrite Hends. cbn [fst snd]. unfold bindM.
  fold hand0 rest0 mine L to_move hb.
  rewrite moves_set.
  destruct (placements hb a b _); reflexivity.
Qed.

(** C3, as the code has it.  A placement of a tile of the relevant list
    returns; its utility marker is +4 when the mover is the searching player
    and its hand is empty after the move, -1 when the mover is another player
    and the unseen pool held exactly three tiles before the move (two after
    it), and 0 otherwise. *)
Theorem placement_utility (state : GameState.t) (move : Move) (player : Z)
    (h : Heap) :
  valid_lists h state ->
  is_placement h move ->
  ends_together (GameState.ponta1 state) (GameState.ponta2 state) ->
  In move.1 (seq_of h (if GameState.to_move state =? player
                       then GameState.pedras state
                       else GameState.pedras_restantes state)) ->
  exists (s' : GameState.t) (h' : Heap),
    Domino.result state move player h = Ok (s', h')
    /\ (GameState.to_move state = player ->
        len (seq_of h' (GameState.pedras s'))
        = len (seq_of h (GameState.pedras state)) - 1
        /\ len (seq_of h' (GameState.pedras_restantes s'))
           = len (seq_of h (GameState.pedras_restantes state))
        /\ GameState.utility s'
           = if len (seq_of h' (GameState.pedras s')) =? 0 then 4 else 0)
    /\ (GameState.to_move state <> player ->
        len (seq_of h' (GameState.pedras_restantes s'))
        = len (seq_of h (GameState.pedras_restantes state)) - 1
        /\ len (seq_of h' (GameState.pedras s'))
           = len (seq_of h (GameState.pedras state))
        /\ GameState.utility s'
           = if len (seq_of h' (GameState.pedras_restantes s')) =? 2 then -1 else 0).
Proof.
  intros Hv Hpl He Hin.
  set (mine := GameState.to_move state =? player) in *.
  assert (Hin' : In move.1 (if mine then seq_of h (GameState.pedras state)
                            else seq_of h (GameState.pedras_restantes state)))
    by (destruct mine; exact Hin).
  destruct (remove_first_in h _ _ Hin') as [r Hr].
  destruct (result_placement state move player h r Hv Hpl He Hr)
    as (a & b & _ & Hres). cbv zeta in Hres. fold mine in Hres.
  pose proof (remove_first_length _ _ _ _ Hr) as Hlen.
  set (hb := mkHeap _ _) in Hres.
  assert (H1 : seq_of hb (length (lists h))
               = if mine then r else seq_of h (GameState.pedras state))
    by apply seq_of_middle.
  assert (H2 : seq_of hb (S (length (lists h)))
               = if mine then seq_of h (GameState.pedras_restantes state) else r)
    by apply seq_of_second.
  assert (Hs : forall l, seq_of (with_sentinel hb) l = seq_of hb l) by reflexivity.
  destruct (placements hb a b _);
    (eexists _, _; split; [exact Hres|]; cbn [GameState.pedras
       GameState.pedras_restantes GameState.utility];
     rewrite ?Hs, H1, H2; split; intros Hm).
  all: try (apply Z.eqb_eq in Hm; fold mine in Hm; rewrite Hm in *).
  all: try (apply Z.eqb_neq in Hm; fold mine in Hm; rewrite Hm in *).
  all: repeat split; try lia.
  all: try (destruct (Z.eqb_spec (len (seq_of h (GameState.pedras state))) 1);
            destruct (Z.eqb_spec (len r) 0); try reflexivity; lia).
  all: destruct (Z.eqb_spec (len (seq_of h (GameState.pedras_restantes state))) 3);
       destruct (Z.eqb_spec (len r) 2); try reflexivity; lia.
Qed.

(** ** The transition on a pass *)

Lemma compute_utility_pass_set (to_move : Z) (pedras pedras_restantes e1 e2 : loc)
    (move : Move) (player : Z) (h : Heap) :
  ~ is_placement h move ->
  let hand0 := seq_of h pedras in
  let rest0 := seq_of h pedras_restantes in
  Domino.compute_utility to_move pedras pedras_restantes (Some e1) (Some e2)
    move player h
  = if can_play h e1 e2 rest0 || can_play h e1 e2 hand0 then Ok (0, h)
    else Ok (if to_move =? player then 4 else -1,
             mkHeap (objs h)
               (<[pedras_restantes := Domino.sort_by (pip_sum h) rest0]> (lists h))).
Proof.
  intros Hp hand0 rest0.
  assert (E : ((Pedra.valor (obj h move.1)).1 =? -1) = true).
  { apply Z.eqb_eq. unfold is_placement in Hp. lia. }
  unfold Domino.compute_utility, bindM, get_obj, get_list, reading, liftR.
  rewrite E. cbn [andb Domino.is_not_None].
  rewrite some_igual_set. fold hand0 rest0.
  fold (can_play h e1 e2 rest0).
  destruct (can_play h e1 e2 rest0); [reflexivity|].
  rewrite some_igual_set. fold hand0 (can_play h e1 e2 hand0).
  destruct (can_play h e1 e2 hand0); [reflexivity|]. cbn [orb].
  unfold set_list, ret. cbn [objs lists].
  destruct (_ <? _); destruct (to_move =? player); reflexivity.
Qed.

Lemma can_play_app (h : Heap) (e1 e2 : loc) (xs ys : list loc) :
  can_play h e1 e2 (xs ++ ys) = can_play h e1 e2 xs || can_play h e1 e2 ys.
Proof. unfold can_play. apply existsb_app. Qed.

(** A pass on a board with both ends set. *)
Lemma result_pass_set (state : GameState.t) (move : Move) (player : Z)
    (h : Heap) (e1 e2 : loc) :
  valid_lists h state ->
  ~ is_placement h move ->
  GameState.ponta1 state = Some e1 ->
  GameState.ponta2 state = Some e2 ->
  exists (s' : GameState.t) (h' : Heap),
    Domino.result state move player h = Ok (s', h')
    /\ GameState.to_move s' = (GameState.to_move state + 1) mod 4
    /\ GameState.ponta1 s' = Some e1
    /\ GameState.ponta2 s' = Some e2
    /\ seq_of h' (GameState.pedras s') = seq_of h (GameState.pedras state)
    /\ seq_of h' (GameState.pedras_restantes s')
       = seq_of h (GameState.pedras_restantes state)
    /\ (forall l, (l < length (objs h))%nat -> obj h' l = obj h l)
    /\ (GameState.utility s'
       = if can_play h e1 e2 (seq_of h (GameState.pedras_restantes state)
                              ++ seq_of h (GameState.pedras state))
         then 0
         else if GameState.to_move state =? player then 4 else -1)
    /\ valid_lists h' s'.
Proof.
  intros [Hv1 Hv2] Hp H1 H2.
  destruct h as [os ls]. simpl in Hv1, Hv2.
  set (hand0 := seq_of (mkHeap os ls) (GameState.pedras state)).
  set (rest0 := seq_of (mkHeap os ls) (GameState.pedras_restantes state)).
  unfold Domino.result.
  unfold bindM at 1. unfold get_list at 1.
  unfold bindM at 1. unfold new_list at 1.
  unfold bindM at 1. unfold get_list at 1.
  unfold bindM at 1. unfold new_list at 1.
  cbn [objs lists].
  rewrite (seq_of_app_l os ls [seq_of (mkHeap os ls) (GameState.pedras state)]) by assumption.
  fold hand0 rest0. rewrite <- app_assoc. cbn [app].
  rewrite H1, H2.
  unfold bindM at 1.
  rewrite compute_utility_pass_set by exact Hp.
  rewrite !seq_of_app_l by assumption. fold hand0 rest0.
  rewrite can_play_app.
  change (can_play (mkHeap os (ls ++ [hand0; rest0])) e1 e2)
    with (can_play (mkHeap os ls) e1 e2).
  assert (E : ((Pedra.valor (obj (mkHeap os ls) move.1)).1 =? -1) = true).
  { apply Z.eqb_eq. unfold is_placement in Hp. lia. }
  assert (Hmoves : forall (ls' : list (list loc)) (u : Z),
            length ls' = length ls ->
            exists s' h',
              (do m0 <- get_obj move.1;
               do ' (ponta1, ponta2) <-
                 (if negb ((Pedra.valor m0).1 =? -1)
                  then do pontas <- Domino.place state move;
                       exec (if GameState.to_move state =? player
                             then Domino.list_remove (length ls) move.1
                             else Domino.list_remove (length (ls ++ [hand0])) move.1);
                       ret pontas
                  else ret (Some e1, Some e2));
               do moves <- Domino.moves ((GameState.to_move state + 1) mod 4)
                             (length ls) (length (ls ++ [hand0])) ponta1 ponta2 player;
               ret (GameState.make ((GameState.to_move state + 1) mod 4) (length ls)
                      (length (ls ++ [hand0])) ponta1 ponta2 moves u))
                (mkHeap os (ls' ++ [hand0; rest0])) = Ok (s', h')
              /\ GameState.to_move s' = (GameState.to_move state + 1) mod 4
              /\ GameState.ponta1 s' = Some e1
              /\ GameState.ponta2 s' = Some e2
              /\ seq_of h' (GameState.pedras s') = hand0
              /\ seq_of h' (GameState.pedras_restantes s') = rest0
              /\ (forall l, (l < length os)%nat -> obj h' l = obj (mkHeap os ls) l)
              /\ GameState.utility s' = u
              /\ valid_lists h' s').
  { intros ls' u Hlen.
    unfold bindM at 1. unfold get_obj at 1.
    change (obj (mkHeap os (ls' ++ [hand0; rest0])) move.1)
      with (obj (mkHeap os ls) move.1).
    rewrite E. cbn [negb]. unfold bindM at 1. unfold ret at 1.
    unfold bindM at 1. rewrite moves_set. rewrite length_app. cbn [length].
    rewrite Nat.add_1_r. rewrite <- Hlen.
    destruct (placements _ e1 e2 _);
      (eexists _, _; split; [reflexivity|];
       cbn [GameState.to_move GameState.ponta1 GameState.ponta2 GameState.pedras
              GameState.pedras_restantes GameState.utility];
       split; [reflexivity|]; split; [reflexivity|]; split; [reflexivity|];
       split; [apply seq_of_middle|]; split; [apply seq_of_second|];
       split; [|split; [reflexivity|]]).
    - intros x Hx. unfold obj, with_sentinel. cbn [objs].
      now rewrite lookup_app_l.
    - unfold valid_lists. cbn [lists with_sentinel GameState.pedras
        GameState.pedras_restantes]. rewrite length_app. cbn [length]. lia.
    - intros x Hx. reflexivity.
    - unfold valid_lists. cbn [lists GameState.pedras GameState.pedras_restantes].
      rewrite length_app. cbn [length]. lia. }
  destruct (can_play (mkHeap os ls) e1 e2 rest0 || can_play (mkHeap os ls) e1 e2 hand0).
  - apply Hmoves. reflexivity.
  - cbn [objs lists]. rewrite insert_app_l by assumption.
    apply Hmoves. apply length_insert.
Qed.


(** A pass on an empty board. *)
Lemma result_pass_unset (state : GameState.t) (move : Move) (player : Z) (h : Heap) :
  valid_lists h state ->
  ~ is_placement h move ->
  GameState.ponta1 state = None ->
  let L := length (lists h) in
  let hb := mkHeap (objs h)
              (lists h ++ [seq_of h (GameState.pedras state);
                           seq_of h (GameState.pedras_restantes state)]) in
  let to_move := (GameState.to_move state + 1) mod 4 in
  Domino.result state move player h
  = Ok (GameState.make to_move L (S L) None (GameState.ponta2 state)
          (free_placements (seq_of hb (if to_move =? player then L else S L))
           ++ [(length (objs h), -1)]) (-1),
        with_sentinel hb).
Proof.
  intros [Hv1 Hv2] Hp H1 L hb to_move.
  destruct h as [os ls]. simpl in Hv1, Hv2.
  assert (E : ((Pedra.valor (obj (mkHeap os ls) move.1)).1 =? -1) = true).
  { apply Z.eqb_eq. unfold is_placement in Hp. lia. }
  unfold Domino.result.
  unfold bindM at 1. unfold get_list at 1.
  unfold bindM at 1. unfold new_list at 1.
  unfold bindM at 1. unfold get_list at 1.
  unfold bindM at 1. unfold new_list at 1.
  cbn [objs lists].
  rewrite (seq_of_app_l os ls [seq_of (mkHeap os ls) (GameState.pedras state)]) by assumption.
  rewrite <- app_assoc. cbn [app]. rewrite H1.
  unfold bindM at 1. unfold Domino.compute_utility.
  unfold bindM at 1. unfold get_obj at 1.
  change (obj (mkHeap os (ls ++ _)) move.1) with (obj (mkHeap os ls) move.1).
  rewrite E. cbn [andb negb Domino.is_not_None]. unfold ret at 1.
  unfold bindM at 1. unfold get_obj at 1.
  change (obj (mkHeap os (ls ++ _)) move.1) with (obj (mkHeap os ls) move.1).
  rewrite E. cbn [negb]. unfold bindM at 1. unfold ret at 1.
  unfold bindM at 1. rewrite moves_unset.
  rewrite length_app. cbn [length]. rewrite Nat.add_1_r. reflexivity.
Qed.

(** What every transition that returns keeps and counts. *)
Lemma result_step (state : GameState.t) (move : Move) (player : Z) (h : Heap)
    (s' : GameState.t) (h' : Heap) :
  valid_lists h state ->
  ends_together (GameState.ponta1 state) (GameState.ponta2 state) ->
  Domino.result state move player h = Ok (s', h') ->
  valid_lists h' s'
  /\ ends_together (GameState.ponta1 s') (GameState.ponta2 s')
  /\ (is_placement h move ->
      (GameState.to_move state = player ->
       len (seq_of h' (GameState.pedras s'))
       = len (seq_of h (GameState.pedras state)) - 1
       /\ len (seq_of h' (GameState.pedras_restantes s'))
          = len (seq_of h (GameState.pedras_restantes state)))
      /\ (GameState.to_move state <> player ->
          len (seq_of h' (GameState.pedras_restantes s'))
          = len (seq_of h (GameState.pedras_restantes state)) - 1
          /\ len (seq_of h' (GameState.pedras s'))
             = len (seq_of h (GameState.pedras state))))
  /\ (~ is_placement h move ->
      seq_of h' (GameState.pedras s') = seq_of h (GameState.pedras state)
      /\ seq_of h' (GameState.pedras_restantes s')
         = seq_of h (GameState.pedras_restantes state)).
Proof.
  intros Hv He Hres.
  destruct (Z.eq_dec (Pedra.valor (obj h move.1)).1 (-1)) as [Hpass|Hpl].
  - assert (Hp : ~ is_placement h move) by (unfold is_placement; lia).
    destruct (GameState.ponta1 state) as [e1|] eqn:H1.
    + destruct (GameState.ponta2 state) as [e2|] eqn:H2;
        [|exfalso; now apply He].
      destruct (result_pass_set state move player h e1 e2 Hv Hp H1 H2)
        as (s2 & h2 & Hr & _ & Ha & Hb & Hh & Hq & _ & _ & Hvl).
      rewrite Hr in Hres. injection Hres as <- <-.
      split; [exact Hvl|]. split; [rewrite Ha, Hb; intros _; discriminate|].
      split; [intros Habs; contradiction|]. intros _. split; assumption.
    + rewrite (result_pass_unset state move player h Hv Hp H1) in Hres.
      injection Hres as <- <-.
      cbn [GameState.pedras GameState.pedras_restantes GameState.ponta1
             GameState.ponta2].
      split.
      { unfold valid_lists. cbn [lists with_sentinel GameState.pedras
          GameState.pedras_restantes]. rewrite length_app. cbn [length]. lia. }
      split; [intros Habs; now contradiction Habs|].
      split; [intros Habs; contradiction|]. intros _.
      destruct h as [os ls].
      split; [apply seq_of_middle | apply seq_of_second].
  - assert (Hp : is_placement h move) by exact Hpl.
    rewrite (result_placement_run state move player h Hv Hp He) in Hres.
    cbv zeta in Hres.
    set (mine := GameState.to_move state =? player) in *.
    destruct (Domino.remove_first h move.1 _) as [r|e] eqn:Hr; [|discriminate].
    pose proof (remove_first_length _ _ _ _ Hr) as Hlen.
    destruct (placed_ends_set _ _ move He) as (a & b & Hends).
    rewrite Hends in Hres. cbn [fst snd] in Hres. unfold bindM in Hres.
    rewrite moves_set in Hres.
    set (hb := mkHeap _ _) in Hres.
    assert (H1 : seq_of hb (length (lists h))
                 = if mine then r else seq_of h (GameState.pedras state))
      by apply seq_of_middle.
    assert (H2 : seq_of hb (S (length (lists h)))
                 = if mine then seq_of h (GameState.pedras_restantes state) else r)
      by apply seq_of_second.
    assert (Hs : forall l, seq_of (with_sentinel hb) l = seq_of hb l) by reflexivity.
    assert (Hvb : (S (length (lists h)) < length (lists hb))%nat).
    { unfold hb. cbn [lists]. rewrite length_app. cbn [length]. lia. }
    destruct (placements hb a b _); injection Hres as <- <-;
      cbn [GameState.pedras GameState.pedras_restantes GameState.ponta1
             GameState.ponta2];
      rewrite ?Hs, H1, H2;
      (split; [unfold valid_lists; cbn [lists with_sentinel GameState.pedras
                 GameState.pedras_restantes]; lia|];
       split; [intros _; discriminate|];
       split; [|intros Habs; contradiction]; intros _; split; intros Hm).
    all: try (apply Z.eqb_eq in Hm; fold mine in Hm; rewrite Hm in *).
    all: try (apply Z.eqb_neq in Hm; fold mine in Hm; rewrite Hm in *).
    all: split; lia.
Qed.

(** C2, as the code has it.  A pass on a board with both ends set returns a
    successor with the same ends, the same hand and pool sequences and the
    turn advanced by one seat modulo 4, and writes no tile.  Its utility
    marker is 0 whenever some tile of the pool or of the hand still matches
    an end; only when none does (a blocked board) is it non-zero, -1 or 4. *)
Theorem pass_transition (state : GameState.t) (move : Move) (player : Z)
    (h : Heap) (e1 e2 : loc) :
  valid_lists h state ->
  ~ is_placement h move ->
  GameState.ponta1 state = Some e1 ->
  GameState.ponta2 state = Some e2 ->
  exists (s' : GameState.t) (h' : Heap),
    Domino.result state move player h = Ok (s', h')
    /\ GameState.to_move s' = (GameState.to_move state + 1) mod 4
    /\ GameState.ponta1 s' = Some e1
    /\ GameState.ponta2 s' = Some e2
    /\ seq_of h' (GameState.pedras s') = seq_of h (GameState.pedras state)
    /\ seq_of h' (GameState.pedras_restantes s')
       = seq_of h (GameState.pedras_restantes state)
    /\ (forall l, (l < length (objs h))%nat -> obj h' l = obj h l)
    /\ (can_play h e1 e2 (seq_of h (GameState.pedras_restantes state)
                           ++ seq_of h (GameState.pedras state)) = true ->
        GameState.utility s' = 0)
    /\ (can_play h e1 e2 (seq_of h (GameState.pedras_restantes state)
                           ++ seq_of h (GameState.pedras state)) = false ->
        GameState.utility s' = -1 \/ GameState.utility s' = 4).
Proof.
  intros Hv Hp H1 H2.
  destruct (result_pass_set state move player h e1 e2 Hv Hp H1 H2)
    as (s' & h' & Hr & Ht & Ha & Hb & Hh & Hq & Ho & Hu & _).
  exists s', h'.
  refine (conj Hr (conj Ht (conj Ha (conj Hb (conj Hh (conj Hq (conj Ho _))))))).
  rewrite Hu. split; intros ->; [reflexivity|].
  destruct (_ =? _); [right | left]; reflexivity.
Qed.

(** ** The deal *)

Lemma seq_of_insert_eq (os : list Pedra.t) (ls : list (list loc)) (l : loc)
    (x : list loc) :
  (l < length ls)%nat -> seq_of (mkHeap os (<[l := x]> ls)) l = x.
Proof. intros Hl. unfold seq_of. simpl. now rewrite list_lookup_insert_eq. Qed.

Lemma seq_of_insert_ne (os : list Pedra.t) (ls : list (list loc)) (l l' : loc)
    (x : list loc) :
  l <> l' -> seq_of (mkHeap os (<[l := x]> ls)) l' = seq_of (mkHeap os ls) l'.
Proof. intros Hl. unfold seq_of. simpl. now rewrite list_lookup_insert_ne. Qed.

Lemma randint_range (n r : Z) : 0 <= n -> 0 <= Domino.randint 0 n r <= n.
Proof.
  intros Hn. unfold Domino.randint.
  pose proof (Z.mod_pos_bound r (n - 0 + 1)). lia.
Qed.

Lemma py_pop_ok (xs : list loc) (i : Z) :
  -1 <= i < len xs -> 1 <= len xs ->
  exists x xs', Domino.py_pop xs i = Ok (x, xs') /\ len xs' = len xs - 1.
Proof.
  intros Hi Hn. unfold Domino.py_pop.
  set (i' := if i <? 0 then i + len xs else i).
  assert (Hi' : 0 <= i' < len xs).
  { unfold i'. destruct (Z.ltb_spec i 0); lia. }
  replace ((i' <? 0) || (len xs <=? i')) with false.
  2:{ symmetry. apply orb_false_iff. split; [apply Z.ltb_ge | apply Z.leb_gt]; lia. }
  assert (Hlt : (Z.to_nat i' < length xs)%nat) by (unfold len in Hi'; lia).
  destruct (lookup_lt_is_Some_2 xs _ Hlt) as [x E]. rewrite E.
  exists x, (delete (Z.to_nat i') xs). split; [reflexivity|].
  unfold len. rewrite length_delete by (rewrite E; eauto). unfold len in Hn. lia.
Qed.

Section DealHand.

Variable rnd : nat -> Z.
Variables pref jref : loc.
Hypothesis Hne : pref <> jref.

Lemma deal_one_run (n : Z) (k : nat) (i : Z) (h : Heap) :
  (pref < length (lists h))%nat -> (jref < length (lists h))%nat ->
  len (seq_of h pref) = n -> 1 <= n ->
  exists h',
    Domino.deal_one rnd pref jref (n, k) i h = Ok ((n - 1, S k), h')
    /\ len (seq_of h' pref) = n - 1
    /\ len (seq_of h' jref) = len (seq_of h jref) + 1
    /\ (forall l, l <> pref -> l <> jref -> seq_of h' l = seq_of h l)
    /\ length (lists h') = length (lists h)
    /\ objs h' = objs h.
Proof.
  intros Hp Hj Hlen Hn. destruct h as [os ls]. cbn [lists objs] in *.
  unfold Domino.deal_one, Domino.list_pop, Domino.list_append, bindM, get_list, liftR,
    set_list, ret.
  pose proof (randint_range n (rnd k) ltac:(lia)) as Hr.
  destruct (py_pop_ok (seq_of (mkHeap os ls) pref)
              (Domino.randint 0 n (rnd k) - 1) ltac:(lia) ltac:(lia))
    as (x & xs' & Hpop & Hlen').
  rewrite Hpop. cbn [fst snd objs lists].
  eexists. split; [reflexivity|].
  split; [|split; [|split; [|split]]].
  - rewrite seq_of_insert_ne by congruence.
    rewrite seq_of_insert_eq by assumption. lia.
  - rewrite seq_of_insert_eq by (rewrite length_insert; assumption).
    rewrite seq_of_insert_ne by assumption.
    rewrite len_app. unfold len at 2. simpl. lia.
  - intros l Hl1 Hl2. rewrite !seq_of_insert_ne by congruence. reflexivity.
  - cbn [lists]. now rewrite !length_insert.
  - reflexivity.
Qed.

Lemma deal_hand_run (ixs : list Z) :
  forall (n : Z) (k : nat) (h : Heap),
    (pref < length (lists h))%nat -> (jref < length (lists h))%nat ->
    len (seq_of h pref) = n -> len ixs <= n ->
    exists h',
      foldM (Domino.deal_one rnd pref jref) ixs (n, k) h = Ok ((n - len ixs, (k + length ixs)%nat), h')
      /\ len (seq_of h' pref) = n - len ixs
      /\ len (seq_of h' jref) = len (seq_of h jref) + len ixs
      /\ (forall l, l <> pref -> l <> jref -> seq_of h' l = seq_of h l)
      /\ length (lists h') = length (lists h)
      /\ objs h' = objs h.
Proof.
  induction ixs as [|i ixs IH]; intros n k h Hp Hj Hlen Hn.
  - exists h. cbn [foldM]. unfold ret, len. cbn [length].
    rewrite Z.sub_0_r, Nat.add_0_r, Z.add_0_r. repeat split; auto.
  - assert (Hcons : len (i :: ixs) = len ixs + 1) by (unfold len; cbn [length]; lia).
    pose proof (len_nonneg ixs) as Hnn.
    destruct (deal_one_run n k i h Hp Hj Hlen ltac:(lia))
      as (h1 & Hrun & Hp1 & Hj1 & Hoth1 & Hl1 & Ho1).
    destruct (IH (n - 1) (S k) h1 ltac:(lia) ltac:(lia) Hp1 ltac:(lia))
      as (h2 & Hrun2 & Hp2 & Hj2 & Hoth2 & Hl2 & Ho2).
    exists h2. cbn [foldM]. unfold bindM at 1. rewrite Hrun, Hrun2.
    rewrite Hcons. cbn [length].
    split; [f_equal; f_equal; f_equal; lia|].
    split; [lia|]. split; [lia|].
    split; [intros l Ha Hb; rewrite Hoth2, Hoth1 by assumption; reflexivity|].
    split; congruence.
Qed.

End DealHand.

Lemma cria_row_run (i : Z) (js : list Z) :
  forall (ps : list loc) (h : Heap),
    exists ps' h',
      foldM (fun pedras j =>
               if j <=? i then
                 do p <- new_obj (Pedra.make (i, j) (-1));
                 ret (pedras ++ [p])
               else ret pedras) js ps h = Ok (ps', h')
      /\ length ps' = (length ps + length (List.filter (fun j => Z.leb j i) js))%nat
      /\ lists h' = lists h.
Proof.
  induction js as [|j js IH]; intros ps h; cbn [foldM List.filter].
  - exists ps, h. unfold ret. repeat split. cbn [length]. lia.
  - destruct (j <=? i).
    + destruct (IH (ps ++ [length (objs h)])
                  (mkHeap (objs h ++ [Pedra.make (i, j) (-1)]) (lists h)))
        as (ps' & h' & E & Hl & Hh).
      exists ps', h'. split; [exact E|]. split; [|exact Hh].
      rewrite Hl, length_app. cbn [length]. lia.
    + destruct (IH ps h) as (ps' & h' & E & Hl & Hh).
      exists ps', h'. split; [exact E|]. split; assumption.
Qed.

Lemma cria_rows_run (js : list Z) (ixs : list Z) :
  forall (ps : list loc) (h : Heap),
    exists ps' h',
      foldM (fun pedras i =>
               foldM (fun pedras j =>
                        if j <=? i then
                          do p <- new_obj (Pedra.make (i, j) (-1));
                          ret (pedras ++ [p])
                        else ret pedras) js pedras) ixs ps h = Ok (ps', h')
      /\ length ps'
         = (length ps
            + fold_right (fun i n => length (List.filter (fun j => Z.leb j i) js) + n) 0 ixs)%nat
      /\ lists h' = lists h.
Proof.
  induction ixs as [|i ixs IH]; intros ps h; cbn [foldM fold_right].
  - exists ps, h. unfold ret. repeat split. lia.
  - destruct (cria_row_run i js ps h) as (ps1 & h1 & E1 & Hl1 & Hh1).
    destruct (IH ps1 h1) as (ps2 & h2 & E2 & Hl2 & Hh2).
    exists ps2, h2. split; [|split; [lia | congruence]].
    unfold bindM at 1. rewrite E1. exact E2.
Qed.

(** [cria_domino] makes the 28 tiles. *)
Lemma cria_domino_run (h : Heap) :
  exists ps h',
    Domino.cria_domino h = Ok (ps, h')
    /\ length ps = 28%nat
    /\ lists h' = lists h.
Proof.
  destruct (cria_rows_run (Domino.range 7) (Domino.range 7) [] h)
    as (ps & h' & Hrun & Hl & Hh).
  exists ps, h'. split; [exact Hrun|]. split; [exact Hl | exact Hh].
Qed.

Lemma new_hands_run (os : list Pedra.t) (ls : list (list loc)) :
  foldM (fun js (_ : Z) => do l <- new_list []; ret (js ++ [l])) (Domino.range 4) []
    (mkHeap os ls)
  = Ok ([length ls; S (length ls); S (S (length ls)); S (S (S (length ls)))],
        mkHeap os (ls ++ [[]; []; []; []])).
Proof.
  unfold Domino.range. cbn [seq map foldM].
  unfold bindM, new_list, ret. cbn [objs lists app].
  rewrite !length_app. cbn [length]. rewrite <- !app_assoc. cbn [app].
  repeat f_equal; lia.
Qed.

Lemma range_len (n : nat) : len (Domino.range n) = Z.of_nat n.
Proof. unfold len, Domino.range. now rewrite length_map, length_seq. Qed.

(** Four hands of seven tiles each, whatever the draws. *)
Lemma deal_all_run (rnd : nat -> Z) (pref j0 j1 j2 j3 : loc) (h : Heap) :
  NoDup [pref; j0; j1; j2; j3] ->
  Forall (fun l => (l < length (lists h))%nat) [pref; j0; j1; j2; j3] ->
  len (seq_of h pref) = 28 ->
  Forall (fun l => seq_of h l = []) [j0; j1; j2; j3] ->
  exists acc h',
    foldM (fun acc j =>
             foldM (Domino.deal_one rnd pref (nth (Z.to_nat j) [j0; j1; j2; j3] O))
               (Domino.range 7) acc)
      (Domino.range 4) (28, O) h = Ok (acc, h')
    /\ Forall (fun l => len (seq_of h' l) = 7) [j0; j1; j2; j3]
    /\ length (lists h') = length (lists h)
    /\ objs h' = objs h.
Proof.
  intros Hnd Hv Hlen Hempty.
  assert (E0 : len (seq_of h j0) = 0 /\ len (seq_of h j1) = 0
               /\ len (seq_of h j2) = 0 /\ len (seq_of h j3) = 0).
  { apply Forall_cons in Hempty as [-> Hempty].
    apply Forall_cons in Hempty as [-> Hempty].
    apply Forall_cons in Hempty as [-> Hempty].
    apply Forall_cons in Hempty as [-> Hempty]. repeat split. }
  destruct E0 as (E0 & E1 & E2 & E3). clear Hempty.
  repeat match goal with
         | H : NoDup (_ :: _) |- _ => apply NoDup_cons in H; destruct H
         | H : Forall _ (_ :: _) |- _ => apply Forall_cons in H; destruct H
         end.
  repeat match goal with
         | H : _ ∉ _ :: _ |- _ => apply not_elem_of_cons in H; destruct H
         end.
  pose proof (range_len 7) as Hrange7.
  change (Domino.range 4) with [0; 1; 2; 3]. cbn [foldM].
  change (nth (Z.to_nat 0) [j0; j1; j2; j3] O) with j0.
  change (nth (Z.to_nat 1) [j0; j1; j2; j3] O) with j1.
  change (nth (Z.to_nat 2) [j0; j1; j2; j3] O) with j2.
  change (nth (Z.to_nat 3) [j0; j1; j2; j3] O) with j3.
  destruct (deal_hand_run rnd pref j0 ltac:(assumption) (Domino.range 7) 28 O h)
    as (h1 & R1 & P1 & J1 & O1 & L1 & B1); try assumption; try lia.
  destruct (deal_hand_run rnd pref j1 ltac:(assumption) (Domino.range 7)
              (28 - len (Domino.range 7)) (0 + length (Domino.range 7)) h1)
    as (h2 & R2 & P2 & J2 & O2 & L2 & B2); try lia.
  destruct (deal_hand_run rnd pref j2 ltac:(assumption) (Domino.range 7)
              (28 - len (Domino.range 7) - len (Domino.range 7))
              (0 + length (Domino.range 7) + length (Domino.range 7)) h2)
    as (h3 & R3 & P3 & J3 & O3 & L3 & B3); try lia.
  destruct (deal_hand_run rnd pref j3 ltac:(assumption) (Domino.range 7)
              (28 - len (Domino.range 7) - len (Domino.range 7) - len (Domino.range 7))
              (0 + length (Domino.range 7) + length (Domino.range 7)
               + length (Domino.range 7)) h3)
    as (h4 & R4 & P4 & J4 & O4 & L4 & B4); try lia.
  eexists _, h4. unfold bindM. rewrite R1, R2, R3, R4.
  split; [reflexivity|].
  split; [|split; congruence].
  repeat constructor.
  - rewrite O4, O3, O2 by congruence. lia.
  - rewrite O4, O3 by congruence. rewrite J2, O1 by congruence. lia.
  - rewrite O4 by congruence. rewrite J3, O2, O1 by congruence. lia.
  - rewrite J4, O3, O2, O1 by congruence. lia.
Qed.

Lemma escolhe_pedras_run (rnd : nat -> Z) (sp : loc) (h : Heap) :
  (sp < length (lists h))%nat ->
  len (seq_of h sp) = 28 ->
  exists j0 j1 j2 j3 h',
    Domino.escolhe_pedras rnd sp h = Ok ([j0; j1; j2; j3], h')
    /\ Forall (fun l => len (seq_of h' l) = 7) [j0; j1; j2; j3]
    /\ Forall (fun l => (l < length (lists h'))%nat) [j0; j1; j2; j3].
Proof.
  intros Hsp Hlen. destruct h as [os ls]. cbn [lists] in Hsp.
  unfold Domino.escolhe_pedras.
  unfold bindM at 1. unfold get_list at 1.
  unfold bindM at 1. unfold new_list at 1. cbn [objs lists].
  unfold bindM at 1. rewrite new_hands_run.
  rewrite <- app_assoc. cbn [app]. rewrite length_app. cbn [length].
  rewrite Nat.add_1_r. rewrite Hlen.
  set (L := length ls).
  set (h1 := mkHeap os (ls ++ [seq_of (mkHeap os ls) sp; []; []; []; []])).
  assert (Hl1 : length (lists h1) = (L + 5)%nat).
  { unfold h1. cbn [lists]. rewrite length_app. reflexivity. }
  assert (Hget : forall k x, [seq_of (mkHeap os ls) sp; []; []; []; []] !! k = Some x ->
                             seq_of h1 (L + k) = x).
  { intros k x Hk. unfold seq_of, h1. cbn [lists].
    rewrite lookup_app_r by (unfold L; lia).
    replace (L + k - length ls)%nat with k by (unfold L; lia). now rewrite Hk. }
  destruct (deal_all_run rnd L (S L) (S (S L)) (S (S (S L))) (S (S (S (S L)))) h1)
    as (acc & h2 & Hrun & H7 & Hl2 & _).
  - repeat constructor; rewrite ?elem_of_cons, ?elem_of_nil; lia.
  - rewrite Hl1. repeat constructor; lia.
  - replace L with (L + 0)%nat by lia. rewrite (Hget 0%nat _ eq_refl). exact Hlen.
  - repeat constructor.
    + replace (S L) with (L + 1)%nat by lia. apply (Hget 1%nat _ eq_refl).
    + replace (S (S L)) with (L + 2)%nat by lia. apply (Hget 2%nat _ eq_refl).
    + replace (S (S (S L))) with (L + 3)%nat by lia. apply (Hget 3%nat _ eq_refl).
    + replace (S (S (S (S L)))) with (L + 4)%nat by lia. apply (Hget 4%nat _ eq_refl).
  - exists (S L), (S (S L)), (S (S (S L))), (S (S (S (S L)))), h2.
    unfold bindM. rewrite Hrun. split; [reflexivity|]. split; [exact H7|].
    rewrite Hl2, Hl1. repeat constructor; lia.
Qed.

(** One turn of the loop of [__init__] that gathers the pool. *)
Lemma extend_run (r j : loc) (h : Heap) :
  (r < length (lists h))%nat -> j <> r ->
  exists h',
    (do xs <- get_list r; do js <- get_list j; set_list r (xs ++ js)) h = Ok (tt, h')
    /\ seq_of h' r = seq_of h r ++ seq_of h j
    /\ (forall l, l <> r -> seq_of h' l = seq_of h l)
    /\ length (lists h') = length (lists h)
    /\ objs h' = objs h.
Proof.
  intros Hr Hj. destruct h as [os ls]. cbn [lists] in Hr.
  eexists. split; [reflexivity|]. cbn [objs lists].
  split; [now apply seq_of_insert_eq|].
  split; [intros l Hl; apply seq_of_insert_ne; congruence|].
  split; [apply length_insert | reflexivity].
Qed.

(** Every deal succeeds and gives the mover 7 tiles and the pool 21, on an
    empty board. *)
Lemma init_deal (rnd : nat -> Z) (h0 : Heap) :
  exists d h,
    Domino.__init__ rnd h0 = Ok (d, h)
    /\ valid_lists h (Domino.initial d)
    /\ len (seq_of h (GameState.pedras (Domino.initial d))) = 7
    /\ len (seq_of h (GameState.pedras_restantes (Domino.initial d))) = 21
    /\ GameState.ponta1 (Domino.initial d) = None
    /\ GameState.to_move (Domino.initial d) = 0
    /\ GameState.utility (Domino.initial d) = 0.
Proof.
  destruct (cria_domino_run h0) as (ps & h1 & Hc & Hps & _).
  destruct h1 as [os1 ls1].
  destruct (escolhe_pedras_run rnd (length ls1) (mkHeap os1 (ls1 ++ [ps])))
    as (j0 & j1 & j2 & j3 & h3 & He & H7 & Hv).
  { cbn [lists]. rewrite length_app. cbn [length]. lia. }
  { rewrite seq_of_middle. unfold len. rewrite Hps. reflexivity. }
  destruct h3 as [os3 ls3]. cbn [lists] in Hv.
  apply Forall_cons in H7 as [A0 H7]. apply Forall_cons in H7 as [A1 H7].
  apply Forall_cons in H7 as [A2 H7]. apply Forall_cons in H7 as [A3 _].
  apply Forall_cons in Hv as [V0 Hv]. apply Forall_cons in Hv as [V1 Hv].
  apply Forall_cons in Hv as [V2 Hv]. apply Forall_cons in Hv as [V3 _].
  set (R := length ls3) in *.
  set (h4 := mkHeap os3 (ls3 ++ [[]])).
  assert (L4 : length (lists h4) = S R).
  { unfold h4. cbn [lists]. rewrite length_app. cbn [length]. unfold R. lia. }
  assert (S4 : forall l, (l < R)%nat -> seq_of h4 l = seq_of (mkHeap os3 ls3) l).
  { intros l Hl. now apply seq_of_app_l. }
  assert (R4 : seq_of h4 R = []) by apply seq_of_middle.
  destruct (extend_run R j1 h4 ltac:(lia) ltac:(lia)) as (h5 & E5 & R5 & S5 & L5 & _).
  destruct (extend_run R j2 h5 ltac:(lia) ltac:(lia)) as (h6 & E6 & R6 & S6 & L6 & _).
  destruct (extend_run R j3 h6 ltac:(lia) ltac:(lia)) as (h7 & E7 & R7 & S7 & L7 & _).
  set (h8 := mkHeap (objs h7) (lists h7 ++ [seq_of h7 j0])).
  assert (Hrun : Domino.__init__ rnd h0
                 = Ok (Domino.make (length ls1) [j0; j1; j2; j3]
                         (GameState.make 0 (length (lists h7)) R None None
                            (free_placements (seq_of h8 j0) ++ [(length (objs h8), -1)])
                            0),
                       with_sentinel h8)).
  { unfold Domino.__init__.
    unfold bindM at 1. rewrite Hc.
    unfold bindM at 1. unfold new_list at 1. cbn [objs lists].
    unfold bindM at 1. rewrite He.
    unfold bindM at 1. unfold new_list at 1. cbn [objs lists]. fold R h4.
    unfold bindM at 1. cbn [foldM].
    change (nth (Z.to_nat 1) [j0; j1; j2; j3] O) with j1.
    change (nth (Z.to_nat 2) [j0; j1; j2; j3] O) with j2.
    change (nth (Z.to_nat 3) [j0; j1; j2; j3] O) with j3.
    change (nth 0 [j0; j1; j2; j3] O) with j0.
    unfold bindM at 1. rewrite E5.
    unfold bindM at 1. rewrite E6.
    unfold bindM at 1. rewrite E7. unfold ret at 1.
    unfold bindM at 1. unfold get_list at 1.
    unfold bindM at 1. unfold new_list at 1. fold h8.
    unfold bindM at 1. rewrite moves_unset. rewrite Z.eqb_refl. reflexivity. }
  eexists _, _. split; [exact Hrun|].
  cbn [Domino.initial GameState.pedras GameState.pedras_restantes
         GameState.ponta1 GameState.to_move GameState.utility].
  change (seq_of (with_sentinel h8)) with (seq_of h8).
  assert (L8 : length (lists h8) = S (S R)).
  { unfold h8. cbn [lists]. rewrite length_app. cbn [length]. lia. }
  split; [|split; [|split; [|repeat split]]].
  - unfold valid_lists. cbn [lists with_sentinel GameState.pedras
      GameState.pedras_restantes]. lia.
  - unfold h8. destruct h7 as [os7 ls7]. cbn [objs lists].
    rewrite seq_of_middle.
    rewrite S7, S6, S5, S4 by lia. exact A0.
  - unfold h8. destruct h7 as [os7 ls7]. cbn [objs lists] in *.
    rewrite seq_of_app_l by lia.
    rewrite R7, R6, R5, R4. cbn [app].
    rewrite S6, S5, S4 by lia. rewrite S5, S4 by lia. rewrite S4 by lia.
    rewrite !len_app. lia.
Qed.

(** ** What the search does to the store *)

(** [moves] leaves the store as it was, or adds the pass sentinel. *)
Lemma moves_frame (to_move : Z) (pedras pedras_restantes : loc)
    (p1 p2 : option loc) (player : Z) (h : Heap) (ms : list Move) (h' : Heap) :
  Domino.moves to_move pedras pedras_restantes p1 p2 player h = Ok (ms, h') ->
  h' = h \/ h' = with_sentinel h.
Proof.
  unfold Domino.moves, bindM, get_list, reading, liftR.
  destruct (Domino.moves_loop _ _ _ _) as [[ms0 i]|e]; [|discriminate].
  destruct (i =? 0); unfold new_obj, ret, bindM; intros E; injection E as <- <-;
    [now right | now left].
Qed.

Lemma chances_store (s : GameState.t) (h : Heap) (cs : list Chance) (h' : Heap) :
  Domino.chances s h = Ok (cs, h') -> h' = h \/ h' = with_sentinel h.
Proof.
  unfold Domino.chances. destruct (negb (GameState.to_move s =? 0)).
  - unfold bindM, get_list, new_obj, ret. intros E. injection E as _ <-. now right.
  - unfold bindM, get_list, ret. intros E. injection E as _ <-. now left.
Qed.

Lemma eval_store {F : Type} `{Arith F} (s : GameState.t) (player : Z) (h : Heap)
    (v : option F) (h' : Heap) :
  Domino.eval s player h = Ok (v, h') -> h' = h \/ h' = with_sentinel h.
Proof.
  cbv [Domino.eval bindM get_list liftR truediv reading ret]. cbn [Z.eqb].
  destruct (Domino.moves _ _ _ _ _ _ h) as [[ms h1]|e] eqn:Hm; [|discriminate].
  apply moves_frame in Hm.
  destruct (player =? 0); [|destruct (player =? 1); [|destruct (player =? 2)]];
    intros E; injection E as _ <-; exact Hm.
Qed.

Lemma insert_by_length (key : loc -> Z) (x : loc) (l : list loc) :
  length (Domino.insert_by key x l) = S (length l).
Proof.
  induction l as [|y l IH]; cbn [Domino.insert_by]; [reflexivity|].
  destruct (key x <=? key y); cbn [length]; [reflexivity|]. now rewrite IH.
Qed.

Lemma sort_by_length (key : loc -> Z) (l : list loc) :
  length (Domino.sort_by key l) = length l.
Proof.
  unfold Domino.sort_by. induction l as [|x l IH]; cbn [fold_right]; [reflexivity|].
  rewrite insert_by_length. cbn [length]. now rewrite IH.
Qed.

(** A pass on a board with both ends set, as a run: when no tile of the
    pool or of the hand matches an end, the pool of the input state is
    sorted in place before the two new lists are used. *)
Lemma result_pass_set_run (state : GameState.t) (move : Move) (player : Z)
    (h : Heap) (e1 e2 : loc) :
  valid_lists h state ->
  ~ is_placement h move ->
  GameState.ponta1 state = Some e1 ->
  GameState.ponta2 state = Some e2 ->
  let hand0 := seq_of h (GameState.pedras state) in
  let rest0 := seq_of h (GameState.pedras_restantes state) in
  let ls' :=
    if can_play h e1 e2 rest0 || can_play h e1 e2 hand0 then lists h
    else <[GameState.pedras_restantes state := Domino.sort_by (pip_sum h) rest0]>
           (lists h) in
  let hb := mkHeap (objs h) (ls' ++ [hand0; rest0]) in
  exists (s' : GameState.t) (hf : Heap),
    Domino.result state move player h = Ok (s', hf)
    /\ (hf = hb \/ hf = with_sentinel hb).
Proof.
  intros [Hv1 Hv2] Hp H1 H2.
  destruct h as [os ls]. cbn [lists objs] in *. cbv zeta.
  set (hand0 := seq_of (mkHeap os ls) (GameState.pedras state)).
  set (rest0 := seq_of (mkHeap os ls) (GameState.pedras_restantes state)).
  set (ls' := if can_play (mkHeap os ls) e1 e2 rest0 || can_play (mkHeap os ls) e1 e2 hand0
              then ls
              else <[GameState.pedras_restantes state
                     := Domino.sort_by (pip_sum (mkHeap os ls)) rest0]> ls).
  set (hb := mkHeap os (ls' ++ [hand0; rest0])).
  assert (Hlen : length ls' = length ls).
  { unfold ls'. destruct (_ || _); [reflexivity | apply length_insert]. }
  assert (E : ((Pedra.valor (obj (mkHeap os ls) move.1)).1 =? -1) = true).
  { apply Z.eqb_eq. unfold is_placement in Hp. lia. }
  unfold Domino.result.
  unfold bindM at 1. unfold get_list at 1.
  unfold bindM at 1. unfold new_list at 1.
  unfold bindM at 1. unfold get_list at 1.
  unfold bindM at 1. unfold new_list at 1.
  cbn [objs lists].
  rewrite (seq_of_app_l os ls [seq_of (mkHeap os ls) (GameState.pedras state)])
    by assumption.
  fold hand0 rest0. rewrite <- app_assoc. cbn [app].
  rewrite H1, H2.
  unfold bindM at 1.
  rewrite compute_utility_pass_set by exact Hp.
  rewrite !seq_of_app_l by assumption. fold hand0 rest0.
  change (can_play (mkHeap os (ls ++ [hand0; rest0])) e1 e2)
    with (can_play (mkHeap os ls) e1 e2).
  change (pip_sum (mkHeap os (ls ++ [hand0; rest0]))) with (pip_sum (mkHeap os ls)).
  assert (Hrest : forall (u : Z),
            exists s' hf,
              (do m0 <- get_obj move.1;
               do ' (ponta1, ponta2) <-
                 (if negb ((Pedra.valor m0).1 =? -1)
                  then do pontas <- Domino.place state move;
                       exec (if GameState.to_move state =? player
                             then Domino.list_remove (length ls) move.1
                             else Domino.list_remove (length (ls ++ [hand0])) move.1);
                       ret pontas
                  else ret (Some e1, Some e2));
               do moves <- Domino.moves ((GameState.to_move state + 1) mod 4)
                             (length ls) (length (ls ++ [hand0])) ponta1 ponta2 player;
               ret (GameState.make ((GameState.to_move state + 1) mod 4) (length ls)
                      (length (ls ++ [hand0])) ponta1 ponta2 moves u))
                hb = Ok (s', hf)
              /\ (hf = hb \/ hf = with_sentinel hb)).
  { intros u.
    unfold bindM at 1. unfold get_obj at 1.
    change (obj hb move.1) with (obj (mkHeap os ls) move.1).
    rewrite E. cbn [negb]. unfold bindM at 1. unfold ret at 1.
    unfold bindM at 1. rewrite moves_set.
    destruct (placements _ e1 e2 _); eexists _, _; (split; [reflexivity|]);
      [now right | now left]. }
  unfold hb, ls'.
  destruct (can_play (mkHeap os ls) e1 e2 rest0 || can_play (mkHeap os ls) e1 e2 hand0).
  - apply Hrest.
  - cbn [objs lists]. rewrite insert_app_l by assumption. apply Hrest.
Qed.

(** Whatever the move, a transition that returns keeps every list that was
    in the store, up to the order of its tiles, and only adds lists. *)
Lemma result_store (state : GameState.t) (move : Move) (player : Z) (h : Heap)
    (s' : GameState.t) (h' : Heap) :
  valid_lists h state ->
  ends_together (GameState.ponta1 state) (GameState.ponta2 state) ->
  Domino.result state move player h = Ok (s', h') ->
  (length (lists h) <= length (lists h'))%nat
  /\ (forall l, (l < length (lists h))%nat ->
        len (seq_of h' l) = len (seq_of h l)).
Proof.
  intros Hv He Hres.
  assert (Hgrow : forall (os : list Pedra.t) (ls ext : list (list loc)) (hf : Heap),
            length ls = length (lists h) ->
            (forall l, (l < length (lists h))%nat ->
               len (default [] (ls !! l)) = len (seq_of h l)) ->
            hf = mkHeap os (ls ++ ext) \/ hf = with_sentinel (mkHeap os (ls ++ ext)) ->
            (length (lists h) <= length (lists hf))%nat
            /\ (forall l, (l < length (lists h))%nat ->
                  len (seq_of hf l) = len (seq_of h l))).
  { intros os ls ext hf Hlen Hsame Hf.
    assert (Hl : lists hf = ls ++ ext) by (destruct Hf as [-> | ->]; reflexivity).
    split.
    - rewrite Hl, length_app. lia.
    - intros l Hl'. unfold seq_of at 1. rewrite Hl.
      rewrite lookup_app_l by lia. now apply Hsame. }
  destruct (Z.eq_dec (Pedra.valor (obj h move.1)).1 (-1)) as [Hpass|Hplace].
  - assert (Hp : ~ is_placement h move) by (unfold is_placement; lia).
    destruct (GameState.ponta1 state) as [e1|] eqn:H1.
    + destruct (GameState.ponta2 state) as [e2|] eqn:H2;
        [|exfalso; apply He; [discriminate | reflexivity]].
      destruct (result_pass_set_run state move player h e1 e2 Hv Hp H1 H2)
        as (s1 & hf & Hrun & Hf).
      rewrite Hrun in Hres. injection Hres as <- <-.
      eapply Hgrow; [| |exact Hf].
      * destruct (_ || _); [reflexivity | apply length_insert].
      * intros l Hl. destruct (_ || _); [reflexivity|].
        destruct (decide (l = GameState.pedras_restantes state)) as [->|Hne].
        -- rewrite list_lookup_insert_eq by (destruct Hv; assumption).
           change (len (Domino.sort_by (pip_sum h)
                          (seq_of h (GameState.pedras_restantes state)))
                   = len (seq_of h (GameState.pedras_restantes state))).
           unfold len. now rewrite sort_by_length.
        -- rewrite list_lookup_insert_ne by congruence. reflexivity.
    + rewrite (result_pass_unset state move player h Hv Hp H1) in Hres.
      injection Hres as <- <-.
      eapply Hgrow; [reflexivity | |right; reflexivity].
      intros l Hl. reflexivity.
  - assert (Hp : is_placement h move) by exact Hplace.
    rewrite (result_placement_run state move player h Hv Hp He) in Hres.
    cbv zeta in Hres.
    destruct (Domino.remove_first h move.1 _) as [r|e]; [|discriminate].
    apply bindM_inv in Hres as (ms & h1 & Hm & Hret).
    unfold ret in Hret. injection Hret as <- <-.
    apply moves_frame in Hm.
    eapply Hgrow; [reflexivity | |exact Hm].
    intros l Hl. reflexivity.
Qed.

(** ** The count of tiles *)

Lemma reachable_inv (h : Heap) (s : GameState.t) (k : Z) :
  reachable h s k ->
  valid_lists h s
  /\ ends_together (GameState.ponta1 s) (GameState.ponta2 s)
  /\ len (seq_of h (GameState.pedras s))
     + len (seq_of h (GameState.pedras_restantes s)) + k = 28.
Proof.
  induction 1 as [rnd h0 d h Hinit | h s k move player s' h' Hreach IH Hres
                 | h s k chance Hreach IH
                 | h s k s0 k0 move player s' h' Hreach IH Hreach0 IH0 Hres
                 | h s k s0 k0 cs h' Hreach IH Hreach0 IH0 Hcs
                 | F A h s k s0 k0 player v h' Hreach IH Hreach0 IH0 Hev].
  - destruct (init_deal rnd h0) as (d' & h' & Hrun & Hv & H7 & H21 & Hp & _).
    rewrite Hrun in Hinit. injection Hinit as <- <-.
    split; [exact Hv|]. split; [rewrite Hp; intros Habs; now contradiction Habs|].
    lia.
  - destruct IH as (Hv & He & Hcount).
    destruct (result_step s move player h s' h' Hv He Hres)
      as (Hv' & He' & Hplace & Hpass).
    split; [exact Hv'|]. split; [exact He'|].
    unfold played_after.
    destruct (Z.eqb_spec (Pedra.valor (obj h move.1)).1 (-1)) as [E|E].
    + destruct Hpass as [-> ->]; [unfold is_placement; lia | exact Hcount].
    + destruct (Hplace E) as [Hmine Hother].
      destruct (Z.eq_dec (GameState.to_move s) player) as [Hm|Hm].
      * destruct (Hmine Hm) as [-> ->]. lia.
      * destruct (Hother Hm) as [-> ->]. lia.
  - exact IH.
  - destruct IH as ((Hv1 & Hv2) & He & Hcount). destruct IH0 as (Hv0 & He0 & _).
    destruct (result_store s0 move player h s' h' Hv0 He0 Hres) as (Hgrow & Hsame).
    split; [split; lia|]. split; [exact He|].
    rewrite !Hsame by assumption. exact Hcount.
  - destruct IH as (Hv & He & Hcount).
    apply chances_store in Hcs as [-> | ->]; (split; [exact Hv|]); split; assumption.
  - destruct IH as (Hv & He & Hcount).
    apply eval_store in Hev as [-> | ->]; (split; [exact Hv|]); split; assumption.
Qed.

(** C9.  Every deal succeeds and starts from 7 tiles in the mover's hand, 21
    in the unseen pool and none played; in every state reached from a deal,
    in whatever store the search has since left, hand size + pool size +
    tiles played = 28; a placement that returns removes exactly one tile,
    from the hand when the mover is the searching player and from the pool
    otherwise, and a pass removes none; and a state reached keeps its count
    when a transition, a chance enumeration or an evaluation of any state
    reached changes the store. *)
Theorem tile_count_invariant :
  (forall (rnd : nat -> Z) (h0 : Heap),
      exists d h,
        Domino.__init__ rnd h0 = Ok (d, h)
        /\ reachable h (Domino.initial d) 0
        /\ len (seq_of h (GameState.pedras (Domino.initial d))) = 7
        /\ len (seq_of h (GameState.pedras_restantes (Domino.initial d))) = 21)
  /\ (forall (h : Heap) (s : GameState.t) (k : Z),
        reachable h s k ->
        len (seq_of h (GameState.pedras s))
        + len (seq_of h (GameState.pedras_restantes s)) + k = 28)
  /\ (forall (h : Heap) (s : GameState.t) (k : Z) (move : Move) (player : Z)
             (s' : GameState.t) (h' : Heap),
        reachable h s k ->
        Domino.result s move player h = Ok (s', h') ->
        (is_placement h move ->
         played_after h move k = k + 1
         /\ (GameState.to_move s = player ->
             len (seq_of h' (GameState.pedras s'))
             = len (seq_of h (GameState.pedras s)) - 1
             /\ len (seq_of h' (GameState.pedras_restantes s'))
                = len (seq_of h (GameState.pedras_restantes s)))
         /\ (GameState.to_move s <> player ->
             len (seq_of h' (GameState.pedras_restantes s'))
             = len (seq_of h (GameState.pedras_restantes s)) - 1
             /\ len (seq_of h' (GameState.pedras s'))
                = len (seq_of h (GameState.pedras s))))
        /\ (~ is_placement h move ->
            played_after h move k = k
            /\ seq_of h' (GameState.pedras s') = seq_of h (GameState.pedras s)
            /\ seq_of h' (GameState.pedras_restantes s')
               = seq_of h (GameState.pedras_restantes s)))
  /\ (forall (h : Heap) (s : GameState.t) (k : Z) (s0 : GameState.t) (k0 : Z)
             (h' : Heap),
        reachable h s k ->
        reachable h s0 k0 ->
        ((exists move player s', Domino.result s0 move player h = Ok (s', h'))
         \/ (exists chances, Domino.chances s0 h = Ok (chances, h'))
         \/ (exists player v, Domino.eval (F := float) s0 player h = Ok (v, h'))) ->
        reachable h' s k
        /\ len (seq_of h' (GameState.pedras s))
           + len (seq_of h' (GameState.pedras_restantes s)) + k = 28).
Proof.
  split; [|split; [|split]].
  - intros rnd h0.
    destruct (init_deal rnd h0) as (d & h & Hrun & _ & H7 & H21 & _).
    exists d, h. split; [exact Hrun|].
    split; [exact (reach_deal rnd h0 d h Hrun)|]. split; assumption.
  - intros h s k Hreach. now apply reachable_inv.
  - intros h s k move player s' h' Hreach Hres.
    destruct (reachable_inv h s k Hreach) as (Hv & He & _).
    destruct (result_step s move player h s' h' Hv He Hres)
      as (_ & _ & Hplace & Hpass).
    split.
    + intros Hp. split; [|exact (Hplace Hp)].
      unfold played_after. apply Z.eqb_neq in Hp. now rewrite Hp.
    + intros Hp. split; [|exact (Hpass Hp)].
      unfold played_after.
      destruct (Z.eqb_spec (Pedra.valor (obj h move.1)).1 (-1)) as [E|E];
        [reflexivity|]. exfalso. apply Hp. exact E.
  - intros h s k s0 k0 h' Hreach Hreach0 Hop.
    assert (Hlater : reachable h' s k).
    { destruct Hop as [(move & player & s' & Hres) | [(cs & Hcs) | (player & v & Hev)]].
      - exact (reach_after_result h s k s0 k0 move player s' h' Hreach Hreach0 Hres).
      - exact (reach_after_chances h s k s0 k0 cs h' Hreach Hreach0 Hcs).
      - exact (reach_after_eval float _ h s k s0 k0 player v h' Hreach Hreach0 Hev). }
    split; [exact Hlater|]. now apply reachable_inv.
Qed.

(** ** Calling the transition twice *)

Lemma obj_of_app_l (os ext : list Pedra.t) (l : loc) :
  (l < length os)%nat -> obj_of (os ++ ext) l = obj_of os l.
Proof. intros Hl. unfold obj_of. now rewrite lookup_app_l. Qed.

Lemma positioned_app (os ext : list Pedra.t) (l : loc) (p : Z) :
  (l < length os)%nat -> positioned (os ++ ext) l p = positioned os l p ++ ext.
Proof. intros Hl. unfold positioned. now apply alter_app_l. Qed.

Lemma positioned_same (os : list Pedra.t) (l : loc) (p : Z) :
  Pedra.position (obj_of os l) = p \/ (length os <= l)%nat ->
  positioned os l p = os.
Proof.
  intros Hp. unfold positioned. apply list_eq. intros i.
  destruct (decide (l = i)) as [<-|Hne]; [|now apply list_lookup_alter_ne].
  rewrite list_lookup_alter_eq. unfold obj_of in Hp.
  destruct (os !! l) as [o|] eqn:E; [|reflexivity].
  cbn. f_equal. destruct Hp as [Hp|Hp].
  - cbn in Hp. destruct o as [v q]. cbn in *. now subst.
  - apply lookup_lt_Some in E. lia.
Qed.

Lemma oriented_app (os ext : list Pedra.t) (m e : loc) (b : bool) :
  (m < length os)%nat -> (e < length os)%nat ->
  oriented (os ++ ext) m e b = oriented os m e b ++ ext.
Proof.
  intros Hm He. unfold oriented. cbv beta zeta.
  rewrite !obj_of_app_l by assumption.
  rewrite !positioned_app by (rewrite ?positioned_length; assumption).
  rewrite !obj_of_app_l by (rewrite ?positioned_length; assumption).
  repeat match goal with
         | |- context [if ?c then _ else _] => destruct c
         end; reflexivity.
Qed.

Lemma placed_app (os ext : list Pedra.t) (p1 p2 : option loc) (move : Move) :
  (move.1 < length os)%nat ->
  (forall e, p1 = Some e -> (e < length os)%nat) ->
  (forall e, p2 = Some e -> (e < length os)%nat) ->
  placed_objs (os ++ ext) p1 p2 move = placed_objs os p1 p2 move ++ ext.
Proof.
  intros Hm H1 H2. unfold placed_objs.
  destruct p1 as [e1|]; [|now apply positioned_app].
  destruct (move.2 =? 0); [apply oriented_app; auto|].
  destruct (move.2 =? 1); [|reflexivity].
  destruct p2 as [e2|]; [apply oriented_app; auto | reflexivity].
Qed.

(** Orienting again writes what is already there. *)
Lemma oriented_idem (os : list Pedra.t) (m e : loc) (b : bool) :
  oriented (oriented os m e b) m e b = oriented os m e b.
Proof.
  remember (oriented os m e b) as os' eqn:Hdef.
  assert (Hpips : forall l, Pedra.valor (obj_of os' l) = Pedra.valor (obj_of os l))
    by (intros l; subst os'; apply oriented_pips).
  assert (Hlength : length os' = length os)
    by (subst os'; apply oriented_length).
  assert (Hmark : forall c, c <> -1 ->
            os' = (if b && (Pedra.position (obj_of (positioned os m c) e) =? -1)
                   then positioned (positioned os m c) e 1 else positioned os m c) ->
            (if b && (Pedra.position (obj_of (positioned os' m c) e) =? -1)
             then positioned (positioned os' m c) e 1 else positioned os' m c) = os').
  { intros c Hc Hos'.
    assert (Hm : positioned os' m c = os').
    { apply positioned_same.
      destruct (le_lt_dec (length os') m) as [Hge|Hlt]; [now right|left].
      assert (Hlt' : (m < length os)%nat) by lia.
      rewrite Hos'.
      destruct (b && (Pedra.position (obj_of (positioned os m c) e) =? -1)) eqn:Eb.
      - rewrite obj_of_positioned. destruct (decide _) as [[<- _]|_].
        + apply andb_prop in Eb as [_ Eb]. apply Z.eqb_eq in Eb.
          rewrite obj_of_positioned in Eb. rewrite decide_True in Eb by auto.
          cbn in Eb. contradiction.
        + rewrite obj_of_positioned. rewrite decide_True by auto. reflexivity.
      - rewrite obj_of_positioned. rewrite decide_True by auto. reflexivity. }
    rewrite Hm.
    replace (b && (Pedra.position (obj_of os' e) =? -1)) with false; [reflexivity|].
    symmetry. destruct b; [cbn|reflexivity]. apply Z.eqb_neq.
    rewrite Hos'.
    destruct (true && (Pedra.position (obj_of (positioned os m c) e) =? -1)) eqn:Eb.
    - rewrite obj_of_positioned. destruct (decide _) as [_|Hn]; [cbn; lia|].
      cbn in Eb. apply Z.eqb_eq in Eb.
      assert (Hge : (length (positioned os m c) <= e)%nat).
      { destruct (le_lt_dec (length (positioned os m c)) e); [assumption|].
        exfalso. apply Hn. auto. }
      unfold obj_of in Eb. rewrite lookup_ge_None_2 in Eb by assumption.
      cbn in Eb. lia.
    - cbn in Eb. now apply Z.eqb_neq in Eb. }
  unfold oriented. cbv beta zeta. rewrite !Hpips.
  unfold oriented in Hdef. cbv beta zeta in Hdef.
  destruct (((Pedra.valor (obj_of os m)).1 =? (Pedra.valor (obj_of os e)).1)
            || ((Pedra.valor (obj_of os m)).1 =? (Pedra.valor (obj_of os e)).2)).
  - apply Hmark; [lia | exact Hdef].
  - destruct (((Pedra.valor (obj_of os m)).2 =? (Pedra.valor (obj_of os e)).1)
              || ((Pedra.valor (obj_of os m)).2 =? (Pedra.valor (obj_of os e)).2)).
    + apply Hmark; [lia | exact Hdef].
    + reflexivity.
Qed.

Lemma placed_idem (os : list Pedra.t) (p1 p2 : option loc) (move : Move) :
  placed_objs (placed_objs os p1 p2 move) p1 p2 move = placed_objs os p1 p2 move.
Proof.
  unfold placed_objs. destruct p1 as [e1|].
  - destruct (move.2 =? 0); [apply oriented_idem|].
    destruct (move.2 =? 1); [|reflexivity].
    destruct p2; [apply oriented_idem | reflexivity].
  - apply positioned_same.
    destruct (le_lt_dec (length (positioned os move.1 (-1))) move.1) as [Hge|Hlt];
      [now right|left].
    rewrite positioned_length in Hlt.
    rewrite obj_of_positioned. now rewrite decide_True by auto.
Qed.

(** The move generator and [remove] read the tiles they are given, and
    nothing else of the store. *)
Lemma placements_agree (h h' : Heap) (e1 e2 : loc) (xs : list loc) :
  obj h' e1 = obj h e1 -> obj h' e2 = obj h e2 ->
  Forall (fun l => obj h' l = obj h l) xs ->
  placements h' e1 e2 xs = placements h e1 e2 xs.
Proof.
  intros H1 H2 Hxs. unfold placements. rewrite H1, H2.
  induction Hxs as [|x xs Hx Hxs IH]; cbn [flat_map]; [reflexivity|].
  now rewrite Hx, IH.
Qed.

Lemma remove_first_agree (h h' : Heap) (x : loc) (l : list loc) :
  obj h' x = obj h x ->
  Forall (fun a => obj h' a = obj h a) l ->
  Domino.remove_first h' x l = Domino.remove_first h x l.
Proof.
  intros Hx Hl. induction Hl as [|y l Hy Hl IH]; cbn [Domino.remove_first];
    [reflexivity|].
  now rewrite Hy, IH, Hx.
Qed.

Lemma remove_first_sub (h : Heap) (x : loc) (l r : list loc) (P : loc -> Prop) :
  Domino.remove_first h x l = Ok r -> Forall P l -> Forall P r.
Proof.
  revert r. induction l as [|y l IH]; intros r; cbn [Domino.remove_first];
    [discriminate|].
  intros Hr Hl. apply Forall_cons in Hl as [Hy Hl].
  destruct (Pedra.__eq__ (obj h y) (obj h x)).
  - injection Hr as <-. exact Hl.
  - destruct (Domino.remove_first h x l) as [r'|e]; [|discriminate].
    cbn in Hr. injection Hr as <-. constructor; [exact Hy | now apply IH].
Qed.

Lemma placed_ends_valid (p1 p2 : option loc) (move : Move) (a b : loc) (n : nat) :
  (move.1 < n)%nat ->
  (forall e, p1 = Some e -> (e < n)%nat) ->
  (forall e, p2 = Some e -> (e < n)%nat) ->
  placed_ends p1 p2 move = (Some a, Some b) ->
  (a < n)%nat /\ (b < n)%nat.
Proof.
  intros Hm H1 H2. unfold placed_ends.
  destruct p1 as [e1|]; [|intros [= <- <-]; auto].
  destruct (move.2 =? 0); [intros [= <- ->]; auto|].
  destruct (move.2 =? 1); [intros [= -> <-]; auto|].
  intros [= -> ->]. auto.
Qed.

Lemma remove_first_pips_on (h h' : Heap) (x : loc) (l : list loc) :
  Forall (fun a => Pedra.valor (obj h' a) = Pedra.valor (obj h a)) (x :: l) ->
  Domino.remove_first h' x l = Domino.remove_first h x l.
Proof.
  intros Hl. apply Forall_cons in Hl as [Hx Hl].
  induction Hl as [|y l Hy Hl IH]; cbn [Domino.remove_first]; [reflexivity|].
  unfold Pedra.__eq__. now rewrite Hy, IH, Hx.
Qed.

Lemma Forall2_same {A} (R : A -> A -> Prop) (l : list A) :
  (forall x, R x x) -> Forall2 R l l.
Proof. intros HR. induction l; constructor; auto. Qed.

(** The shape of what a placement returns: the tiles as [place] left them,
    possibly followed by a new pass sentinel, and two new list objects. *)
Lemma result_placement_shape (state : GameState.t) (move : Move) (player : Z)
    (h : Heap) (s1 : GameState.t) (h1 : Heap) :
  valid_lists h state ->
  is_placement h move ->
  ends_together (GameState.ponta1 state) (GameState.ponta2 state) ->
  Domino.result state move player h = Ok (s1, h1) ->
  let hand0 := seq_of h (GameState.pedras state) in
  let rest0 := seq_of h (GameState.pedras_restantes state) in
  let mine := GameState.to_move state =? player in
  let L := length (lists h) in
  let O' := placed_objs (objs h) (GameState.ponta1 state)
              (GameState.ponta2 state) move in
  exists r a b ext ms,
    Domino.remove_first h move.1 (if mine then hand0 else rest0) = Ok r
    /\ placed_ends (GameState.ponta1 state) (GameState.ponta2 state) move
       = (Some a, Some b)
    /\ h1 = mkHeap (O' ++ ext)
              (lists h ++ [if mine then r else hand0; if mine then rest0 else r])
    /\ s1 = GameState.make ((GameState.to_move state + 1) mod 4) L (S L)
              (Some a) (Some b) ms
              (if mine then (if len hand0 =? 1 then 4 else 0)
               else (if len rest0 =? 3 then -1 else 0))
    /\ let xs := if (GameState.to_move state + 1) mod 4 =? player
                 then (if mine then r else hand0)
                 else (if mine then rest0 else r) in
       (placements (mkHeap O' (lists h)) a b xs = []
        /\ ext = [Pedra.make (-1, -1) (-1)] /\ ms = [(length O', -1)]
        \/ placements (mkHeap O' (lists h)) a b xs <> []
           /\ ext = [] /\ ms = placements (mkHeap O' (lists h)) a b xs).
Proof.
  intros Hv Hp He Hres hand0 rest0 mine L O'.
  pose proof (result_placement_run state move player h Hv Hp He) as Hrun.
  cbv zeta in Hrun. rewrite Hres in Hrun. fold hand0 rest0 mine in Hrun.
  destruct (Domino.remove_first h move.1 (if mine then hand0 else rest0))
    as [r|e] eqn:Hr; [|discriminate]. clear Hrun.
  destruct (result_placement state move player h r Hv Hp He Hr)
    as (a & b & Hends & Hform).
  cbv zeta in Hform. rewrite Hres in Hform.
  fold hand0 rest0 mine L O' in Hform.
  set (A := if mine then r else hand0) in *.
  set (B := if mine then rest0 else r) in *.
  set (hb := mkHeap O' (lists h ++ [A; B])) in *.
  assert (Hxs : seq_of hb (if (GameState.to_move state + 1) mod 4 =? player
                           then L else S L)
                = if (GameState.to_move state + 1) mod 4 =? player then A else B).
  { destruct ((GameState.to_move state + 1) mod 4 =? player);
      [apply seq_of_middle | apply seq_of_second]. }
  rewrite Hxs in Hform.
  change (placements hb a b) with (placements (mkHeap O' (lists h)) a b) in Hform.
  exists r, a, b.
  destruct (placements (mkHeap O' (lists h)) a b _) as [|m ms] eqn:Eps.
  - exists [Pedra.make (-1, -1) (-1)], [(length O', -1)].
    injection Hform as -> ->.
    split; [reflexivity|]. split; [exact Hends|]. split; [reflexivity|].
    split; [reflexivity|]. left. split; [exact Eps|]. split; reflexivity.
  - exists [], (m :: ms).
    injection Hform as -> ->. rewrite app_nil_r.
    split; [reflexivity|]. split; [exact Hends|]. split; [reflexivity|].
    split; [reflexivity|]. right. unfold A, B in Eps.
    split; [rewrite Eps; discriminate|]. split; [reflexivity | now rewrite Eps].
Qed.

(** C1, as the code has it.  On a placement that returns, the transition
    leaves the hand and pool sequences of its input state as they were and
    never changes the pips of a tile, but it writes [position] attributes:
    only the tile placed and the tile at end 1 can differ afterwards.
    Called a second time on the same state and move, it returns again, the
    state it returns is structurally equal to the first one, and it leaves
    every tile and both input sequences as the first call left them. *)
Theorem transition_twice (state : GameState.t) (move : Move) (player : Z)
    (h : Heap) (s1 : GameState.t) (h1 : Heap) :
  valid_lists h state ->
  valid_objs h state move ->
  ends_together (GameState.ponta1 state) (GameState.ponta2 state) ->
  is_placement h move ->
  Domino.result state move player h = Ok (s1, h1) ->
  (seq_of h1 (GameState.pedras state) = seq_of h (GameState.pedras state)
   /\ seq_of h1 (GameState.pedras_restantes state)
      = seq_of h (GameState.pedras_restantes state))
  /\ (forall l, (l < length (objs h))%nat ->
        Pedra.valor (obj h1 l) = Pedra.valor (obj h l))
  /\ (forall l, (l < length (objs h))%nat ->
        l <> move.1 -> GameState.ponta1 state <> Some l -> obj h1 l = obj h l)
  /\ exists (s2 : GameState.t) (h2 : Heap),
       Domino.result state move player h1 = Ok (s2, h2)
       /\ same_state h2 s1 s2
       /\ (forall l, (l < length (objs h1))%nat -> obj h2 l = obj h1 l)
       /\ seq_of h2 (GameState.pedras state) = seq_of h (GameState.pedras state)
       /\ seq_of h2 (GameState.pedras_restantes state)
          = seq_of h (GameState.pedras_restantes state).
Proof.
  intros Hv (Vm & Vh & Vr & V1 & V2) He Hp Hres.
  destruct (result_placement_shape state move player h s1 h1 Hv Hp He Hres)
    as (r & a & b & ext & ms & Hr & Hends & Hh1 & Hs1 & Hms).
  cbv zeta in Hms.
  set (hand0 := seq_of h (GameState.pedras state)) in *.
  set (rest0 := seq_of h (GameState.pedras_restantes state)) in *.
  set (mine := GameState.to_move state =? player) in *.
  set (O' := placed_objs (objs h) (GameState.ponta1 state)
               (GameState.ponta2 state) move) in *.
  set (A := if mine then r else hand0) in *.
  set (B := if mine then rest0 else r) in *.
  set (tm := (GameState.to_move state + 1) mod 4) in *.
  set (xs := if tm =? player then A else B) in *.
  set (N := length (objs h)) in *.
  destruct Hv as [Hv1 Hv2].
  assert (HO' : length O' = N) by apply placed_length.
  assert (Hold : forall l, (l < N)%nat -> obj h1 l = obj_of O' l).
  { intros l Hl. rewrite Hh1. unfold obj. cbn [objs].
    apply obj_of_app_l. lia. }
  assert (Hpips : forall l, (l < N)%nat ->
            Pedra.valor (obj h1 l) = Pedra.valor (obj h l)).
  { intros l Hl. rewrite Hold by assumption. apply placed_pips. }
  assert (Hseq1 : forall l, (l < length (lists h))%nat -> seq_of h1 l = seq_of h l).
  { intros l Hl. rewrite Hh1. rewrite (seq_of_app_l _ _ _ _ Hl). reflexivity. }
  assert (FA : Forall (fun l => (l < N)%nat) A /\ Forall (fun l => (l < N)%nat) B).
  { unfold A, B. destruct mine.
    - split; [exact (remove_first_sub _ _ _ _ _ Hr Vh) | exact Vr].
    - split; [exact Vh | exact (remove_first_sub _ _ _ _ _ Hr Vr)]. }
  assert (Fxs : Forall (fun l => (l < N)%nat) xs).
  { unfold xs. destruct (tm =? player); tauto. }
  destruct (placed_ends_valid _ _ move a b N Vm V1 V2 Hends) as [Ha Hb].
  split; [split; apply Hseq1; assumption|].
  split; [exact Hpips|].
  split.
  { intros l Hl Hm H1. rewrite Hold by assumption. now apply placed_frame. }
  (* the second call *)
  assert (Hv' : valid_lists h1 state).
  { unfold valid_lists. rewrite Hh1. cbn [lists]. rewrite length_app. lia. }
  assert (Hp' : is_placement h1 move).
  { unfold is_placement. rewrite Hpips by assumption. exact Hp. }
  assert (Hr' : Domino.remove_first h1 move.1
                  (if mine then seq_of h1 (GameState.pedras state)
                   else seq_of h1 (GameState.pedras_restantes state)) = Ok r).
  { rewrite !Hseq1 by assumption. fold hand0 rest0. rewrite <- Hr.
    apply remove_first_pips_on. constructor; [now apply Hpips|].
    destruct mine; (eapply Forall_impl; [eassumption|]);
      intros l Hl; now apply Hpips. }
  destruct (result_placement state move player h1 r Hv' Hp' He Hr')
    as (a' & b' & Hends' & Hform).
  rewrite Hends in Hends'. injection Hends' as <- <-.
  cbv zeta in Hform. fold mine tm in Hform.
  rewrite !Hseq1 in Hform by assumption. fold hand0 rest0 A B in Hform.
  assert (Hplaced : placed_objs (objs h1) (GameState.ponta1 state)
                      (GameState.ponta2 state) move = objs h1).
  { rewrite Hh1. cbn [objs].
    rewrite placed_app by (rewrite ?HO'; assumption).
    unfold O'. now rewrite placed_idem. }
  rewrite Hplaced in Hform.
  set (hb2 := mkHeap (objs h1) (lists h1 ++ [A; B])) in *.
  assert (Hxs2 : seq_of hb2 (if tm =? player then length (lists h1)
                             else S (length (lists h1))) = xs).
  { unfold xs. destruct (tm =? player); [apply seq_of_middle | apply seq_of_second]. }
  rewrite Hxs2 in Hform.
  assert (Hobj2 : forall l, (l < N)%nat -> obj hb2 l = obj (mkHeap O' (lists h)) l).
  { intros l Hl. change (obj hb2 l) with (obj h1 l). now apply Hold. }
  assert (Hps : placements hb2 a b xs = placements (mkHeap O' (lists h)) a b xs).
  { apply placements_agree; [now apply Hobj2 | now apply Hobj2 |].
    eapply Forall_impl; [exact Fxs|]. intros l Hl. now apply Hobj2. }
  rewrite Hps in Hform.
  assert (Hl1 : lists h1 = lists h ++ [A; B]) by (rewrite Hh1; reflexivity).
  assert (HA : forall os, seq_of (mkHeap os (lists h1 ++ [A; B])) (length (lists h)) = A).
  { intros os. rewrite Hl1. rewrite <- app_assoc. apply seq_of_middle. }
  assert (HB : forall os, seq_of (mkHeap os (lists h1 ++ [A; B])) (S (length (lists h))) = B).
  { intros os. rewrite Hl1. rewrite seq_of_app_l by (rewrite length_app; cbn; lia).
    apply seq_of_second. }
  assert (Hin : forall os l, (l < length (lists h))%nat ->
            seq_of (mkHeap os (lists h1 ++ [A; B])) l = seq_of h l).
  { intros os l Hl. rewrite seq_of_app_l by (rewrite Hl1, length_app; lia).
    rewrite <- (Hseq1 l Hl). reflexivity. }
  destruct Hms as [(Eps & Hext & Hmoves) | (Eps & Hext & Hmoves)].
  - rewrite Eps in Hform.
    eexists _, _. split; [exact Hform|].
    split; [|split; [|split]].
    + rewrite Hs1. unfold same_state.
      cbn [GameState.to_move GameState.pedras GameState.pedras_restantes
             GameState.ponta1 GameState.ponta2 GameState.moves GameState.utility].
      change (seq_of (with_sentinel hb2)) with (seq_of hb2). unfold hb2.
      rewrite HA, HB, seq_of_middle, seq_of_second.
      repeat split. rewrite Hmoves. constructor; [|constructor].
      cbn [fst snd]. split; [|reflexivity].
      unfold obj, with_sentinel. cbn [objs]. rewrite Hh1. cbn [objs]. rewrite Hext.
      rewrite lookup_app_l by (rewrite length_app; cbn [length]; lia).
      rewrite (list_lookup_middle O' [] _ (length O') eq_refl).
      rewrite list_lookup_middle; [reflexivity|].
      rewrite length_app. cbn [length]. lia.
    + intros l Hl. unfold obj, with_sentinel. cbn [objs].
      now rewrite lookup_app_l.
    + change (seq_of (with_sentinel hb2)) with (seq_of hb2). now apply Hin.
    + change (seq_of (with_sentinel hb2)) with (seq_of hb2). now apply Hin.
  - destruct (placements (mkHeap O' (lists h)) a b xs) as [|m0 ms0] eqn:E;
      [contradiction|].
    eexists _, _. split; [exact Hform|].
    split; [|split; [|split]].
    + rewrite Hs1. unfold same_state.
      cbn [GameState.to_move GameState.pedras GameState.pedras_restantes
             GameState.ponta1 GameState.ponta2 GameState.moves GameState.utility].
      unfold hb2. rewrite HA, HB, seq_of_middle, seq_of_second.
      repeat split. rewrite Hmoves. apply Forall2_same. auto.
    + intros l Hl. reflexivity.
    + now apply Hin.
    + now apply Hin.
Qed.

(** ** The claims on concrete positions *)

(** C1 as stated fails: the transition writes the tiles its input state
    refers to.  Seat 0 places (6,5) on the double six; afterwards both the
    tile at the ends of the input state and the tile of its hand carry
    another [position]. *)
Lemma transition_writes_tiles :
  Domino.result ex_state (1%nat, 0) 0 ex_heap = Ok ex_after
  /\ GameState.ponta1 ex_state = Some 0%nat
  /\ obj ex_after.2 0%nat <> obj ex_heap 0%nat
  /\ In 1%nat (seq_of ex_heap (GameState.pedras ex_state))
  /\ obj ex_after.2 1%nat <> obj ex_heap 1%nat.
Proof.
  split; [vm_compute; reflexivity|]. split; [reflexivity|].
  split; [vm_compute; discriminate|]. split; [left; reflexivity|].
  vm_compute. discriminate.
Qed.

(** The in-place sort of [compute_utility]: a pass on a blocked board
    reorders the pool of its input state, so that a second call returns the
    pool in another order than the first. *)
Lemma blocked_pass_reorders_pool :
  exists s1 h1 s2 h2,
    Domino.result ex_blocked_state (7%nat, -1) 0 ex_heap = Ok (s1, h1)
    /\ Domino.result ex_blocked_state (7%nat, -1) 0 h1 = Ok (s2, h2)
    /\ seq_of ex_heap (GameState.pedras_restantes ex_blocked_state) = [5; 4]%nat
    /\ seq_of h1 (GameState.pedras_restantes ex_blocked_state) = [4; 5]%nat
    /\ seq_of h2 (GameState.pedras_restantes s1) = [5; 4]%nat
    /\ seq_of h2 (GameState.pedras_restantes s2) = [4; 5]%nat.
Proof.
  eexists _, _, _, _.
  split; [vm_compute; reflexivity|]. split; [vm_compute; reflexivity|].
  repeat split.
Qed.

Lemma transition_twice_witness :
  valid_lists ex_heap ex_state
  /\ valid_objs ex_heap ex_state (1%nat, 0)
  /\ ends_together (GameState.ponta1 ex_state) (GameState.ponta2 ex_state)
  /\ is_placement ex_heap (1%nat, 0)
  /\ Domino.result ex_state (1%nat, 0) 0 ex_heap = Ok ex_after
  /\ exists s2 h2,
       Domino.result ex_state (1%nat, 0) 0 ex_after.2 = Ok (s2, h2)
       /\ same_state h2 ex_after.1 s2.
Proof.
  assert (H1 : valid_lists ex_heap ex_state) by (split; simpl; lia).
  assert (H2 : valid_objs ex_heap ex_state (1%nat, 0)).
  { split; [simpl; lia|].
    split; [repeat constructor; simpl; lia|].
    split; [repeat constructor; simpl; lia|].
    split; intros e [= <-]; simpl; lia. }
  assert (H3 : ends_together (GameState.ponta1 ex_state) (GameState.ponta2 ex_state))
    by (intros _; discriminate).
  assert (H4 : is_placement ex_heap (1%nat, 0)) by (vm_compute; discriminate).
  assert (H5 : Domino.result ex_state (1%nat, 0) 0 ex_heap = Ok ex_after)
    by (vm_compute; reflexivity).
  destruct (transition_twice ex_state (1%nat, 0) 0 ex_heap ex_after.1 ex_after.2
              H1 H2 H3 H4 H5) as (_ & _ & _ & s2 & h2 & Hr & Hs & _).
  refine (conj H1 (conj H2 (conj H3 (conj H4 (conj H5 _))))).
  exists s2, h2. split; assumption.
Defined.

(** C2 as stated fails: a pass on a board with its ends set, while (6,3) in
    the pool still matches the open 6, gets the marker 0, not -1. *)
Lemma pass_with_playable_tile :
  exists s' h',
    Domino.result ex_pass_state (7%nat, -1) 0 ex_heap = Ok (s', h')
    /\ GameState.ponta1 ex_pass_state <> None
    /\ ~ is_placement ex_heap (7%nat, -1)
    /\ GameState.utility s' = 0
    /\ GameState.utility s' <> -1.
Proof.
  eexists _, _. split; [vm_compute; reflexivity|].
  split; [discriminate|]. split; [intros H; now apply H|].
  split; [reflexivity | discriminate].
Qed.

Lemma pass_transition_witness :
  valid_lists ex_heap ex_pass_state
  /\ ~ is_placement ex_heap (7%nat, -1)
  /\ GameState.ponta1 ex_pass_state = Some 0%nat
  /\ GameState.ponta2 ex_pass_state = Some 0%nat
  /\ exists s' h',
       Domino.result ex_pass_state (7%nat, -1) 0 ex_heap = Ok (s', h')
       /\ GameState.to_move s' = 1
       /\ GameState.utility s' = 0.
Proof.
  assert (H1 : valid_lists ex_heap ex_pass_state) by (split; simpl; lia).
  assert (H2 : ~ is_placement ex_heap (7%nat, -1)) by (intros H; now apply H).
  destruct (pass_transition ex_pass_state (7%nat, -1) 0 ex_heap 0%nat 0%nat
              H1 H2 eq_refl eq_refl)
    as (s' & h' & Hr & Ht & _ & _ & _ & _ & _ & Hu & _).
  refine (conj H1 (conj H2 (conj eq_refl (conj eq_refl _)))).
  exists s', h'. split; [exact Hr|]. split; [exact Ht | exact (Hu eq_refl)].
Defined.

(** C3 as stated fails: seat 1, an opponent of the searching seat 0, places
    (6,3) from a pool of four tiles; the pool is down to three tiles after
    the move, and the marker is 0, not -1. *)
Lemma opponent_down_to_three :
  exists s' h',
    Domino.result ex_opponent_state (3%nat, 0) 0 ex_heap = Ok (s', h')
    /\ is_placement ex_heap (3%nat, 0)
    /\ GameState.to_move ex_opponent_state <> 0
    /\ len (seq_of h' (GameState.pedras_restantes s')) = 3
    /\ GameState.utility s' = 0
    /\ GameState.utility s' <> -1.
Proof.
  eexists _, _. split; [vm_compute; reflexivity|].
  split; [vm_compute; discriminate|]. split; [discriminate|].
  split; [reflexivity|]. split; [reflexivity | discriminate].
Qed.

Lemma placement_utility_witness :
  valid_lists ex_heap ex_opponent_state
  /\ is_placement ex_heap (3%nat, 0)
  /\ ends_together (GameState.ponta1 ex_opponent_state)
       (GameState.ponta2 ex_opponent_state)
  /\ In 3%nat (seq_of ex_heap (GameState.pedras_restantes ex_opponent_state))
  /\ exists s' h',
       Domino.result ex_opponent_state (3%nat, 0) 0 ex_heap = Ok (s', h')
       /\ len (seq_of h' (GameState.pedras_restantes s')) = 4 - 1
       /\ GameState.utility s'
          = if len (seq_of h' (GameState.pedras_restantes s')) =? 2 then -1 else 0.
Proof.
  assert (H1 : valid_lists ex_heap ex_opponent_state) by (split; simpl; lia).
  assert (H2 : is_placement ex_heap (3%nat, 0)) by (vm_compute; discriminate).
  assert (H3 : ends_together (GameState.ponta1 ex_opponent_state)
                 (GameState.ponta2 ex_opponent_state)) by (intros _; discriminate).
  assert (H4 : In 3%nat (seq_of ex_heap (GameState.pedras_restantes ex_opponent_state)))
    by (left; reflexivity).
  destruct (placement_utility ex_opponent_state (3%nat, 0) 0 ex_heap H1 H2 H3 H4)
    as (s' & h' & Hr & _ & Hother).
  destruct (Hother ltac:(discriminate)) as (Hl & _ & Hu).
  refine (conj H1 (conj H2 (conj H3 (conj H4 _)))).
  exists s', h'. split; [exact Hr|]. split; [exact Hl | exact Hu].
Defined.

(** C4 on the code: seat 1 searches and is to move, with the one legal move
    of its own hand, and the chance model still returns two events, of
    probabilities 1/4 and 3/4, where the claim has one event of
    probability 1. *)
Theorem chances_seat1_uncertain :
  Domino.moves 1 0%nat 1%nat (Some 0%nat) (Some 0%nat) 1 ex_heap
  = Ok (GameState.moves ex_seat1_state, ex_heap)
  /\ GameState.to_move ex_seat1_state = 1
  /\ exists (cs : list Chance) (h' : Heap),
       Domino.chances ex_seat1_state ex_heap = Ok (cs, h')
       /\ length cs = 2%nat
       /\ mapR (Domino.probability (F := Q)) cs = Ok [1 # 4; 3 # 4]%Q.
Proof.
  split; [vm_compute; reflexivity|]. split; [reflexivity|].
  eexists _, _. split; [vm_compute; reflexivity|].
  split; [reflexivity | vm_compute; reflexivity].
Qed.

Lemma chance_node_value_witness :
  Domino.result ex_state (1%nat, 0) 0 ex_heap = Ok ex_after
  /\ Domino.terminal_test ex_after.1 = false
  /\ 8 < 9
  /\ Domino.chances ex_after.1 ex_after.2 = Ok ex_chances
  /\ chance_node (F := float) 9 0 ex_state (1%nat, 0) 8 ex_heap
     = expected_value 9 0 ex_after.1 8 ex_chances.1 ex_chances.2.
Proof.
  assert (H1 : Domino.result ex_state (1%nat, 0) 0 ex_heap = Ok (ex_after.1, ex_after.2))
    by (vm_compute; reflexivity).
  assert (H2 : Domino.terminal_test ex_after.1 = false) by reflexivity.
  assert (H3 : 8 < 9) by lia.
  assert (H4 : Domino.chances ex_after.1 ex_after.2 = Ok (ex_chances.1, ex_chances.2))
    by (vm_compute; reflexivity).
  refine (conj H1 (conj H2 (conj H3 (conj H4 _)))).
  exact (chance_node_value 9 0 ex_state (1%nat, 0) 8 ex_heap ex_after.1 ex_after.2
           ex_chances.1 ex_chances.2 H1 H2 H3 H4).
Defined.

(** C6 on the code: seat 0 searches and places (6,5); seat 1, the next
    mover, holds no tile that matches, so its only move is the pass, which
    [probability] counts as a matching move: the only category returned has
    probability 1 - 1/3, the probabilities sum to 2/3 (0.67 in binary64),
    and no category of matches is there to account for the rest. *)
Lemma lone_pass_probability :
  Domino.result ex_lone_state (1%nat, 0) 0 ex_heap = Ok ex_after_lone
  /\ GameState.to_move ex_after_lone.1 = 1
  /\ exists (c : Chance) (h' : Heap),
       Domino.chances ex_after_lone.1 ex_after_lone.2 = Ok ([c], h')
       /\ c.1.1.1 = -1
       /\ Domino.probability (F := Q) c = Ok (2 # 3)%Q
       /\ ~ (sum_Q [2 # 3] == 1)%Q
       /\ exists p : float,
            Domino.probability (F := float) c = Ok p
            /\ PrimFloat.ltb p (float_of_Z 7 / float_of_Z 10)%float = true.
Proof.
  split; [vm_compute; reflexivity|]. split; [reflexivity|].
  eexists _, _. split; [vm_compute; reflexivity|].
  split; [reflexivity|]. split; [vm_compute; reflexivity|].
  split; [vm_compute; discriminate|].
  eexists. split; vm_compute; reflexivity.
Qed.

Lemma probabilities_sum_to_one_witness :
  GameState.to_move ex_after.1 <> 0
  /\ seq_of ex_after.2 (GameState.pedras_restantes ex_after.1) <> []
  /\ (forall m, In m (GameState.moves ex_after.1) -> m.2 = 0 \/ m.2 = 1)
  /\ exists ps p, (sum_Q ps + p == 1)%Q /\ (p == 1 - sum_Q ps)%Q.
Proof.
  assert (H1 : GameState.to_move ex_after.1 <> 0) by discriminate.
  assert (H2 : seq_of ex_after.2 (GameState.pedras_restantes ex_after.1) <> [])
    by discriminate.
  assert (H3 : forall m, In m (GameState.moves ex_after.1) -> m.2 = 0 \/ m.2 = 1).
  { intros m [<-|[]]. right. reflexivity. }
  destruct (probabilities_sum_to_one ex_after.1 ex_after.2 H1 H2 H3)
    as (ms & nm & h' & ps & p & _ & _ & _ & _ & _ & Hsum & Hp).
  refine (conj H1 (conj H2 (conj H3 _))).
  exists ps, p. split; assumption.
Defined.

Lemma depth_policy_witness :
  depth_limit 6 = 7
  /\ depth_limit 4 = 5
  /\ depth_limit 2 = 9
  /\ max_value (F := float) 9 0 ex_state 9 ex_heap = Domino.eval ex_state 0 ex_heap
  /\ min_value (F := float) 9 0 ex_state 12 ex_heap = Domino.eval ex_state 0 ex_heap.
Proof.
  destruct (@depth_policy float _ _) as (H67 & H45 & H9 & _ & _ & _ & Hlim).
  split; [apply H67; left; reflexivity|].
  split; [apply H45; left; reflexivity|].
  split; [apply H9; discriminate|].
  split; [apply (Hlim 9 0 ex_state 9 ex_heap); lia|].
  apply (Hlim 9 0 ex_state 12 ex_heap). lia.
Defined.

(** C8 as stated fails: (6,1) matches both open ends, the 6 and the 1, and the
    move generator returns one move for it, at end 1. *)
Lemma tile_matching_both_ends :
  Pedra.igual (obj ex_ends_heap 2%nat) (obj ex_ends_heap 0%nat) = true
  /\ Pedra.igual (obj ex_ends_heap 2%nat) (obj ex_ends_heap 1%nat) = true
  /\ Domino.moves 0 0%nat 1%nat (Some 0%nat) (Some 1%nat) 0 ex_ends_heap
     = Ok ([(2%nat, 0)], ex_ends_heap)
  /\ ~ In (2%nat, 1) [(2%nat, 0)].
Proof.
  split; [reflexivity|]. split; [reflexivity|].
  split; [vm_compute; reflexivity|]. intros [H|[]]. discriminate.
Qed.

Lemma moves_one_per_tile_witness :
  In 2%nat (seq_of ex_ends_heap 0%nat)
  /\ Pedra.igual (obj ex_ends_heap 2%nat) (obj ex_ends_heap 0%nat) = true
  /\ In (2%nat, 0) (placements ex_ends_heap 0%nat 1%nat (seq_of ex_ends_heap 0%nat))
  /\ ~ In (2%nat, 1) (placements ex_ends_heap 0%nat 1%nat (seq_of ex_ends_heap 0%nat)).
Proof.
  assert (H1 : In 2%nat (seq_of ex_ends_heap 0%nat)) by (left; reflexivity).
  assert (H2 : Pedra.igual (obj ex_ends_heap 2%nat) (obj ex_ends_heap 0%nat) = true)
    by reflexivity.
  destruct (moves_one_per_tile 0 0%nat 1%nat 0%nat 1%nat 0 ex_ends_heap)
    as (_ & _ & Hboth & _).
  destruct (Hboth 2%nat H1 H2) as [Hin Hout].
  exact (conj H1 (conj H2 (conj Hin Hout))).
Defined.

Lemma tile_count_witness :
  Domino.__init__ (fun _ => 0) (mkHeap [] []) = Ok ex_deal
  /\ Domino.result (Domino.initial ex_deal.1) ex_first_move 0 ex_deal.2
     = Ok ex_deal_after
  /\ Domino.result (Domino.initial ex_deal.1) ex_second_move 0 ex_deal_after.2
     = Ok ex_deal_sibling
  /\ reachable ex_deal_after.2 ex_deal_after.1 1
  /\ len (seq_of ex_deal_after.2 (GameState.pedras ex_deal_after.1)) = 6
  /\ len (seq_of ex_deal_after.2 (GameState.pedras_restantes ex_deal_after.1)) = 21
  /\ reachable ex_deal_sibling.2 ex_deal_sibling.1 1
  /\ len (seq_of ex_deal_sibling.2 (GameState.pedras ex_deal_sibling.1))
     + len (seq_of ex_deal_sibling.2 (GameState.pedras_restantes ex_deal_sibling.1))
     + 1 = 28
  /\ reachable ex_deal_sibling.2 ex_deal_after.1 1
  /\ len (seq_of ex_deal_sibling.2 (GameState.pedras ex_deal_after.1))
     + len (seq_of ex_deal_sibling.2 (GameState.pedras_restantes ex_deal_after.1))
     + 1 = 28.
Proof.
  assert (H1 : Domino.__init__ (fun _ => 0) (mkHeap [] []) = Ok (ex_deal.1, ex_deal.2))
    by (vm_compute; reflexivity).
  assert (H2 : Domino.result (Domino.initial ex_deal.1) ex_first_move 0 ex_deal.2
               = Ok (ex_deal_after.1, ex_deal_after.2))
    by (vm_compute; reflexivity).
  assert (H3 : Domino.result (Domino.initial ex_deal.1) ex_second_move 0 ex_deal_after.2
               = Ok (ex_deal_sibling.1, ex_deal_sibling.2))
    by (vm_compute; reflexivity).
  pose proof (reach_deal _ _ _ _ H1) as R0.
  pose proof (reach_result _ _ _ _ _ _ _ R0 H2) as R1.
  change (played_after ex_deal.2 ex_first_move 0) with 1 in R1.
  pose proof (reach_after_result _ _ _ _ _ _ _ _ _ R0 R0 H2) as R0'.
  pose proof (reach_result _ _ _ _ _ _ _ R0' H3) as R2.
  change (played_after ex_deal_after.2 ex_second_move 0) with 1 in R2.
  destruct tile_count_invariant as (_ & Hinv & _ & Hlater).
  destruct (Hlater _ _ _ _ _ ex_deal_sibling.2 R1 R0'
              (or_introl (ex_intro _ ex_second_move
                            (ex_intro _ 0 (ex_intro _ ex_deal_sibling.1 H3)))))
    as (R1' & Hcount1).
  refine (conj H1 (conj H2 (conj H3 (conj R1 (conj eq_refl (conj eq_refl
            (conj R2 (conj (Hinv _ _ _ R2) (conj R1' Hcount1))))))))).
Defined.

(** C10 as stated fails: for seat 3 the heuristic raises no error; it
    returns [None]. *)
Lemma eval_seat3_returns_none :
  Domino.eval (F := float) ex_state 3 ex_heap = Ok (None, ex_heap)
  /\ forall e, Domino.eval (F := float) ex_state 3 ex_heap <> Err e.
Proof.
  assert (H : Domino.eval (F := float) ex_state 3 ex_heap = Ok (None, ex_heap))
    by (vm_compute; reflexivity).
  split; [exact H|]. intros e. rewrite H. discriminate.
Qed.

Lemma eval_profiles_witness :
  ends_together (GameState.ponta1 ex_state) (GameState.ponta2 ex_state)
  /\ exists h',
       Domino.eval (F := float) ex_state 3 ex_heap = Ok (None, h')
       /\ Domino.eval (F := float) ex_state 0 ex_heap
          = Ok (Some (-0x1.d111111111112p+2)%float, h').
Proof.
  assert (H1 : ends_together (GameState.ponta1 ex_state) (GameState.ponta2 ex_state))
    by (intros _; discriminate).
  destruct (eval_profiles (F := float) ex_state 3 ex_heap H1)
    as (ms & h' & Hm & _ & _ & _ & H3).
  assert (Hh : h' = ex_heap).
  { vm_compute in Hm. now injection Hm as _ <-. }
  split; [exact H1|]. exists h'. split; [apply H3; discriminate|].
  rewrite Hh. vm_compute. reflexivity.
Defined.

(** * The rest of the program *)

(** ** Tiles *)

(** X1.  [Pedra.__eq__] is an equivalence of tiles that looks at the two pips
    only: it holds between a tile and itself, either way round, through a
    third tile, between a tile and the same tile turned over, and whatever
    the [position] of either. *)
Theorem pedra_eq_equivalence :
  (forall p, Pedra.__eq__ p p = true)
  /\ (forall p q, Pedra.__eq__ p q = Pedra.__eq__ q p)
  /\ (forall p q r, Pedra.__eq__ p q = true -> Pedra.__eq__ q r = true ->
                    Pedra.__eq__ p r = true)
  /\ (forall a b k k', Pedra.__eq__ (Pedra.make (a, b) k) (Pedra.make (b, a) k') = true)
  /\ (forall p q k k',
        Pedra.__eq__ (Pedra.set_position p k) (Pedra.set_position q k')
        = Pedra.__eq__ p q).
Proof.
  unfold Pedra.__eq__. repeat split.
  - intros p. now rewrite !Z.eqb_refl.
  - intros p q.
    rewrite (Z.eqb_sym (Pedra.valor p).1 (Pedra.valor q).1),
            (Z.eqb_sym (Pedra.valor p).2 (Pedra.valor q).2),
            (Z.eqb_sym (Pedra.valor p).1 (Pedra.valor q).2),
            (Z.eqb_sym (Pedra.valor p).2 (Pedra.valor q).1).
    f_equal. apply andb_comm.
  - intros p q r Hpq Hqr.
    apply orb_true_iff in Hpq. apply orb_true_iff in Hqr. apply orb_true_iff.
    rewrite !andb_true_iff, !Z.eqb_eq in *. lia.
  - intros a b k k'. cbn. rewrite !Z.eqb_refl. now rewrite orb_true_r.
Qed.

(** X2.  [Pedra.igual] is sound: it answers [True] only for an end tile
    whose [position] is -1, 0 or 1 and with which the tile shares a pip.
    Against a [position] of 0 it holds exactly when the tile carries the
    first pip of the end tile, against 1 exactly when it carries the
    second. *)
Theorem igual_open_pip (self p : Pedra.t) :
  (Pedra.igual self p = true ->
   (Pedra.position p = -1 \/ Pedra.position p = 0 \/ Pedra.position p = 1)
   /\ ((Pedra.valor self).1 = (Pedra.valor p).1
       \/ (Pedra.valor self).1 = (Pedra.valor p).2
       \/ (Pedra.valor self).2 = (Pedra.valor p).1
       \/ (Pedra.valor self).2 = (Pedra.valor p).2))
  /\ (Pedra.position p = 0 ->
      (Pedra.igual self p = true
       <-> (Pedra.valor self).1 = (Pedra.valor p).1
           \/ (Pedra.valor self).2 = (Pedra.valor p).1))
  /\ (Pedra.position p = 1 ->
      (Pedra.igual self p = true
       <-> (Pedra.valor self).1 = (Pedra.valor p).2
           \/ (Pedra.valor self).2 = (Pedra.valor p).2)).
Proof.
  unfold Pedra.igual.
  destruct (Z.eqb_spec (Pedra.position p) (-1)) as [E1|E1];
    destruct (Z.eqb_spec (Pedra.position p) 0) as [E0|E0];
    destruct (Z.eqb_spec (Pedra.position p) 1) as [E2|E2];
    try lia; cbn [andb];
    destruct (Z.eqb_spec (Pedra.valor self).1 (Pedra.valor p).1);
    destruct (Z.eqb_spec (Pedra.valor self).2 (Pedra.valor p).2);
    destruct (Z.eqb_spec (Pedra.valor self).2 (Pedra.valor p).1);
    destruct (Z.eqb_spec (Pedra.valor self).1 (Pedra.valor p).2);
    cbn [orb];
    (split; [|split]); try (intros; lia); try (intros _; lia);
    try (intros _; split; intros; (lia || discriminate || reflexivity || tauto));
    try (intros; discriminate).
Qed.

(** X3.  Against the first tile of the board, whose [position] is still -1,
    [Pedra.igual] holds exactly when the first pips agree, the second pips
    agree, or the tile's second pip is the end tile's first: a tile whose
    only link is its first pip with the end tile's second is not matched. *)
Theorem igual_first_tile (self p : Pedra.t) :
  Pedra.position p = -1 ->
  (Pedra.igual self p = true
   <-> (Pedra.valor self).1 = (Pedra.valor p).1
       \/ (Pedra.valor self).2 = (Pedra.valor p).2
       \/ (Pedra.valor self).2 = (Pedra.valor p).1)
  /\ ((Pedra.valor self).1 = (Pedra.valor p).2 ->
      (Pedra.valor self).1 <> (Pedra.valor p).1 ->
      (Pedra.valor self).2 <> (Pedra.valor p).2 ->
      (Pedra.valor self).2 <> (Pedra.valor p).1 ->
      Pedra.igual self p = false).
Proof.
  intros E. unfold Pedra.igual. rewrite E. cbn [Z.eqb andb].
  destruct (Z.eqb_spec (Pedra.valor self).1 (Pedra.valor p).1);
    destruct (Z.eqb_spec (Pedra.valor self).2 (Pedra.valor p).2);
    destruct (Z.eqb_spec (Pedra.valor self).2 (Pedra.valor p).1);
    cbn [orb]; split; try (split; intros; (lia || discriminate || reflexivity || tauto));
    intros; (lia || reflexivity).
Qed.

(** ** The features of the heuristic *)

Lemma buchas_step_acc (h : Heap) (ps : list loc) :
  forall a,
    fold_left
      (fun res pedra =>
         let p := obj h pedra in
         if (Pedra.valor p).1 =? (Pedra.valor p).2 then
           if negb ((Pedra.valor p).1 =? 0) then res + (Pedra.valor p).1
           else res + 1
         else res) ps a
    = a + Domino.buchas h ps.
Proof.
  unfold Domino.buchas.
  induction ps as [|p ps IH]; intros a; cbn [fold_left]; [lia|].
  rewrite IH. rewrite (IH (if _ =? _ then _ else _)). cbv zeta.
  destruct (_ =? _); [destruct (negb _)|]; lia.
Qed.

Lemma buchas_cons (h : Heap) (p : loc) (ps : list loc) :
  Domino.buchas h (p :: ps)
  = (if is_double (obj h p)
     then (if (Pedra.valor (obj h p)).1 =? 0 then 1 else (Pedra.valor (obj h p)).1)
     else 0)
    + Domino.buchas h ps.
Proof.
  unfold Domino.buchas at 1. cbn [fold_left]. rewrite buchas_step_acc.
  cbv zeta. unfold is_double.
  destruct (_ =? (Pedra.valor (obj h p)).2); [|reflexivity].
  destruct (_ =? 0); reflexivity.
Qed.

(** X4.  On tiles whose pips are not negative, [buchas] is 0 exactly when
    the hand holds no double, and it is at least the number of doubles held:
    the double blank counts 1, every other double its pip. *)
Theorem buchas_counts_doubles (h : Heap) (pedras : list loc) :
  Forall (fun l => 0 <= (Pedra.valor (obj h l)).1) pedras ->
  len (List.filter (fun l => is_double (obj h l)) pedras) <= Domino.buchas h pedras
  /\ (Domino.buchas h pedras = 0
      <-> Forall (fun l => is_double (obj h l) = false) pedras).
Proof.
  induction 1 as [|p ps Hp Hps [IH1 IH2]].
  - split; [reflexivity|]. split; [constructor | reflexivity].
  - rewrite buchas_cons. cbn [List.filter].
    destruct (is_double (obj h p)) eqn:Ed.
    + assert (1 <= (if (Pedra.valor (obj h p)).1 =? 0 then 1
                    else (Pedra.valor (obj h p)).1)).
      { destruct (Z.eqb_spec (Pedra.valor (obj h p)).1 0); lia. }
      split.
      * unfold len in *. cbn [length]. lia.
      * split; [|intros HF; apply Forall_cons in HF as [HF _]; congruence].
        pose proof (len_nonneg (List.filter (fun l => is_double (obj h l)) ps)). lia.
    + split; [lia|]. rewrite Z.add_0_l, IH2. split.
      * intros HF. now constructor.
      * intros HF. now apply Forall_cons in HF as [_ HF].
Qed.

Lemma marca_nipes_flags (p : Pedra.t) (b0 b1 b2 b3 b4 b5 b6 : bool) :
  Domino.marca_nipes p [b0; b1; b2; b3; b4; b5; b6]
  = [b0 || has_suit p 0; b1 || has_suit p 1; b2 || has_suit p 2;
     b3 || has_suit p 3; b4 || has_suit p 4; b5 || has_suit p 5;
     b6 || has_suit p 6].
Proof.
  unfold Domino.marca_nipes, has_suit. cbn [seq fold_left].
  change (Z.of_nat 0) with 0. change (Z.of_nat 1) with 1.
  change (Z.of_nat 2) with 2. change (Z.of_nat 3) with 3.
  change (Z.of_nat 4) with 4. change (Z.of_nat 5) with 5.
  change (Z.of_nat 6) with 6.
  destruct ((0 =? (Pedra.valor p).1) || (0 =? (Pedra.valor p).2));
    destruct ((1 =? (Pedra.valor p).1) || (1 =? (Pedra.valor p).2));
    destruct ((2 =? (Pedra.valor p).1) || (2 =? (Pedra.valor p).2));
    destruct ((3 =? (Pedra.valor p).1) || (3 =? (Pedra.valor p).2));
    destruct ((4 =? (Pedra.valor p).1) || (4 =? (Pedra.valor p).2));
    destruct ((5 =? (Pedra.valor p).1) || (5 =? (Pedra.valor p).2));
    destruct ((6 =? (Pedra.valor p).1) || (6 =? (Pedra.valor p).2));
    cbn; rewrite ?orb_true_r, ?orb_false_r; reflexivity.
Qed.

Lemma nipes_loop (h : Heap) (hand : list loc) :
  forall b0 b1 b2 b3 b4 b5 b6 : bool,
    fold_left (fun nipes pedra => Domino.marca_nipes (obj h pedra) nipes) hand
      [b0; b1; b2; b3; b4; b5; b6]
    = [b0 || existsb (fun l => has_suit (obj h l) 0) hand;
       b1 || existsb (fun l => has_suit (obj h l) 1) hand;
       b2 || existsb (fun l => has_suit (obj h l) 2) hand;
       b3 || existsb (fun l => has_suit (obj h l) 3) hand;
       b4 || existsb (fun l => has_suit (obj h l) 4) hand;
       b5 || existsb (fun l => has_suit (obj h l) 5) hand;
       b6 || existsb (fun l => has_suit (obj h l) 6) hand].
Proof.
  induction hand as [|p hand IH]; intros; cbn [fold_left existsb].
  - now rewrite !orb_false_r.
  - rewrite marca_nipes_flags, IH. now rewrite !orb_assoc.
Qed.

(** X5.  [checa_diversidade_max] is the number of suits, among 0 to 6, that
    some tile of the hand carries; it lies between 0 and 7. *)
Theorem checa_diversidade_counts_suits (h : Heap) (state : GameState.t) :
  Domino.checa_diversidade_max h state
  = len (suits_held h (seq_of h (GameState.pedras state)))
  /\ 0 <= Domino.checa_diversidade_max h state <= 7.
Proof.
  assert (E : Domino.checa_diversidade_max h state
              = len (suits_held h (seq_of h (GameState.pedras state)))).
  { unfold Domino.checa_diversidade_max, suits_held.
    change (replicate 7 false) with [false; false; false; false; false; false; false].
    rewrite nipes_loop. cbn [orb].
    change (Domino.range 7) with [0; 1; 2; 3; 4; 5; 6].
    cbn [List.filter fold_left].
    destruct (existsb (fun l => has_suit (obj h l) 0) _);
      destruct (existsb (fun l => has_suit (obj h l) 1) _);
      destruct (existsb (fun l => has_suit (obj h l) 2) _);
      destruct (existsb (fun l => has_suit (obj h l) 3) _);
      destruct (existsb (fun l => has_suit (obj h l) 4) _);
      destruct (existsb (fun l => has_suit (obj h l) 5) _);
      destruct (existsb (fun l => has_suit (obj h l) 6) _);
      reflexivity. }
  split; [exact E|]. rewrite E. unfold suits_held.
  split; [apply len_nonneg|].
  unfold len.
  pose proof (filter_length_le
    (fun k => existsb (fun l => has_suit (obj h l) k) (seq_of h (GameState.pedras state)))
    (Domino.range 7)) as Hle.
  change (length (Domino.range 7)) with 7%nat in Hle. lia.
Qed.

(** ** The legal moves *)

(** X6.  On a board whose ends are set together, [moves] returns, and never
    an empty list; every move it returns has selector -1, 0 or 1 and plays a
    tile of the relevant list, or is the pass, whose sentinel tile is the
    one object the call may add to the store. *)
Theorem moves_offers_a_move (to_move : Z) (pedras pedras_restantes : loc)
    (p1 p2 : option loc) (player : Z) (h : Heap) :
  ends_together p1 p2 ->
  exists (ms : list Move) (h' : Heap),
    Domino.moves to_move pedras pedras_restantes p1 p2 player h = Ok (ms, h')
    /\ ms <> []
    /\ (h' = h \/ h' = with_sentinel h)
    /\ (forall m, In m ms ->
          (m.2 = -1 \/ m.2 = 0 \/ m.2 = 1)
          /\ (In m.1 (seq_of h (if to_move =? player then pedras else pedras_restantes))
              \/ m = (length (objs h), -1) /\ h' = with_sentinel h)).
Proof.
  intros He.
  destruct p1 as [e1|].
  - destruct p2 as [e2|]; [|exfalso; now apply He].
    rewrite moves_set.
    destruct (placements h e1 e2 _) as [|m0 ms0] eqn:Ep.
    + eexists _, _. split; [reflexivity|]. split; [discriminate|].
      split; [now right|].
      intros m [<-|[]]. split; [now left | now right].
    + eexists _, _. split; [reflexivity|]. split; [discriminate|].
      split; [now left|].
      intros m Hm. rewrite <- Ep in Hm.
      apply placements_selector in Hm as (Hin & [(E & _) | (E & _)]);
        (split; [lia | now left]).
  - rewrite moves_unset.
    eexists _, _. split; [reflexivity|]. split; [now destruct (free_placements _)|].
    split; [now right|].
    intros m Hm. apply in_app_or in Hm as [Hm | [<-|[]]].
    + unfold free_placements in Hm. apply in_map_iff in Hm as (l & <- & Hl).
      split; [now left | now left].
    + split; [now left | now right].
Qed.

(** X7.  On an empty board every tile of the relevant list is a legal move,
    with selector -1, and the pass is offered after them all the same: the
    list returned is one longer than the list of tiles. *)
Theorem moves_empty_board (to_move : Z) (pedras pedras_restantes : loc)
    (p2 : option loc) (player : Z) (h : Heap) :
  let xs := seq_of h (if to_move =? player then pedras else pedras_restantes) in
  Domino.moves to_move pedras pedras_restantes None p2 player h
  = Ok (map (fun l => (l, -1)) xs ++ [(length (objs h), -1)], with_sentinel h)
  /\ obj (with_sentinel h) (length (objs h)) = Pedra.make (-1, -1) (-1)
  /\ len (map (fun l : loc => (l, -1)) xs ++ [(length (objs h), -1)]) = len xs + 1.
Proof.
  intros xs. split; [apply moves_unset|]. split.
  - unfold obj, with_sentinel. cbn [objs]. now rewrite list_lookup_middle.
  - rewrite len_app. unfold len. rewrite length_map. reflexivity.
Qed.



(** ** The transition, beyond the claims *)

(** X9.  Whenever [result] returns, for any move and any searching player,
    the turn has passed to the next of the four seats, the hand and the pool
    of the successor are two new list objects (never the lists of the input
    state), and the cached move list is the one [moves] computes from the
    successor's own turn, lists and ends. *)
Theorem result_recomputes_moves (state : GameState.t) (move : Move) (player : Z)
    (h : Heap) (s' : GameState.t) (h' : Heap) :
  Domino.result state move player h = Ok (s', h') ->
  GameState.to_move s' = (GameState.to_move state + 1) mod 4
  /\ 0 <= GameState.to_move s' < 4
  /\ GameState.pedras s' = length (lists h)
  /\ GameState.pedras_restantes s' = S (length (lists h))
  /\ exists h1,
       Domino.moves (GameState.to_move s') (GameState.pedras s')
         (GameState.pedras_restantes s') (GameState.ponta1 s') (GameState.ponta2 s')
         player h1
       = Ok (GameState.moves s', h').
Proof.
  intros Hr. unfold Domino.result in Hr.
  apply bindM_inv in Hr as (hand0 & h1 & E1 & Hr).
  apply bindM_inv in Hr as (pedras & h2 & E2 & Hr).
  apply bindM_inv in Hr as (rest0 & h3 & E3 & Hr).
  apply bindM_inv in Hr as (prest & h4 & E4 & Hr).
  apply bindM_inv in Hr as (u & h5 & E5 & Hr).
  apply bindM_inv in Hr as (m0 & h6 & E6 & Hr).
  apply bindM_inv in Hr as ([p1 p2] & h7 & E7 & Hr).
  apply bindM_inv in Hr as (ms & h8 & E8 & Hr).
  unfold ret in Hr. injection Hr as <- <-.
  unfold get_list in E1, E3. injection E1 as <- <-. 
  unfold new_list in E2. injection E2 as <- <-.
  injection E3 as <- <-.
  unfold new_list in E4. cbn [lists objs] in E4. injection E4 as <- <-.
  cbn [GameState.to_move GameState.pedras GameState.pedras_restantes
         GameState.ponta1 GameState.ponta2 GameState.moves].
  split; [reflexivity|].
  split; [apply Z.mod_pos_bound; lia|].
  split; [reflexivity|].
  split; [rewrite length_app; cbn [length]; lia|].
  exists h7. exact E8.
Qed.

(** X10.  A placement that returns rebinds the ends as the selector says:
    on an empty board both ends become the tile placed, whose [position] is
    given -1; on a board with ends, selector 0 makes it end 1 and selector 1
    end 2, the other end staying; any other selector leaves both ends as
    they were.  No tile ever changes its pips. *)
Theorem placement_sets_end (state : GameState.t) (move : Move) (player : Z)
    (h : Heap) (s' : GameState.t) (h' : Heap) :
  valid_lists h state ->
  is_placement h move ->
  ends_together (GameState.ponta1 state) (GameState.ponta2 state) ->
  Domino.result state move player h = Ok (s', h') ->
  (GameState.ponta1 state = None ->
   GameState.ponta1 s' = Some move.1 /\ GameState.ponta2 s' = Some move.1
   /\ ((move.1 < length (objs h))%nat -> Pedra.position (obj h' move.1) = -1))
  /\ (GameState.ponta1 state <> None -> move.2 = 0 ->
      GameState.ponta1 s' = Some move.1
      /\ GameState.ponta2 s' = GameState.ponta2 state)
  /\ (GameState.ponta1 state <> None -> move.2 = 1 ->
      GameState.ponta1 s' = GameState.ponta1 state
      /\ GameState.ponta2 s' = Some move.1)
  /\ (GameState.ponta1 state <> None -> move.2 <> 0 -> move.2 <> 1 ->
      GameState.ponta1 s' = GameState.ponta1 state
      /\ GameState.ponta2 s' = GameState.ponta2 state)
  /\ (forall l, (l < length (objs h))%nat ->
        Pedra.valor (obj h' l) = Pedra.valor (obj h l)).
Proof.
  intros Hv Hp He Hr.
  rewrite (result_placement_run state move player h Hv Hp He) in Hr. cbv zeta in Hr.
  destruct (Domino.remove_first h move.1 _) as [r|e]; [|discriminate].
  apply bindM_inv in Hr as (ms & h1 & Hm & Hr).
  unfold ret in Hr. injection Hr as <- <-.
  cbn [GameState.ponta1 GameState.ponta2].
  set (hb := mkHeap _ _) in Hm.
  assert (Hobj : forall l, (l < length (objs h))%nat ->
                   obj h1 l = obj_of (placed_objs (objs h) (GameState.ponta1 state)
                                        (GameState.ponta2 state) move) l).
  { intros l Hl. apply moves_frame in Hm as [-> | ->]; [reflexivity|].
    unfold obj, with_sentinel, obj_of. cbn [objs hb].
    rewrite lookup_app_l; [reflexivity|]. now rewrite placed_length. }
  unfold placed_ends.
  destruct (GameState.ponta1 state) as [e1|] eqn:E1.
  - split; [discriminate|].
    split.
    { intros _ E. apply Z.eqb_eq in E. rewrite E. cbn [fst snd]. now split. }
    split.
    { intros _ E. assert (E0 : (move.2 =? 0) = false) by (apply Z.eqb_neq; lia).
      apply Z.eqb_eq in E. rewrite E0, E. cbn [fst snd]. now split. }
    split.
    { intros _ H0 H1'. apply Z.eqb_neq in H0. apply Z.eqb_neq in H1'.
      rewrite H0, H1'. cbn [fst snd]. now split. }
    intros l Hl. rewrite Hobj by assumption. apply placed_pips.
  - split.
    { intros _. cbn [fst snd]. split; [reflexivity|]. split; [reflexivity|].
      intros Hl. rewrite Hobj by assumption. cbn [placed_objs].
      rewrite obj_of_positioned. destruct (decide _) as [_|n]; [reflexivity|].
      exfalso. apply n. now split. }
    split; [intros Habs; contradiction|].
    split; [intros Habs; contradiction|].
    split; [intros Habs; contradiction|].
    intros l Hl. rewrite Hobj by assumption. apply placed_pips.
Qed.

Lemma remove_first_absent (h : Heap) (x : loc) (l : list loc) :
  Forall (fun y => Pedra.__eq__ (obj h y) (obj h x) = false) l ->
  Domino.remove_first h x l = Err ValueError.
Proof.
  induction 1 as [|y l Hy _ IH]; cbn [Domino.remove_first]; [reflexivity|].
  now rewrite Hy, IH.
Qed.

(** X11.  Placing a tile that the relevant list (the hand of the searching
    player when it moves, the pool otherwise) does not hold, by
    [Pedra.__eq__], is a [ValueError]: [list.remove] finds nothing to
    remove. *)
Theorem placement_of_absent_tile (state : GameState.t) (move : Move) (player : Z)
    (h : Heap) :
  valid_lists h state ->
  is_placement h move ->
  ends_together (GameState.ponta1 state) (GameState.ponta2 state) ->
  Forall (fun y => Pedra.__eq__ (obj h y) (obj h move.1) = false)
    (seq_of h (if GameState.to_move state =? player
               then GameState.pedras state
               else GameState.pedras_restantes state)) ->
  Domino.result state move player h = Err ValueError.
Proof.
  intros Hv Hp He Habs.
  rewrite (result_placement_run state move player h Hv Hp He). cbv zeta.
  rewrite remove_first_absent; [reflexivity|].
  now destruct (GameState.to_move state =? player).
Qed.

(** X12.  A pass on an empty board returns a successor marked -1, which
    [terminal_test] takes for terminal; the turn passes to the next seat,
    the board stays empty, the hand and the pool are copied unchanged, and
    the moves of the successor are every tile of its relevant list, in
    order and with selector -1, followed by the pass on a new sentinel
    tile. *)
Theorem pass_on_empty_board (state : GameState.t) (move : Move) (player : Z)
    (h : Heap) :
  valid_lists h state ->
  ~ is_placement h move ->
  GameState.ponta1 state = None ->
  exists (s' : GameState.t) (h' : Heap),
    Domino.result state move player h = Ok (s', h')
    /\ GameState.utility s' = -1
    /\ Domino.terminal_test s' = true
    /\ GameState.ponta1 s' = None
    /\ GameState.ponta2 s' = GameState.ponta2 state
    /\ seq_of h' (GameState.pedras s') = seq_of h (GameState.pedras state)
    /\ seq_of h' (GameState.pedras_restantes s')
       = seq_of h (GameState.pedras_restantes state)
    /\ len (GameState.moves s')
       = len (seq_of h' (if GameState.to_move s' =? player
                         then GameState.pedras s'
                         else GameState.pedras_restantes s')) + 1
    /\ GameState.to_move s' = (GameState.to_move state + 1) mod 4
    /\ GameState.moves s'
       = map (fun l => (l, -1))
           (seq_of h' (if GameState.to_move s' =? player
                       then GameState.pedras s'
                       else GameState.pedras_restantes s'))
         ++ [(length (objs h), -1)]
    /\ obj h' (length (objs h)) = Pedra.make (-1, -1) (-1).
Proof.
  intros Hv Hp H1.
  pose proof (result_pass_unset state move player h Hv Hp H1) as Hr.
  cbv zeta in Hr. eexists _, _. split; [exact Hr|].
  cbn [GameState.utility GameState.ponta1 GameState.ponta2 GameState.pedras
         GameState.pedras_restantes GameState.moves GameState.to_move].
  split; [reflexivity|]. split; [reflexivity|]. split; [reflexivity|].
  split; [reflexivity|].
  destruct h as [os ls]. cbn [objs lists].
  change (seq_of (with_sentinel ?x)) with (seq_of x).
  split; [apply seq_of_middle|]. split; [apply seq_of_second|].
  split.
  { rewrite len_app. unfold free_placements, len. rewrite length_map. reflexivity. }
  split; [reflexivity|].
  split; [reflexivity|].
  unfold obj, with_sentinel. cbn [objs]. now rewrite list_lookup_middle.
Qed.

(** ** The in-place sort of a blocked pass *)

Lemma insert_by_perm (key : loc -> Z) (x : loc) (l : list loc) :
  Permutation (Domino.insert_by key x l) (x :: l).
Proof.
  induction l as [|y l IH]; cbn [Domino.insert_by]; [reflexivity|].
  destruct (key x <=? key y); [reflexivity|].
  rewrite IH. apply perm_swap.
Qed.

Lemma sort_by_perm (key : loc -> Z) (l : list loc) :
  Permutation (Domino.sort_by key l) l.
Proof.
  unfold Domino.sort_by. induction l as [|x l IH]; cbn [fold_right]; [reflexivity|].
  rewrite insert_by_perm. now constructor.
Qed.

Lemma insert_by_sorted (key : loc -> Z) (x : loc) (l : list loc) :
  StronglySorted (fun a b => key a <= key b) l ->
  StronglySorted (fun a b => key a <= key b) (Domino.insert_by key x l).
Proof.
  induction 1 as [|y l Hs IH Hy]; cbn [Domino.insert_by].
  - repeat constructor.
  - destruct (Z.leb_spec (key x) (key y)) as [Hle|Hgt].
    + constructor; [now constructor|].
      constructor; [exact Hle|].
      eapply Forall_impl; [exact Hy|]. cbn. intros a Ha. lia.
    + constructor; [exact IH|].
      rewrite (insert_by_perm key x l). constructor; [lia | exact Hy].
Qed.

Lemma sort_by_sorted (key : loc -> Z) (l : list loc) :
  StronglySorted (fun a b => key a <= key b) (Domino.sort_by key l).
Proof.
  unfold Domino.sort_by. induction l as [|x l IH]; cbn [fold_right].
  - constructor.
  - now apply insert_by_sorted.
Qed.

(** X13.  A pass on a blocked board (both ends set, no tile of the pool or
    of the hand matching either) returns, and sorts the pool list of the
    input state in place: afterwards that list holds the same tiles in
    ascending order of pip sum, while the successor's own pool, copied
    before, keeps the old order.  No other list of the store and no tile
    changes. *)
Theorem blocked_pass_sorts_pool (state : GameState.t) (move : Move) (player : Z)
    (h : Heap) (e1 e2 : loc) :
  valid_lists h state ->
  ~ is_placement h move ->
  GameState.ponta1 state = Some e1 ->
  GameState.ponta2 state = Some e2 ->
  can_play h e1 e2 (seq_of h (GameState.pedras_restantes state)
                    ++ seq_of h (GameState.pedras state)) = false ->
  exists (s' : GameState.t) (h' : Heap),
    Domino.result state move player h = Ok (s', h')
    /\ Permutation (seq_of h' (GameState.pedras_restantes state))
         (seq_of h (GameState.pedras_restantes state))
    /\ StronglySorted (fun a b => pip_sum h a <= pip_sum h b)
         (seq_of h' (GameState.pedras_restantes state))
    /\ seq_of h' (GameState.pedras_restantes s')
       = seq_of h (GameState.pedras_restantes state)
    /\ (forall l, (l < length (lists h))%nat ->
          l <> GameState.pedras_restantes state -> seq_of h' l = seq_of h l)
    /\ (forall l, (l < length (objs h))%nat -> obj h' l = obj h l).
Proof.
  intros [Hv1 Hv2] Hp H1 H2 Hblocked.
  destruct h as [os ls]. cbn [lists objs] in *.
  set (hand0 := seq_of (mkHeap os ls) (GameState.pedras state)) in *.
  set (rest0 := seq_of (mkHeap os ls) (GameState.pedras_restantes state)) in *.
  set (sorted := Domino.sort_by (pip_sum (mkHeap os ls)) rest0).
  set (ls' := <[GameState.pedras_restantes state := sorted]> ls).
  assert (Hlen : length ls' = length ls) by apply length_insert.
  assert (E : ((Pedra.valor (obj (mkHeap os ls) move.1)).1 =? -1) = true).
  { apply Z.eqb_eq. unfold is_placement in Hp. lia. }
  assert (Hrun : exists ms hf,
            Domino.result state move player (mkHeap os ls)
            = Ok (GameState.make ((GameState.to_move state + 1) mod 4) (length ls)
                    (S (length ls)) (Some e1) (Some e2) ms
                    (if GameState.to_move state =? player then 4 else -1), hf)
            /\ (hf = mkHeap os (ls' ++ [hand0; rest0])
                \/ hf = with_sentinel (mkHeap os (ls' ++ [hand0; rest0])))).
  { unfold Domino.result.
    unfold bindM at 1. unfold get_list at 1.
    unfold bindM at 1. unfold new_list at 1.
    unfold bindM at 1. unfold get_list at 1.
    unfold bindM at 1. unfold new_list at 1.
    cbn [objs lists].
    rewrite (seq_of_app_l os ls [seq_of (mkHeap os ls) (GameState.pedras state)])
      by assumption.
    fold hand0 rest0. rewrite <- app_assoc. cbn [app].
    rewrite H1, H2.
    unfold bindM at 1.
    rewrite compute_utility_pass_set by exact Hp.
    rewrite !seq_of_app_l by assumption. fold hand0 rest0.
    change (can_play (mkHeap os (ls ++ [hand0; rest0])) e1 e2)
      with (can_play (mkHeap os ls) e1 e2).
    rewrite can_play_app in Hblocked. rewrite Hblocked.
    cbn [objs lists]. rewrite insert_app_l by assumption.
    change (pip_sum (mkHeap os (ls ++ [hand0; rest0]))) with (pip_sum (mkHeap os ls)).
    fold sorted ls'.
    unfold bindM at 1. unfold get_obj at 1.
    change (obj (mkHeap os (ls' ++ [hand0; rest0])) move.1)
      with (obj (mkHeap os ls) move.1).
    rewrite E. cbn [negb]. unfold bindM at 1. unfold ret at 1.
    unfold bindM at 1. rewrite moves_set. rewrite length_app. cbn [length].
    rewrite Nat.add_1_r.
    destruct (placements _ e1 e2 _); eexists _, _; (split; [reflexivity|]);
      [now right | now left]. }
  destruct Hrun as (ms & hf & Hr & Hf).
  exists (GameState.make ((GameState.to_move state + 1) mod 4) (length ls)
            (S (length ls)) (Some e1) (Some e2) ms
            (if GameState.to_move state =? player then 4 else -1)), hf.
  split; [exact Hr|].
  assert (Hseq : forall l, seq_of hf l = seq_of (mkHeap os (ls' ++ [hand0; rest0])) l).
  { intros l. destruct Hf as [-> | ->]; reflexivity. }
  assert (Hobj : forall l, (l < length os)%nat -> obj hf l = obj (mkHeap os ls) l).
  { intros l Hl. destruct Hf as [-> | ->]; [reflexivity|].
    unfold obj, with_sentinel. cbn [objs]. now rewrite lookup_app_l. }
  cbn [GameState.pedras_restantes].
  assert (Hpool : seq_of hf (GameState.pedras_restantes state) = sorted).
  { rewrite Hseq. rewrite seq_of_app_l by lia. unfold ls'.
    now apply seq_of_insert_eq. }
  split; [rewrite Hpool; apply sort_by_perm|].
  split; [rewrite Hpool; apply sort_by_sorted|].
  split.
  { rewrite Hseq. rewrite <- Hlen. apply seq_of_second. }
  split; [|exact Hobj].
  intros l Hl Hne. rewrite Hseq. rewrite seq_of_app_l by lia.
  unfold ls'. apply seq_of_insert_ne. congruence.
Qed.

(** ** The chance model, beyond the claims *)

(** X14.  When seat 0 is to move, whoever the searching player is, [chances]
    returns exactly one event, of category 0, carrying the legal moves of
    the state, their number and the size of the hand; it touches nothing,
    and [probability] gives that event the integer 1. *)
Theorem chances_seat0_single_event {F : Type} `{Arith F} (state : GameState.t)
    (h : Heap) :
  GameState.to_move state = 0 ->
  Domino.chances state h
  = Ok ([(0, GameState.moves state, len (GameState.moves state),
          len (seq_of h (GameState.pedras state)))], h)
  /\ Domino.probability (F := F)
       (0, GameState.moves state, len (GameState.moves state),
        len (seq_of h (GameState.pedras state)))
     = Ok (of_Z 1).
Proof.
  intros E. split; [now apply chances_seat0 | reflexivity].
Qed.


(** X16.  When another seat is to move and the pool is empty, every event
    that [chances] returns has a [probability] that raises
    [ZeroDivisionError]: each one divides by the size of the pool. *)
Theorem chances_empty_pool {F : Type} `{Arith F} (state : GameState.t) (h : Heap) :
  GameState.to_move state <> 0 ->
  seq_of h (GameState.pedras_restantes state) = [] ->
  exists (cs : list Chance) (h' : Heap),
    Domino.chances state h = Ok (cs, h')
    /\ cs <> []
    /\ Forall (fun c => Domino.probability (F := F) c = Err ZeroDivisionError) cs.
Proof.
  intros Hseat Hpool.
  pose proof (chances_other_seat state h Hseat) as Hc. cbv zeta in Hc.
  rewrite Hpool in Hc. change (len []) with 0 in Hc.
  eexists _, _. split; [exact Hc|].
  split.
  { destruct (0 <? _); destruct (0 <? _); discriminate. }
  destruct (0 <? _); destruct (0 <? _); repeat constructor.
Qed.

(** ** The per-seat heuristics *)

(** X17.  [eval_1] never returns a value: once [moves] has returned it
    multiplies 0.5 by the list of moves, a [TypeError]; on a board whose
    ends are set together that is the error raised. *)
Theorem eval_1_never_returns {F : Type} `{Arith F} (state : GameState.t)
    (player : Z) (h : Heap) :
  (exists e, Domino.eval_1 (F := F) state player h = Err e)
  /\ (ends_together (GameState.ponta1 state) (GameState.ponta2 state) ->
      Domino.eval_1 (F := F) state player h = Err TypeError).
Proof.
  unfold Domino.eval_1, bindM.
  split.
  - destruct (Domino.moves _ _ _ _ _ _ h) as [[ms h1]|e]; eauto.
  - intros He.
    destruct (moves_returns player (GameState.pedras state)
                (GameState.pedras_restantes state) _ _ player h He)
      as (ms & h1 & Hm & _).
    now rewrite Hm.
Qed.

(** [eval_2] is the seat-2 case of [eval]. *)
Lemma eval_2_eq {F : Type} `{Arith F} (state : GameState.t)
    (h : Heap) :
  Domino.eval (F := F) state 2 h
  = match Domino.eval_2 (F := F) state 2 h with
    | Ok (x, h') => Ok (Some x, h')
    | Err e => Err e
    end.
Proof.
  cbv [Domino.eval Domino.eval_2 bindM get_list liftR truediv reading ret].
  cbn [Z.eqb Pos.eqb].
  destruct (Domino.moves _ _ _ _ _ _ h) as [[ms h1]|e]; reflexivity.
Qed.

Lemma soma_valores_ext (h h' : Heap) (ps : list loc) :
  Forall (fun l => obj h' l = obj h l) ps ->
  Domino.soma_valores h' ps = Domino.soma_valores h ps.
Proof.
  intros HF. unfold Domino.soma_valores. generalize 0.
  induction HF as [|p ps Hp _ IH]; intros a; cbn [fold_left]; [reflexivity|].
  now rewrite Hp, IH.
Qed.

Lemma obj_with_sentinel (h : Heap) (l : loc) :
  (l < length (objs h))%nat -> obj (with_sentinel h) l = obj h l.
Proof.
  intros Hl. unfold obj, with_sentinel. cbn [objs]. now rewrite lookup_app_l.
Qed.

(** X18.  The per-seat heuristics agree with [eval].  [eval_0] always
    returns and leaves the store as it was; on a hand of tiles of the store
    its value is the one [eval] returns for seat 0 whenever [eval] returns,
    which it does on every board whose ends are set together ([eval]
    computes the move list besides, which it does not use for that seat).
    [eval_2] called for seat 2 computes the same features in the same order
    as [eval] and returns the same value, or raises the same error. *)
Theorem seat_heuristics_agree_with_eval {F : Type} `{Arith F} (state : GameState.t)
    (player : Z) (h : Heap) :
  Forall (fun l => (l < length (objs h))%nat) (seq_of h (GameState.pedras state)) ->
  (exists x : F,
     Domino.eval_0 state player h = Ok (x, h)
     /\ (forall v h', Domino.eval state 0 h = Ok (v, h') -> v = Some x)
     /\ (ends_together (GameState.ponta1 state) (GameState.ponta2 state) ->
         exists h', Domino.eval state 0 h = Ok (Some x, h')))
  /\ Domino.eval (F := F) state 2 h
     = match Domino.eval_2 (F := F) state 2 h with
       | Ok (x, h') => Ok (Some x, h')
       | Err e => Err e
       end.
Proof.
  intros Hobjs. split; [|apply eval_2_eq].
  eexists. split.
  { cbv [Domino.eval_0 bindM get_list liftR truediv reading ret].
    cbn [Z.eqb]. reflexivity. }
  assert (Hsoma : forall h1, h1 = h \/ h1 = with_sentinel h ->
            Domino.soma_pedras_max h1 state = Domino.soma_pedras_max h state).
  { intros h1 [-> | ->]; [reflexivity|].
    unfold Domino.soma_pedras_max.
    change (seq_of (with_sentinel h)) with (seq_of h).
    apply soma_valores_ext.
    eapply Forall_impl; [exact Hobjs|]. intros l Hl. now apply obj_with_sentinel. }
  split.
  - intros v h'. cbv [Domino.eval bindM get_list liftR truediv reading ret].
    cbn [Z.eqb].
    destruct (Domino.moves _ _ _ _ _ _ h) as [[ms h1]|e] eqn:Hm; [|discriminate].
    intros E. injection E as <- <-.
    now rewrite (Hsoma h1 (moves_frame _ _ _ _ _ _ _ _ _ Hm)).
  - intros He.
    destruct (moves_returns 0 (GameState.pedras state)
                (GameState.pedras_restantes state) _ _ 0 h He)
      as (ms & h1 & Hm & Hf).
    exists h1. cbv [Domino.eval bindM get_list liftR truediv reading ret].
    cbn [Z.eqb]. rewrite Hm. now rewrite (Hsoma h1 Hf).
Qed.

(** ** The move chosen *)

Lemma argmax_from_in {F A : Type} `{Ord F} (key : A -> M (option F)) (l : list A) :
  forall (best : A) (kbest : option F) (h : Heap) (a : A) (h' : Heap),
    argmax_from key best kbest l h = Ok (a, h') -> a = best \/ In a l.
Proof.
  induction l as [|x l IH]; intros best kbest h a h' Hr; cbn [argmax_from] in Hr.
  - unfold ret in Hr. injection Hr as <- <-. now left.
  - apply bindM_inv in Hr as (k & h1 & _ & Hr).
    apply bindM_inv in Hr as (kb & h2 & _ & Hr).
    apply bindM_inv in Hr as (kn & h3 & _ & Hr).
    destruct (flt kb kn); apply IH in Hr as [-> | Hin];
      cbn [In]; auto.
Qed.

(** X20.  Whenever [expectiminimax] returns, the move it returns is one of
    the legal moves cached in the state it was called on. *)
Theorem expectiminimax_returns_legal_move {F : Type} `{Arith F} `{Ord F}
    (state : GameState.t) (h : Heap) (m : Move) (h' : Heap) :
  expectiminimax (F := F) state h = Ok (m, h') ->
  In m (GameState.moves state).
Proof.
  unfold expectiminimax. intros Hr.
  apply bindM_inv in Hr as (hand & h1 & _ & Hr).
  unfold argmax, Domino.actions in Hr.
  destruct (GameState.moves state) as [|a l]; [discriminate|].
  apply bindM_inv in Hr as (k & h2 & _ & Hr).
  apply argmax_from_in in Hr as [-> | Hin]; cbn [In]; auto.
Qed.

(** X21.  [random_player] returns one of the legal moves cached in the
    state, whatever the draw; it raises ([IndexError]) only on a state with
    no move at all. *)
Theorem random_player_returns_legal_move (r : Z) (state : GameState.t) :
  (GameState.moves state <> [] ->
   exists m, random_player r state = Ok m /\ In m (GameState.moves state))
  /\ (GameState.moves state = [] -> random_player r state = Err IndexError).
Proof.
  unfold random_player, random_choice, Domino.actions.
  split.
  - intros Hne.
    assert (Hpos : 0 < len (GameState.moves state)).
    { destruct (GameState.moves state); [contradiction|]. unfold len. cbn [length]. lia. }
    assert (E : (len (GameState.moves state) =? 0) = false) by (apply Z.eqb_neq; lia).
    rewrite E. unfold py_index.
    pose proof (Z.mod_pos_bound r _ Hpos) as Hb.
    assert (E1 : (r mod len (GameState.moves state) <? 0) = false)
      by (apply Z.ltb_ge; lia).
    rewrite E1, E1.
    assert (E2 : (len (GameState.moves state) <=? r mod len (GameState.moves state)) = false)
      by (apply Z.leb_gt; lia).
    rewrite E2. cbn [orb].
    destruct (GameState.moves state !! Z.to_nat (r mod len (GameState.moves state)))
      as [m|] eqn:El.
    + exists m. split; [reflexivity|]. apply list_elem_of_In. eapply list_elem_of_lookup_2, El.
    + apply lookup_ge_None in El. unfold len in *. lia.
  - intros ->. reflexivity.
Qed.

(** ** The tiles and the deal, beyond the claims *)

Lemma cria_row_tiles (i : Z) (js : list Z) :
  forall (ps : list loc) (h : Heap),
    foldM (fun pedras j =>
             if j <=? i then
               do p <- new_obj (Pedra.make (i, j) (-1));
               ret (pedras ++ [p])
             else ret pedras) js ps h
    = Ok (ps ++ seq (length (objs h))
                  (length (List.filter (fun j => Z.leb j i) js)),
          mkHeap (objs h ++ map (fun j => Pedra.make (i, j) (-1))
                              (List.filter (fun j => Z.leb j i) js))
            (lists h)).
Proof.
  induction js as [|j js IH]; intros ps h; cbn [foldM List.filter].
  - cbn [map length seq]. unfold ret. rewrite !app_nil_r. now destruct h.
  - unfold bindM at 1. destruct (j <=? i).
    + unfold bindM at 1. unfold new_obj at 1. unfold ret at 1.
      rewrite IH. cbn [objs lists map length seq].
      rewrite length_app. cbn [length]. rewrite Nat.add_1_r.
      rewrite <- !app_assoc. reflexivity.
    + unfold ret at 1. apply IH.
Qed.

Lemma cria_rows_tiles (js : list Z) (ixs : list Z) :
  forall (ps : list loc) (h : Heap),
    let tiles :=
      flat_map (fun i => map (fun j => Pedra.make (i, j) (-1))
                           (List.filter (fun j => Z.leb j i) js)) ixs in
    foldM (fun pedras i =>
             foldM (fun pedras j =>
                      if j <=? i then
                        do p <- new_obj (Pedra.make (i, j) (-1));
                        ret (pedras ++ [p])
                      else ret pedras) js pedras) ixs ps h
    = Ok (ps ++ seq (length (objs h)) (length tiles),
          mkHeap (objs h ++ tiles) (lists h)).
Proof.
  induction ixs as [|i ixs IH]; intros ps h; cbn [foldM flat_map].
  - cbn [length seq]. unfold ret. rewrite !app_nil_r. now destruct h.
  - unfold bindM at 1. rewrite cria_row_tiles.
    cbv zeta in IH. rewrite IH. cbn [objs lists].
    rewrite !length_app, length_map. rewrite seq_app.
    rewrite <- !app_assoc. reflexivity.
Qed.

Lemma double_six_length : length double_six = 28%nat.
Proof. reflexivity. Qed.

Lemma cria_domino_eq (h : Heap) :
  Domino.cria_domino h
  = Ok (seq (length (objs h)) 28, mkHeap (objs h ++ double_six) (lists h)).
Proof.
  unfold Domino.cria_domino. rewrite cria_rows_tiles. cbv zeta.
  fold double_six. rewrite double_six_length. reflexivity.
Qed.

(** X22.  [cria_domino] always returns, having added to the store the 28
    tiles of the double-six set and nothing else: one tile [(i, j)] for
    every [6 >= i >= j >= 0], each unplaced ([position] -1), no two of them
    equal by [Pedra.__eq__]; the list it returns refers to them in the
    order of their creation. *)
Theorem cria_domino_tiles (h : Heap) :
  Domino.cria_domino h
  = Ok (seq (length (objs h)) 28, mkHeap (objs h ++ double_six) (lists h))
  /\ length double_six = 28%nat
  /\ (forall i j, 0 <= j <= i -> i <= 6 -> In (Pedra.make (i, j) (-1)) double_six)
  /\ (forall p, In p double_six ->
        0 <= (Pedra.valor p).2 <= (Pedra.valor p).1
        /\ (Pedra.valor p).1 <= 6 /\ Pedra.position p = -1)
  /\ (forall a b p q, double_six !! a = Some p -> double_six !! b = Some q ->
        a <> b -> Pedra.__eq__ p q = false).
Proof.
  split; [apply cria_domino_eq|].
  split; [reflexivity|].
  split.
  { intros i j Hj Hi.
    assert (Hi' : In i (Domino.range 7)) by (apply range_In; lia).
    assert (Hj' : In j (Domino.range 7)) by (apply range_In; lia).
    unfold double_six. apply in_flat_map. exists i. split; [exact Hi'|].
    apply (in_map (fun j => Pedra.make (i, j) (-1))). apply filter_In. split; [exact Hj'|]. apply Z.leb_le. lia. }
  split.
  { intros p Hp. unfold double_six in Hp.
    apply in_flat_map in Hp as (i & Hi & Hp).
    apply in_map_iff in Hp as (j & <- & Hj).
    apply filter_In in Hj as [Hj Hle]. apply Z.leb_le in Hle.
    unfold Domino.range in Hi, Hj.
    apply in_map_iff in Hi as (ni & <- & Hi). apply in_seq in Hi.
    apply in_map_iff in Hj as (nj & <- & Hj). apply in_seq in Hj.
    cbn [Pedra.valor Pedra.position fst snd]. lia. }
  assert (Hall : distinct_tiles double_six = true) by (vm_compute; reflexivity).
  intros a b p q Ha Hb Hab.
  unfold distinct_tiles in Hall. rewrite forallb_forall in Hall.
  assert (Hla : (a < length double_six)%nat) by (apply lookup_lt_is_Some; eauto).
  assert (Hlb : (b < length double_six)%nat) by (apply lookup_lt_is_Some; eauto).
  specialize (Hall a ltac:(apply in_seq; lia)).
  rewrite forallb_forall in Hall.
  specialize (Hall b ltac:(apply in_seq; lia)).
  rewrite Ha, Hb in Hall. cbn [default] in Hall.
  apply orb_true_iff in Hall as [E|E].
  - apply Nat.eqb_eq in E. contradiction.
  - now apply negb_true_iff in E.
Qed.

Lemma py_pop_spec (xs : list loc) (i : Z) :
  -1 <= i < len xs -> 1 <= len xs ->
  exists x,
    xs !! Z.to_nat (if i <? 0 then i + len xs else i) = Some x
    /\ Domino.py_pop xs i
       = Ok (x, delete (Z.to_nat (if i <? 0 then i + len xs else i)) xs).
Proof.
  intros Hi Hn. unfold Domino.py_pop.
  set (i' := if i <? 0 then i + len xs else i).
  assert (Hi' : 0 <= i' < len xs).
  { unfold i'. destruct (Z.ltb_spec i 0); lia. }
  replace ((i' <? 0) || (len xs <=? i')) with false.
  2:{ symmetry. apply orb_false_iff. split; [apply Z.ltb_ge | apply Z.leb_gt]; lia. }
  assert (Hlt : (Z.to_nat i' < length xs)%nat) by (unfold len in Hi'; lia).
  destruct (lookup_lt_is_Some_2 xs _ Hlt) as [x E]. rewrite E.
  exists x. split; reflexivity.
Qed.

(** X23.  A draw of the deal never fails on a list that is not empty, and
    it is not uniform: [randint(0, n)] has [n + 1] outcomes for [n] tiles,
    and both 0 (through [pop(-1)]) and [n] (through [pop(n - 1)]) take the
    last tile of the list, while each [pos] from 1 to [n - 1] takes the tile
    at index [pos - 1].  The tile drawn leaves the list. *)
Theorem draw_takes_last_twice (xs : list loc) (r : Z) :
  xs <> [] ->
  0 <= Domino.randint 0 (len xs) r <= len xs
  /\ Domino.randint 0 (len xs) 0 = 0
  /\ Domino.randint 0 (len xs) (len xs) = len xs
  /\ exists x xs',
       Domino.py_pop xs (Domino.randint 0 (len xs) r - 1) = Ok (x, xs')
       /\ Permutation xs (x :: xs')
       /\ (Domino.randint 0 (len xs) r = 0 \/ Domino.randint 0 (len xs) r = len xs ->
           xs !! (length xs - 1)%nat = Some x)
       /\ (1 <= Domino.randint 0 (len xs) r ->
           xs !! Z.to_nat (Domino.randint 0 (len xs) r - 1) = Some x).
Proof.
  intros Hne.
  assert (Hn : 1 <= len xs).
  { destruct xs; [contradiction|]. unfold len. cbn [length]. lia. }
  pose proof (randint_range (len xs) r ltac:(lia)) as Hr.
  split; [exact Hr|].
  split; [unfold Domino.randint; rewrite Z.mod_0_l by lia; lia|].
  split; [unfold Domino.randint; rewrite Z.mod_small by lia; lia|].
  set (pos := Domino.randint 0 (len xs) r) in *.
  destruct (py_pop_spec xs (pos - 1) ltac:(lia) Hn) as (x & Hx & Hpop).
  exists x, (delete (Z.to_nat (if pos - 1 <? 0 then pos - 1 + len xs else pos - 1)) xs).
  split; [exact Hpop|].
  split; [now apply delete_Permutation|].
  split.
  - intros [E|E]; rewrite E in Hx.
    + change (0 - 1 <? 0) with true in Hx. cbv iota in Hx.
      replace (Z.to_nat (0 - 1 + len xs)) with (length xs - 1)%nat in Hx
        by (unfold len; lia). exact Hx.
    + destruct (Z.ltb_spec (len xs - 1) 0); [lia|].
      replace (Z.to_nat (len xs - 1)) with (length xs - 1)%nat in Hx
        by (unfold len; lia). exact Hx.
  - intros Hpos. destruct (Z.ltb_spec (pos - 1) 0); [lia|]. exact Hx.
Qed.

Section DealPerm.

Variable rnd : nat -> Z.
Variables pref jref : loc.
Hypothesis Hne : pref <> jref.

Lemma deal_one_perm (n : Z) (k : nat) (i : Z) (h : Heap) :
  (pref < length (lists h))%nat -> (jref < length (lists h))%nat ->
  len (seq_of h pref) = n -> 1 <= n ->
  exists h',
    Domino.deal_one rnd pref jref (n, k) i h = Ok ((n - 1, S k), h')
    /\ len (seq_of h' pref) = n - 1
    /\ Permutation (seq_of h' pref ++ seq_of h' jref) (seq_of h pref ++ seq_of h jref)
    /\ (forall l, l <> pref -> l <> jref -> seq_of h' l = seq_of h l)
    /\ length (lists h') = length (lists h)
    /\ objs h' = objs h.
Proof.
  intros Hp Hj Hlen Hn. destruct h as [os ls]. cbn [lists objs] in *.
  unfold Domino.deal_one, Domino.list_pop, Domino.list_append, bindM, get_list, liftR,
    set_list, ret.
  pose proof (randint_range n (rnd k) ltac:(lia)) as Hr.
  destruct (py_pop_spec (seq_of (mkHeap os ls) pref)
              (Domino.randint 0 n (rnd k) - 1) ltac:(lia) ltac:(lia))
    as (x & Hx & Hpop).
  rewrite Hpop. cbn [fst snd objs lists].
  eexists. split; [reflexivity|].
  pose proof (delete_Permutation _ _ _ Hx) as Hperm.
  split; [|split; [|split; [|split]]].
  - rewrite seq_of_insert_ne by congruence.
    rewrite seq_of_insert_eq by assumption.
    apply Permutation_length in Hperm. cbn [length] in Hperm. unfold len in *. lia.
  - rewrite seq_of_insert_eq by (rewrite length_insert; assumption).
    rewrite (seq_of_insert_ne _ _ jref pref) by congruence.
    rewrite seq_of_insert_eq by assumption.
    rewrite (seq_of_insert_ne _ _ pref jref) by congruence.
    transitivity ((x :: delete (Z.to_nat
                     (if Domino.randint 0 n (rnd k) - 1 <? 0
                      then Domino.randint 0 n (rnd k) - 1 + len (seq_of (mkHeap os ls) pref)
                      else Domino.randint 0 n (rnd k) - 1)) (seq_of (mkHeap os ls) pref))
                  ++ seq_of (mkHeap os ls) jref);
      [|apply Permutation_app_tail; symmetry; exact Hperm].
    cbn [app]. rewrite app_assoc. symmetry. apply Permutation_cons_append.
  - intros l Hl1 Hl2. rewrite !seq_of_insert_ne by congruence. reflexivity.
  - cbn [lists]. now rewrite !length_insert.
  - reflexivity.
Qed.

Lemma deal_hand_perm (ixs : list Z) :
  forall (n : Z) (k : nat) (h : Heap),
    (pref < length (lists h))%nat -> (jref < length (lists h))%nat ->
    len (seq_of h pref) = n -> len ixs <= n ->
    exists h',
      foldM (Domino.deal_one rnd pref jref) ixs (n, k) h
      = Ok ((n - len ixs, (k + length ixs)%nat), h')
      /\ len (seq_of h' pref) = n - len ixs
      /\ Permutation (seq_of h' pref ++ seq_of h' jref)
           (seq_of h pref ++ seq_of h jref)
      /\ (forall l, l <> pref -> l <> jref -> seq_of h' l = seq_of h l)
      /\ length (lists h') = length (lists h)
      /\ objs h' = objs h.
Proof.
  induction ixs as [|i ixs IH]; intros n k h Hp Hj Hlen Hn.
  - exists h. cbn [foldM]. unfold ret, len. cbn [length].
    rewrite Z.sub_0_r, Nat.add_0_r. repeat split; auto.
  - assert (Hcons : len (i :: ixs) = len ixs + 1) by (unfold len; cbn [length]; lia).
    pose proof (len_nonneg ixs) as Hnn.
    destruct (deal_one_perm n k i h Hp Hj Hlen ltac:(lia))
      as (h1 & Hrun & Hp1 & Hj1 & Hoth1 & Hl1 & Ho1).
    destruct (IH (n - 1) (S k) h1 ltac:(lia) ltac:(lia) Hp1 ltac:(lia))
      as (h2 & Hrun2 & Hp2 & Hj2 & Hoth2 & Hl2 & Ho2).
    exists h2. cbn [foldM]. unfold bindM at 1. rewrite Hrun, Hrun2.
    rewrite Hcons. cbn [length].
    split; [f_equal; f_equal; f_equal; lia|].
    split; [lia|]. split; [now rewrite Hj2|].
    split; [intros l Ha Hb; rewrite Hoth2, Hoth1 by assumption; reflexivity|].
    split; congruence.
Qed.

End DealPerm.

(** The four hands are a partition of the 28 tiles, whatever the draws. *)
Lemma deal_all_perm (rnd : nat -> Z) (pref j0 j1 j2 j3 : loc) (h : Heap) :
  NoDup [pref; j0; j1; j2; j3] ->
  Forall (fun l => (l < length (lists h))%nat) [pref; j0; j1; j2; j3] ->
  len (seq_of h pref) = 28 ->
  Forall (fun l => seq_of h l = []) [j0; j1; j2; j3] ->
  exists acc h',
    foldM (fun acc j =>
             foldM (Domino.deal_one rnd pref (nth (Z.to_nat j) [j0; j1; j2; j3] O))
               (Domino.range 7) acc)
      (Domino.range 4) (28, O) h = Ok (acc, h')
    /\ Forall (fun l => len (seq_of h' l) = 7) [j0; j1; j2; j3]
    /\ Permutation (seq_of h' j0 ++ seq_of h' j1 ++ seq_of h' j2 ++ seq_of h' j3)
         (seq_of h pref)
    /\ (forall l, ~ In l [pref; j0; j1; j2; j3] -> seq_of h' l = seq_of h l)
    /\ length (lists h') = length (lists h)
    /\ objs h' = objs h.
Proof.
  intros Hnd Hv Hlen Hempty.
  assert (E0 : seq_of h j0 = [] /\ seq_of h j1 = []
               /\ seq_of h j2 = [] /\ seq_of h j3 = []).
  { apply Forall_cons in Hempty as [-> Hempty].
    apply Forall_cons in Hempty as [-> Hempty].
    apply Forall_cons in Hempty as [-> Hempty].
    apply Forall_cons in Hempty as [-> Hempty]. repeat split. }
  destruct E0 as (E0 & E1 & E2 & E3). clear Hempty.
  repeat match goal with
         | H : NoDup (_ :: _) |- _ => apply NoDup_cons in H; destruct H
         | H : Forall _ (_ :: _) |- _ => apply Forall_cons in H; destruct H
         end.
  repeat match goal with
         | H : _ ∉ _ :: _ |- _ => apply not_elem_of_cons in H; destruct H
         end.
  pose proof (range_len 7) as Hrange7.
  change (Domino.range 4) with [0; 1; 2; 3]. cbn [foldM].
  change (nth (Z.to_nat 0) [j0; j1; j2; j3] O) with j0.
  change (nth (Z.to_nat 1) [j0; j1; j2; j3] O) with j1.
  change (nth (Z.to_nat 2) [j0; j1; j2; j3] O) with j2.
  change (nth (Z.to_nat 3) [j0; j1; j2; j3] O) with j3.
  destruct (deal_hand_perm rnd pref j0 ltac:(assumption) (Domino.range 7) 28 O h)
    as (h1 & R1 & P1 & J1 & O1 & L1 & B1); try assumption; try lia.
  destruct (deal_hand_perm rnd pref j1 ltac:(assumption) (Domino.range 7)
              (28 - len (Domino.range 7)) (0 + length (Domino.range 7)) h1)
    as (h2 & R2 & P2 & J2 & O2 & L2 & B2); try lia.
  destruct (deal_hand_perm rnd pref j2 ltac:(assumption) (Domino.range 7)
              (28 - len (Domino.range 7) - len (Domino.range 7))
              (0 + length (Domino.range 7) + length (Domino.range 7)) h2)
    as (h3 & R3 & P3 & J3 & O3 & L3 & B3); try lia.
  destruct (deal_hand_perm rnd pref j3 ltac:(assumption) (Domino.range 7)
              (28 - len (Domino.range 7) - len (Domino.range 7) - len (Domino.range 7))
              (0 + length (Domino.range 7) + length (Domino.range 7)
               + length (Domino.range 7)) h3)
    as (h4 & R4 & P4 & J4 & O4 & L4 & B4); try lia.
  assert (Hp4 : seq_of h4 pref = []) by (apply len_zero; lia).
  rewrite (O1 j1), E1 in J2 by congruence.
  rewrite (O2 j2), (O1 j2), E2 in J3 by congruence.
  rewrite (O3 j3), (O2 j3), (O1 j3), E3 in J4 by congruence.
  rewrite E0 in J1. rewrite !app_nil_r in *. rewrite Hp4 in J4. cbn [app] in J4.
  eexists _, h4. unfold bindM. rewrite R1, R2, R3, R4.
  split; [reflexivity|].
  assert (K0 : seq_of h4 j0 = seq_of h1 j0).
  { rewrite O4, O3, O2 by congruence. reflexivity. }
  assert (K1 : seq_of h4 j1 = seq_of h2 j1).
  { rewrite O4, O3 by congruence. reflexivity. }
  assert (K2 : seq_of h4 j2 = seq_of h3 j2).
  { rewrite O4 by congruence. reflexivity. }
  assert (Hperm : Permutation (seq_of h4 j0 ++ seq_of h4 j1 ++ seq_of h4 j2 ++ seq_of h4 j3)
                    (seq_of h pref)).
  { rewrite K0, K1, K2. rewrite <- J1, <- J2, <- J3, <- J4.
    rewrite (Permutation_app_comm (seq_of h1 j0)).
    rewrite (Permutation_app_comm (seq_of h2 j1) (seq_of h3 j2 ++ _)).
    rewrite (Permutation_app_comm (seq_of h3 j2) (seq_of h4 j3)).
    rewrite <- !app_assoc. reflexivity. }
  split.
  { assert (len (seq_of h pref) = len (seq_of h1 pref) + len (seq_of h1 j0)).
    { rewrite <- len_app. unfold len. f_equal. symmetry. now apply Permutation_length. }
    assert (len (seq_of h1 pref) = len (seq_of h2 pref) + len (seq_of h2 j1)).
    { rewrite <- len_app. unfold len. f_equal. symmetry. now apply Permutation_length. }
    assert (len (seq_of h2 pref) = len (seq_of h3 pref) + len (seq_of h3 j2)).
    { rewrite <- len_app. unfold len. f_equal. symmetry. now apply Permutation_length. }
    assert (len (seq_of h3 pref) = len (seq_of h4 j3)).
    { unfold len. f_equal. symmetry. now apply Permutation_length. }
    rewrite Hrange7 in *.
    repeat constructor; rewrite ?K0, ?K1, ?K2; lia. }
  split; [exact Hperm|].
  split.
  { intros l Hl. cbn [In] in Hl.
    rewrite O4, O3, O2, O1 by (intros ->; apply Hl; tauto). reflexivity. }
  split; congruence.
Qed.

Lemma escolhe_pedras_perm (rnd : nat -> Z) (sp : loc) (h : Heap) :
  (sp < length (lists h))%nat ->
  len (seq_of h sp) = 28 ->
  exists (j0 j1 j2 j3 : loc) (h' : Heap),
    Domino.escolhe_pedras rnd sp h = Ok ([j0; j1; j2; j3], h')
    /\ Forall (fun l => len (seq_of h' l) = 7) [j0; j1; j2; j3]
    /\ Permutation (seq_of h' j0 ++ seq_of h' j1 ++ seq_of h' j2 ++ seq_of h' j3)
         (seq_of h sp)
    /\ NoDup [j0; j1; j2; j3]
    /\ Forall (fun l => (length (lists h) <= l < length (lists h'))%nat) [j0; j1; j2; j3]
    /\ (forall l, (l < length (lists h))%nat -> seq_of h' l = seq_of h l)
    /\ objs h' = objs h.
Proof.
  intros Hsp Hlen. destruct h as [os ls]. cbn [lists objs] in *.
  unfold Domino.escolhe_pedras.
  unfold bindM at 1. unfold get_list at 1.
  unfold bindM at 1. unfold new_list at 1. cbn [objs lists].
  unfold bindM at 1. rewrite new_hands_run.
  rewrite <- app_assoc. cbn [app]. rewrite length_app. cbn [length].
  rewrite Nat.add_1_r. rewrite Hlen.
  set (L := length ls).
  set (h1 := mkHeap os (ls ++ [seq_of (mkHeap os ls) sp; []; []; []; []])).
  assert (Hl1 : length (lists h1) = (L + 5)%nat).
  { unfold h1. cbn [lists]. rewrite length_app. reflexivity. }
  assert (Hget : forall k x, [seq_of (mkHeap os ls) sp; []; []; []; []] !! k = Some x ->
                             seq_of h1 (L + k) = x).
  { intros k x Hk. unfold seq_of, h1. cbn [lists].
    rewrite lookup_app_r by (unfold L; lia).
    replace (L + k - length ls)%nat with k by (unfold L; lia). now rewrite Hk. }
  assert (Hcopy : seq_of h1 L = seq_of (mkHeap os ls) sp).
  { replace L with (L + 0)%nat by lia. apply (Hget 0%nat _ eq_refl). }
  destruct (deal_all_perm rnd L (S L) (S (S L)) (S (S (S L))) (S (S (S (S L)))) h1)
    as (acc & h2 & Hrun & H7 & Hperm & Hoth & Hl2 & Hobjs).
  - repeat constructor; rewrite ?elem_of_cons, ?elem_of_nil; lia.
  - rewrite Hl1. repeat constructor; lia.
  - rewrite Hcopy. exact Hlen.
  - repeat constructor.
    + replace (S L) with (L + 1)%nat by lia. apply (Hget 1%nat _ eq_refl).
    + replace (S (S L)) with (L + 2)%nat by lia. apply (Hget 2%nat _ eq_refl).
    + replace (S (S (S L))) with (L + 3)%nat by lia. apply (Hget 3%nat _ eq_refl).
    + replace (S (S (S (S L)))) with (L + 4)%nat by lia. apply (Hget 4%nat _ eq_refl).
  - exists (S L), (S (S L)), (S (S (S L))), (S (S (S (S L)))), h2.
    unfold bindM. rewrite Hrun. split; [reflexivity|]. split; [exact H7|].
    split; [now rewrite Hperm, Hcopy|].
    split; [repeat constructor; rewrite ?elem_of_cons, ?elem_of_nil; lia|].
    split; [rewrite Hl2, Hl1; repeat constructor; lia|].
    split; [|exact Hobjs].
    intros l Hl. rewrite Hoth by (cbn [In]; lia).
    unfold h1. now apply seq_of_app_l.
Qed.

(** X24.  On a list of 28 tiles [escolhe_pedras] returns whatever the draws
    are: four new lists of seven tiles each which together hold exactly the
    28 tiles, each once.  It deals from a copy: the list it was given, every
    other list of the store and every tile are left as they were. *)
Theorem escolhe_pedras_deals_all (rnd : nat -> Z) (sp : loc) (h : Heap) :
  (sp < length (lists h))%nat ->
  len (seq_of h sp) = 28 ->
  exists (j0 j1 j2 j3 : loc) (h' : Heap),
    Domino.escolhe_pedras rnd sp h = Ok ([j0; j1; j2; j3], h')
    /\ Forall (fun l => len (seq_of h' l) = 7) [j0; j1; j2; j3]
    /\ Permutation (seq_of h' j0 ++ seq_of h' j1 ++ seq_of h' j2 ++ seq_of h' j3)
         (seq_of h sp)
    /\ NoDup [j0; j1; j2; j3]
    /\ Forall (fun l => (length (lists h) <= l < length (lists h'))%nat) [j0; j1; j2; j3]
    /\ (forall l, (l < length (lists h))%nat -> seq_of h' l = seq_of h l)
    /\ objs h' = objs h.
Proof. exact (escolhe_pedras_perm rnd sp h). Qed.

Lemma seq_of_with_sentinel (h : Heap) (l : loc) : seq_of (with_sentinel h) l = seq_of h l.
Proof. reflexivity. Qed.

Lemma init_run (rnd : nat -> Z) (h0 : Heap) :
  exists (d : Domino.t) (h : Heap) (j0 j1 j2 j3 : loc),
    Domino.__init__ rnd h0 = Ok (d, h)
    /\ Domino.jogadores d = [j0; j1; j2; j3]
    /\ Forall (fun l => len (seq_of h l) = 7) [j0; j1; j2; j3]
    /\ Permutation (seq_of h j0 ++ seq_of h j1 ++ seq_of h j2 ++ seq_of h j3)
         (seq (length (objs h0)) 28)
    /\ seq_of h (Domino.self_pedras d) = seq (length (objs h0)) 28
    /\ objs h = objs h0 ++ double_six ++ [Pedra.make (-1, -1) (-1)]
    /\ GameState.to_move (Domino.initial d) = 0
    /\ GameState.ponta1 (Domino.initial d) = None
    /\ GameState.ponta2 (Domino.initial d) = None
    /\ GameState.utility (Domino.initial d) = 0
    /\ seq_of h (GameState.pedras (Domino.initial d)) = seq_of h j0
    /\ GameState.pedras (Domino.initial d) <> j0
    /\ seq_of h (GameState.pedras_restantes (Domino.initial d))
       = seq_of h j1 ++ seq_of h j2 ++ seq_of h j3
    /\ GameState.moves (Domino.initial d)
       = map (fun l => (l, -1)) (seq_of h j0) ++ [((length (objs h0) + 28)%nat, -1)].
Proof.
  pose proof (cria_domino_eq h0) as Hc.
  destruct h0 as [os0 ls0]. cbn [objs lists] in *.
  set (ps := seq (length os0) 28) in *.
  set (os1 := os0 ++ double_six) in *.
  destruct (escolhe_pedras_perm rnd (length ls0) (mkHeap os1 (ls0 ++ [ps])))
    as (j0 & j1 & j2 & j3 & h3 & He & H7 & Hperm & Hnd & Hnew & Hold & Hobjs).
  { cbn [lists]. rewrite length_app. cbn [length]. lia. }
  { rewrite seq_of_middle. unfold ps, len. now rewrite length_seq. }
  rewrite seq_of_middle in Hperm.
  destruct h3 as [os3 ls3]. cbn [lists objs] in *. subst os3.
  assert (Hsp : seq_of (mkHeap os1 ls3) (length ls0) = ps).
  { rewrite Hold by (rewrite length_app; cbn [length]; lia). apply seq_of_middle. }
  rewrite length_app in Hnew. cbn [length] in Hnew.
  apply Forall_cons in Hnew as [V0 Hnew]. apply Forall_cons in Hnew as [V1 Hnew].
  apply Forall_cons in Hnew as [V2 Hnew]. apply Forall_cons in Hnew as [V3 _].
  set (R := length ls3) in *.
  set (h4 := mkHeap os1 (ls3 ++ [[]])).
  assert (L4 : length (lists h4) = S R).
  { unfold h4. cbn [lists]. rewrite length_app. cbn [length]. unfold R. lia. }
  assert (S4 : forall l, (l < R)%nat -> seq_of h4 l = seq_of (mkHeap os1 ls3) l).
  { intros l Hl. now apply seq_of_app_l. }
  assert (R4 : seq_of h4 R = []) by apply seq_of_middle.
  destruct (extend_run R j1 h4 ltac:(lia) ltac:(lia)) as (h5 & E5 & R5 & S5 & L5 & O5).
  destruct (extend_run R j2 h5 ltac:(lia) ltac:(lia)) as (h6 & E6 & R6 & S6 & L6 & O6).
  destruct (extend_run R j3 h6 ltac:(lia) ltac:(lia)) as (h7 & E7 & R7 & S7 & L7 & O7).
  set (h8 := mkHeap (objs h7) (lists h7 ++ [seq_of h7 j0])).
  assert (Hrun : Domino.__init__ rnd (mkHeap os0 ls0)
                 = Ok (Domino.make (length ls0) [j0; j1; j2; j3]
                         (GameState.make 0 (length (lists h7)) R None None
                            (free_placements (seq_of h8 j0) ++ [(length (objs h8), -1)])
                            0),
                       with_sentinel h8)).
  { unfold Domino.__init__.
    unfold bindM at 1. rewrite Hc.
    unfold bindM at 1. unfold new_list at 1. cbn [objs lists].
    unfold bindM at 1. rewrite He.
    unfold bindM at 1. unfold new_list at 1. cbn [objs lists]. fold R h4.
    unfold bindM at 1. cbn [foldM].
    change (nth (Z.to_nat 1) [j0; j1; j2; j3] O) with j1.
    change (nth (Z.to_nat 2) [j0; j1; j2; j3] O) with j2.
    change (nth (Z.to_nat 3) [j0; j1; j2; j3] O) with j3.
    change (nth 0 [j0; j1; j2; j3] O) with j0.
    unfold bindM at 1. rewrite E5.
    unfold bindM at 1. rewrite E6.
    unfold bindM at 1. rewrite E7. unfold ret at 1.
    unfold bindM at 1. unfold get_list at 1.
    unfold bindM at 1. unfold new_list at 1. fold h8.
    unfold bindM at 1. rewrite moves_unset. rewrite Z.eqb_refl. reflexivity. }
  assert (Hobj7 : objs h7 = os1) by (rewrite O7, O6, O5; reflexivity).
  assert (Hseq8 : forall l, (l < S R)%nat -> seq_of h8 l = seq_of h7 l).
  { intros l Hl. unfold h8. destruct h7 as [os7 ls7]. cbn [objs lists] in *.
    apply seq_of_app_l. lia. }
  assert (Hhand : forall j, (j < R)%nat -> seq_of h8 j = seq_of (mkHeap os1 ls3) j).
  { intros j Hj. rewrite Hseq8 by lia. rewrite S7, S6, S5, S4 by lia. reflexivity. }
  exists (Domino.make (length ls0) [j0; j1; j2; j3]
            (GameState.make 0 (length (lists h7)) R None None
               (free_placements (seq_of h8 j0) ++ [(length (objs h8), -1)]) 0)),
    (with_sentinel h8), j0, j1, j2, j3.
  split; [exact Hrun|].
  cbn [Domino.jogadores Domino.self_pedras Domino.initial GameState.pedras
         GameState.pedras_restantes GameState.ponta1 GameState.ponta2
         GameState.to_move GameState.utility GameState.moves].
  change (seq_of (with_sentinel h8)) with (seq_of h8).
  split; [reflexivity|].
  split.
  { apply Forall_cons in H7 as [A0 H7]. apply Forall_cons in H7 as [A1 H7].
    apply Forall_cons in H7 as [A2 H7]. apply Forall_cons in H7 as [A3 _].
    repeat (apply Forall_cons_2; [rewrite Hhand by lia; assumption|]).
    apply Forall_nil_2. }
  split; [rewrite !Hhand by lia; exact Hperm|].
  split; [rewrite Hhand by lia; exact Hsp|].
  split.
  { unfold with_sentinel, h8. cbn [objs]. rewrite Hobj7. unfold os1.
    now rewrite <- app_assoc. }
  split; [reflexivity|]. split; [reflexivity|]. split; [reflexivity|].
  split; [reflexivity|].
  split.
  { rewrite (Hseq8 j0) by lia.
    unfold h8. destruct h7 as [os7 ls7]. cbn [objs lists]. apply seq_of_middle. }
  split; [lia|].
  split.
  { rewrite Hseq8 by lia. rewrite R7, R6, R5, R4. cbn [app].
    rewrite !Hhand by lia.
    rewrite S6, S5, S4 by lia. rewrite S5, S4 by lia. rewrite S4 by lia.
    now rewrite <- app_assoc. }
  unfold free_placements. f_equal. f_equal. f_equal.
  unfold h8. cbn [objs]. rewrite Hobj7. unfold os1.
  rewrite length_app, double_six_length. reflexivity.
Qed.

(** X25.  [Domino()] always returns a game, whatever the draws.  Its four
    hands of seven tiles are together the 28 tiles of the double-six set
    just created, each once.  The initial state has seat 0 to move on an
    empty board with marker 0; its hand is a copy of the hand of seat 0, in
    a list of its own; its pool is the hands of seats 1, 2 and 3 one after
    the other; and its eight moves are the seven tiles of the hand, each
    with selector -1, followed by the pass. *)
Theorem init_deals_double_six (rnd : nat -> Z) (h0 : Heap) :
  exists (d : Domino.t) (h : Heap) (j0 j1 j2 j3 : loc),
    Domino.__init__ rnd h0 = Ok (d, h)
    /\ Domino.jogadores d = [j0; j1; j2; j3]
    /\ Forall (fun l => len (seq_of h l) = 7) [j0; j1; j2; j3]
    /\ Permutation (seq_of h j0 ++ seq_of h j1 ++ seq_of h j2 ++ seq_of h j3)
         (seq (length (objs h0)) 28)
    /\ seq_of h (Domino.self_pedras d) = seq (length (objs h0)) 28
    /\ objs h = objs h0 ++ double_six ++ [Pedra.make (-1, -1) (-1)]
    /\ GameState.to_move (Domino.initial d) = 0
    /\ GameState.ponta1 (Domino.initial d) = None
    /\ GameState.ponta2 (Domino.initial d) = None
    /\ GameState.utility (Domino.initial d) = 0
    /\ seq_of h (GameState.pedras (Domino.initial d)) = seq_of h j0
    /\ GameState.pedras (Domino.initial d) <> j0
    /\ seq_of h (GameState.pedras_restantes (Domino.initial d))
       = seq_of h j1 ++ seq_of h j2 ++ seq_of h j3
    /\ GameState.moves (Domino.initial d)
       = map (fun l => (l, -1)) (seq_of h j0) ++ [((length (objs h0) + 28)%nat, -1)].
Proof. exact (init_run rnd h0). Qed.

(** ** The match *)

Lemma py_index_nat {A} (l : list A) (i : nat) (x : A) :
  l !! i = Some x -> py_index l (Z.of_nat i) = Ok x.
Proof.
  intros Hx. unfold py_index.
  pose proof (lookup_lt_Some _ _ _ Hx) as Hlt.
  assert (E1 : (Z.of_nat i <? 0) = false) by (apply Z.ltb_ge; lia).
  assert (E2 : (len l <=? Z.of_nat i) = false) by (apply Z.leb_gt; unfold len; lia).
  rewrite E1. cbv zeta. rewrite E1, E2. cbn [orb]. rewrite Nat2Z.id. now rewrite Hx.
Qed.

Section FourHands.

Variable self : Domino.t.
Variables j0 j1 j2 j3 : loc.
Hypothesis Hjog : Domino.jogadores self = [j0; j1; j2; j3].

Lemma index_seat (i : nat) (j : loc) :
  [j0; j1; j2; j3] !! i = Some j ->
  py_index (Domino.jogadores self) (Z.of_nat i) = Ok j.
Proof. intros Hj. apply py_index_nat. now rewrite Hjog. Qed.

Lemma first_empty_run (h : Heap) :
  Play.first_empty self (Domino.range 4) h
  = Ok (if len (seq_of h j0) =? 0 then Some 0
        else if len (seq_of h j1) =? 0 then Some 1
        else if len (seq_of h j2) =? 0 then Some 2
        else if len (seq_of h j3) =? 0 then Some 3
        else None, h).
Proof.
  change (Domino.range 4) with [Z.of_nat 0; Z.of_nat 1; Z.of_nat 2; Z.of_nat 3].
  cbn [Play.first_empty]. unfold bindM, liftR, get_list, ret.
  rewrite (index_seat 0 j0 eq_refl), (index_seat 1 j1 eq_refl),
          (index_seat 2 j2 eq_refl), (index_seat 3 j3 eq_refl).
  destruct (len (seq_of h j0) =? 0); [reflexivity|].
  destruct (len (seq_of h j1) =? 0); [reflexivity|].
  destruct (len (seq_of h j2) =? 0); [reflexivity|].
  destruct (len (seq_of h j3) =? 0); reflexivity.
Qed.

Lemma pode_jogar_set (state : GameState.t) (e1 e2 : loc) (i : nat) (j : loc) (h : Heap) :
  GameState.ponta1 state = Some e1 ->
  GameState.ponta2 state = Some e2 ->
  [j0; j1; j2; j3] !! i = Some j ->
  Play.pode_jogar self (Z.of_nat i) state h = Ok (can_play h e1 e2 (seq_of h j), h).
Proof.
  intros H1 H2 Hj. unfold Play.pode_jogar. rewrite H1, H2. cbn [Domino.is_not_None].
  unfold bindM, liftR, get_list, reading. rewrite (index_seat i j Hj).
  rewrite some_igual_set. reflexivity.
Qed.

Lemma some_pode_jogar_set (state : GameState.t) (e1 e2 : loc) (h : Heap) :
  GameState.ponta1 state = Some e1 ->
  GameState.ponta2 state = Some e2 ->
  Play.some_pode_jogar self state (Domino.range 4) h
  = Ok (can_play h e1 e2 (seq_of h j0) || can_play h e1 e2 (seq_of h j1)
        || can_play h e1 e2 (seq_of h j2) || can_play h e1 e2 (seq_of h j3), h).
Proof.
  intros H1 H2.
  change (Domino.range 4) with [Z.of_nat 0; Z.of_nat 1; Z.of_nat 2; Z.of_nat 3].
  cbn [Play.some_pode_jogar]. unfold bindM, ret.
  rewrite (pode_jogar_set state e1 e2 0 j0 h H1 H2 eq_refl).
  destruct (can_play h e1 e2 (seq_of h j0)); [reflexivity|].
  rewrite (pode_jogar_set state e1 e2 1 j1 h H1 H2 eq_refl).
  destruct (can_play h e1 e2 (seq_of h j1)); [reflexivity|].
  rewrite (pode_jogar_set state e1 e2 2 j2 h H1 H2 eq_refl).
  destruct (can_play h e1 e2 (seq_of h j2)); [reflexivity|].
  rewrite (pode_jogar_set state e1 e2 3 j3 h H1 H2 eq_refl).
  destruct (can_play h e1 e2 (seq_of h j3)); reflexivity.
Qed.

Lemma some_pode_jogar_unset (state : GameState.t) (h : Heap) :
  GameState.ponta1 state = None ->
  Play.some_pode_jogar self state (Domino.range 4) h = Ok (true, h).
Proof.
  intros H1.
  change (Domino.range 4) with [0; 1; 2; 3].
  cbn [Play.some_pode_jogar]. unfold bindM, Play.pode_jogar. rewrite H1. reflexivity.
Qed.

Lemma soma_pedras_run (i : nat) (j : loc) (h : Heap) :
  [j0; j1; j2; j3] !! i = Some j ->
  Play.soma_pedras self (Z.of_nat i) h = Ok (Domino.soma_valores h (seq_of h j), h).
Proof.
  intros Hj. unfold Play.soma_pedras, bindM, liftR, get_list, reading.
  now rewrite (index_seat i j Hj).
Qed.

(** The seat [menor_soma] returns: the first of the least pip sums. *)
Lemma menor_soma_run (h : Heap) :
  let s0 := Domino.soma_valores h (seq_of h j0) in
  let s1 := Domino.soma_valores h (seq_of h j1) in
  let s2 := Domino.soma_valores h (seq_of h j2) in
  let s3 := Domino.soma_valores h (seq_of h j3) in
  exists w : nat,
    Play.menor_soma self h = Ok (Z.of_nat w, h)
    /\ (w < 4)%nat
    /\ (forall k s, [s0; s1; s2; s3] !! k = Some s ->
          exists sw, [s0; s1; s2; s3] !! w = Some sw
                     /\ sw <= s /\ ((k < w)%nat -> sw < s)).
Proof.
  intros s0 s1 s2 s3.
  unfold Play.menor_soma, argmax_int.
  change [1; 2; 3] with [Z.of_nat 1; Z.of_nat 2; Z.of_nat 3].
  change 0 with (Z.of_nat 0) at 1.
  cbn [argmax_int_from]. unfold bindM, ret.
  rewrite (soma_pedras_run 0 j0 h eq_refl), (soma_pedras_run 1 j1 h eq_refl).
  fold s0 s1.
  assert (Hlook : forall (w : nat) (sw : Z),
            [s0; s1; s2; s3] !! w = Some sw ->
            (forall k s, [s0; s1; s2; s3] !! k = Some s -> sw <= s /\ ((k < w)%nat -> sw < s)) ->
            (w < 4)%nat
            /\ (forall k s, [s0; s1; s2; s3] !! k = Some s ->
                  exists sw', [s0; s1; s2; s3] !! w = Some sw'
                              /\ sw' <= s /\ ((k < w)%nat -> sw' < s))).
  { intros w sw Hw Hmin. split.
    - apply lookup_lt_Some in Hw. cbn [length] in Hw. lia.
    - intros k s Hk. exists sw. split; [exact Hw|]. now apply Hmin. }
  assert (Hcases : forall (P : nat -> Z -> Prop),
            (forall k s, [s0; s1; s2; s3] !! k = Some s -> P k s) <->
            P 0%nat s0 /\ P 1%nat s1 /\ P 2%nat s2 /\ P 3%nat s3).
  { intros P. split.
    - intros HP. repeat split; apply HP; reflexivity.
    - intros (P0 & P1 & P2 & P3) k s Hk.
      destruct k as [|[|[|[|k]]]]; cbn in Hk; try discriminate;
        injection Hk as <-; assumption. }
  destruct (Z.ltb_spec (- s0) (- s1)) as [C1|C1];
    [rewrite (soma_pedras_run 2 j2 h eq_refl); fold s2;
     destruct (Z.ltb_spec (- s1) (- s2)) as [C2|C2];
     rewrite (soma_pedras_run 3 j3 h eq_refl); fold s3;
     [destruct (Z.ltb_spec (- s2) (- s3)) as [C3|C3]
     |destruct (Z.ltb_spec (- s1) (- s3)) as [C3|C3]]
    |rewrite (soma_pedras_run 2 j2 h eq_refl); fold s2;
     destruct (Z.ltb_spec (- s0) (- s2)) as [C2|C2];
     rewrite (soma_pedras_run 3 j3 h eq_refl); fold s3;
     [destruct (Z.ltb_spec (- s2) (- s3)) as [C3|C3]
     |destruct (Z.ltb_spec (- s0) (- s3)) as [C3|C3]]].
  - exists 3%nat. split; [reflexivity|]. apply (Hlook 3%nat s3 eq_refl).
    apply Hcases. lia.
  - exists 2%nat. split; [reflexivity|]. apply (Hlook 2%nat s2 eq_refl).
    apply Hcases. lia.
  - exists 3%nat. split; [reflexivity|]. apply (Hlook 3%nat s3 eq_refl).
    apply Hcases. lia.
  - exists 1%nat. split; [reflexivity|]. apply (Hlook 1%nat s1 eq_refl).
    apply Hcases. lia.
  - exists 3%nat. split; [reflexivity|]. apply (Hlook 3%nat s3 eq_refl).
    apply Hcases. lia.
  - exists 2%nat. split; [reflexivity|]. apply (Hlook 2%nat s2 eq_refl).
    apply Hcases. lia.
  - exists 3%nat. split; [reflexivity|]. apply (Hlook 3%nat s3 eq_refl).
    apply Hcases. lia.
  - exists 0%nat. split; [reflexivity|]. apply (Hlook 0%nat s0 eq_refl).
    apply Hcases. lia.
Qed.

Lemma vitoria_first_empty (state : GameState.t) (h : Heap) (i : nat) :
  (i < 4)%nat ->
  hand_of self h i = [] ->
  (forall k, (k < i)%nat -> hand_of self h k <> []) ->
  Play.vitoria self state h = Ok (Z.of_nat i, h).
Proof.
  intros Hi Hempty Hfirst. unfold hand_of in *. rewrite Hjog in *.
  unfold Play.vitoria, bindM. rewrite first_empty_run.
  assert (Hnz : forall l : list loc, l <> [] -> (len l =? 0) = false).
  { intros l Hl. apply Z.eqb_neq. intros E. now apply len_zero in E. }
  destruct i as [|[|[|[|i]]]]; [| | | |lia]; cbn [nth] in Hempty; rewrite ?Hempty.
  - reflexivity.
  - pose proof (Hnz _ (Hfirst 0%nat ltac:(lia))) as F0. cbn [nth] in F0.
    rewrite F0. reflexivity.
  - pose proof (Hnz _ (Hfirst 0%nat ltac:(lia))) as F0. cbn [nth] in F0.
    pose proof (Hnz _ (Hfirst 1%nat ltac:(lia))) as F1. cbn [nth] in F1.
    rewrite F0, F1. reflexivity.
  - pose proof (Hnz _ (Hfirst 0%nat ltac:(lia))) as F0. cbn [nth] in F0.
    pose proof (Hnz _ (Hfirst 1%nat ltac:(lia))) as F1. cbn [nth] in F1.
    pose proof (Hnz _ (Hfirst 2%nat ltac:(lia))) as F2. cbn [nth] in F2.
    rewrite F0, F1, F2. reflexivity.
Qed.

Lemma first_empty_none (h : Heap) :
  (forall k, (k < 4)%nat -> hand_of self h k <> []) ->
  Play.first_empty self (Domino.range 4) h = Ok (None, h).
Proof.
  intros Hfull. unfold hand_of in *. rewrite Hjog in *.
  rewrite first_empty_run.
  assert (Hnz : forall l : list loc, l <> [] -> (len l =? 0) = false).
  { intros l Hl. apply Z.eqb_neq. intros E. now apply len_zero in E. }
  pose proof (Hnz _ (Hfull 0%nat ltac:(lia))) as F0. cbn [nth] in F0.
  pose proof (Hnz _ (Hfull 1%nat ltac:(lia))) as F1. cbn [nth] in F1.
  pose proof (Hnz _ (Hfull 2%nat ltac:(lia))) as F2. cbn [nth] in F2.
  pose proof (Hnz _ (Hfull 3%nat ltac:(lia))) as F3. cbn [nth] in F3.
  rewrite F0, F1, F2, F3. reflexivity.
Qed.

Lemma vitoria_goes_on_unset (state : GameState.t) (h : Heap) :
  (forall k, (k < 4)%nat -> hand_of self h k <> []) ->
  GameState.ponta1 state = None ->
  Play.vitoria self state h = Ok (-1, h).
Proof.
  intros Hfull H1. unfold Play.vitoria, bindM.
  rewrite (first_empty_none h Hfull), (some_pode_jogar_unset state h H1). reflexivity.
Qed.

Lemma vitoria_goes_on_set (state : GameState.t) (h : Heap) (e1 e2 : loc) (i : nat) :
  (forall k, (k < 4)%nat -> hand_of self h k <> []) ->
  GameState.ponta1 state = Some e1 ->
  GameState.ponta2 state = Some e2 ->
  (i < 4)%nat ->
  can_play h e1 e2 (hand_of self h i) = true ->
  Play.vitoria self state h = Ok (-1, h).
Proof.
  intros Hfull H1 H2 Hi Hplay. unfold Play.vitoria, bindM.
  rewrite (first_empty_none h Hfull), (some_pode_jogar_set state e1 e2 h H1 H2).
  unfold hand_of in Hplay. rewrite Hjog in Hplay.
  destruct i as [|[|[|[|i]]]]; [| | | |lia]; cbn [nth] in Hplay; rewrite Hplay;
    rewrite ?orb_true_r; reflexivity.
Qed.

Lemma vitoria_blocked (state : GameState.t) (h : Heap) (e1 e2 : loc) :
  (forall k, (k < 4)%nat -> hand_of self h k <> []) ->
  GameState.ponta1 state = Some e1 ->
  GameState.ponta2 state = Some e2 ->
  (forall k, (k < 4)%nat -> can_play h e1 e2 (hand_of self h k) = false) ->
  Play.vitoria self state h = Play.menor_soma self h.
Proof.
  intros Hfull H1 H2 Hblocked. unfold Play.vitoria, bindM.
  rewrite (first_empty_none h Hfull), (some_pode_jogar_set state e1 e2 h H1 H2).
  unfold hand_of in Hblocked. rewrite Hjog in Hblocked.
  pose proof (Hblocked 0%nat ltac:(lia)) as F0. cbn [nth] in F0.
  pose proof (Hblocked 1%nat ltac:(lia)) as F1. cbn [nth] in F1.
  pose proof (Hblocked 2%nat ltac:(lia)) as F2. cbn [nth] in F2.
  pose proof (Hblocked 3%nat ltac:(lia)) as F3. cbn [nth] in F3.
  rewrite F0, F1, F2, F3. reflexivity.
Qed.

End FourHands.

(** X26.  In a game of four hands, [vitoria] names the first seat whose hand
    is empty, whatever the board and whatever the other hands hold, and
    reads the store without changing it. *)
Theorem vitoria_empty_hand_wins (self : Domino.t) (state : GameState.t) (h : Heap)
    (i : nat) :
  length (Domino.jogadores self) = 4%nat ->
  (i < 4)%nat ->
  hand_of self h i = [] ->
  (forall k, (k < i)%nat -> hand_of self h k <> []) ->
  Play.vitoria self state h = Ok (Z.of_nat i, h).
Proof.
  intros Hlen.
  destruct (Domino.jogadores self) as [|j0 [|j1 [|j2 [|j3 [|j4 js]]]]] eqn:Hjog;
    try discriminate.
  now apply (vitoria_first_empty self j0 j1 j2 j3 Hjog).
Qed.

(** X27.  While no hand is empty, [vitoria] answers -1, the match goes on,
    on an empty board and on a board where some seat holds a tile matching
    an end. *)
Theorem vitoria_game_goes_on (self : Domino.t) (state : GameState.t) (h : Heap) :
  length (Domino.jogadores self) = 4%nat ->
  (forall k, (k < 4)%nat -> hand_of self h k <> []) ->
  (GameState.ponta1 state = None
   \/ exists e1 e2 i,
        GameState.ponta1 state = Some e1 /\ GameState.ponta2 state = Some e2
        /\ (i < 4)%nat /\ can_play h e1 e2 (hand_of self h i) = true) ->
  Play.vitoria self state h = Ok (-1, h).
Proof.
  intros Hlen Hfull Hcase.
  destruct (Domino.jogadores self) as [|j0 [|j1 [|j2 [|j3 [|j4 js]]]]] eqn:Hjog;
    try discriminate.
  destruct Hcase as [H1 | (e1 & e2 & i & H1 & H2 & Hi & Hplay)].
  - now apply (vitoria_goes_on_unset self j0 j1 j2 j3 Hjog).
  - now apply (vitoria_goes_on_set self j0 j1 j2 j3 Hjog state h e1 e2 i).
Qed.

(** X28.  On a blocked board (ends set, no hand empty, no seat holding a
    tile that matches an end) [vitoria] names a seat whose hand has the
    least pip sum, the first such seat when several tie. *)
Theorem vitoria_blocked_least_pips (self : Domino.t) (state : GameState.t)
    (h : Heap) (e1 e2 : loc) :
  length (Domino.jogadores self) = 4%nat ->
  (forall k, (k < 4)%nat -> hand_of self h k <> []) ->
  GameState.ponta1 state = Some e1 ->
  GameState.ponta2 state = Some e2 ->
  (forall k, (k < 4)%nat -> can_play h e1 e2 (hand_of self h k) = false) ->
  exists w : nat,
    Play.vitoria self state h = Ok (Z.of_nat w, h)
    /\ (w < 4)%nat
    /\ (forall k, (k < 4)%nat ->
          Domino.soma_valores h (hand_of self h w)
          <= Domino.soma_valores h (hand_of self h k)
          /\ ((k < w)%nat ->
              Domino.soma_valores h (hand_of self h w)
              < Domino.soma_valores h (hand_of self h k))).
Proof.
  intros Hlen Hfull H1 H2 Hblocked.
  destruct (Domino.jogadores self) as [|j0 [|j1 [|j2 [|j3 [|j4 js]]]]] eqn:Hjog;
    try discriminate.
  rewrite (vitoria_blocked self j0 j1 j2 j3 Hjog state h e1 e2 Hfull H1 H2 Hblocked).
  destruct (menor_soma_run self j0 j1 j2 j3 Hjog h) as (w & Hw & Hlt & Hmin).
  exists w. split; [exact Hw|]. split; [exact Hlt|].
  intros k Hk. unfold hand_of. rewrite Hjog.
  assert (Hget : forall n, (n < 4)%nat ->
            [Domino.soma_valores h (seq_of h j0); Domino.soma_valores h (seq_of h j1);
             Domino.soma_valores h (seq_of h j2); Domino.soma_valores h (seq_of h j3)] !! n
            = Some (Domino.soma_valores h (seq_of h (nth n [j0; j1; j2; j3] O)))).
  { intros n Hn. destruct n as [|[|[|[|n]]]]; [reflexivity..|lia]. }
  destruct (Hmin k _ (Hget k Hk)) as (sw & Hsw & Hle & Hstrict).
  rewrite (Hget w Hlt) in Hsw. injection Hsw as <-. split; assumption.
Qed.

(** ** A turn of the match *)

(** A placement of a tile of the relevant list returns, and leaves every
    list that was in the store as it was. *)
Lemma result_placement_returns (state : GameState.t) (move : Move) (player : Z)
    (h : Heap) :
  valid_lists h state ->
  is_placement h move ->
  ends_together (GameState.ponta1 state) (GameState.ponta2 state) ->
  In move.1 (seq_of h (if GameState.to_move state =? player
                       then GameState.pedras state
                       else GameState.pedras_restantes state)) ->
  exists (s' : GameState.t) (h' : Heap),
    Domino.result state move player h = Ok (s', h')
    /\ (forall l, (l < length (lists h))%nat -> seq_of h' l = seq_of h l)
    /\ (length (lists h) <= length (lists h'))%nat.
Proof.
  intros Hv Hp He Hin.
  rewrite (result_placement_run state move player h Hv Hp He). cbv zeta.
  destruct (remove_first_in h move.1 _ Hin) as [r Hr].
  assert (Hr' : Domino.remove_first h move.1
                  (if GameState.to_move state =? player
                   then seq_of h (GameState.pedras state)
                   else seq_of h (GameState.pedras_restantes state)) = Ok r).
  { now destruct (GameState.to_move state =? player). }
  rewrite Hr'.
  destruct (placed_ends_set _ _ move He) as (a & b & Hends). rewrite Hends.
  cbn [fst snd].
  set (hb := mkHeap _ _).
  destruct (moves_returns ((GameState.to_move state + 1) mod 4) (length (lists h))
              (S (length (lists h))) (Some a) (Some b) player hb)
    as (ms & h1 & Hm & Hf).
  { intros _. discriminate. }
  unfold bindM. rewrite Hm. eexists _, _. split; [reflexivity|].
  assert (Hseq : forall l, seq_of h1 l = seq_of hb l).
  { intros l. destruct Hf as [-> | ->]; reflexivity. }
  assert (Hlen : length (lists h1) = length (lists hb)).
  { destruct Hf as [-> | ->]; reflexivity. }
  split.
  - intros l Hl. rewrite Hseq. unfold hb, seq_of. cbn [lists].
    now rewrite lookup_app_l.
  - rewrite Hlen. unfold hb. cbn [lists]. rewrite length_app. lia.
Qed.

Lemma remove_first_single (h : Heap) (x y : loc) :
  Pedra.__eq__ (obj h y) (obj h x) = true ->
  Domino.remove_first h x [y] = Ok [].
Proof. intros E. cbn [Domino.remove_first]. now rewrite E. Qed.

(** X29.  The player who places its last tile wins at once.  When the
    player to move, at seat [t], holds one tile, chooses to place it, and no
    other hand is empty, the turn removes the tile from the hand of seat
    [t], applies the transition, and ends the match with [t] as the
    winner. *)
Theorem last_tile_wins (self : Domino.t) (player : Domino.t -> GameState.t -> M Move)
    (state : GameState.t) (h h0 : Heap) (move : Move) (t : nat) (x : loc) :
  length (Domino.jogadores self) = 4%nat ->
  NoDup (Domino.jogadores self) ->
  Forall (fun j => (j < length (lists h0))%nat) (Domino.jogadores self) ->
  player self state h = Ok (move, h0) ->
  GameState.to_move state = Z.of_nat t ->
  (t < 4)%nat ->
  valid_lists h0 state ->
  ends_together (GameState.ponta1 state) (GameState.ponta2 state) ->
  is_placement h0 move ->
  hand_of self h0 t = [x] ->
  Pedra.__eq__ (obj h0 x) (obj h0 move.1) = true ->
  In move.1 (seq_of h0 (GameState.pedras state)) ->
  GameState.pedras state <> nth t (Domino.jogadores self) O ->
  (forall k, (k < 4)%nat -> k <> t -> hand_of self h0 k <> []) ->
  exists h', Play.turn self player state h = Ok (inl (Z.of_nat t), h').
Proof.
  intros Hlen Hnd Hvalid Hpl Ht Hlt Hv He Hp Hhand Heq Hin Halias Hothers.
  destruct (Domino.jogadores self) as [|j0 [|j1 [|j2 [|j3 [|j4 js]]]]] eqn:Hjog;
    try discriminate.
  set (jt := nth t [j0; j1; j2; j3] O) in *.
  assert (Hjt : [j0; j1; j2; j3] !! t = Some jt).
  { unfold jt. destruct t as [|[|[|[|t]]]]; [reflexivity..|lia]. }
  assert (Hjt_valid : (jt < length (lists h0))%nat).
  { rewrite Forall_forall in Hvalid. apply Hvalid.
    eapply list_elem_of_lookup_2, Hjt. }
  unfold hand_of in Hhand. rewrite Hjog in Hhand. fold jt in Hhand.
  set (h1 := mkHeap (objs h0) (<[jt := []]> (lists h0))).
  assert (Hrem : Domino.list_remove jt move.1 h0 = Ok (tt, h1)).
  { unfold Domino.list_remove, bindM, get_list, reading, liftR, set_list.
    rewrite Hhand. rewrite (remove_first_single h0 move.1 x Heq). reflexivity. }
  assert (Hseq1 : forall l, l <> jt -> seq_of h1 l = seq_of h0 l).
  { intros l Hl. unfold h1. destruct h0 as [os ls].
    apply seq_of_insert_ne. congruence. }
  assert (Hjt1 : seq_of h1 jt = []).
  { unfold h1. destruct h0 as [os ls]. now apply seq_of_insert_eq. }
  assert (Hlen1 : length (lists h1) = length (lists h0)).
  { unfold h1. cbn [lists]. apply length_insert. }
  destruct (result_placement_returns state move (GameState.to_move state) h1)
    as (s_res & h2 & Hres & Hframe & Hgrow).
  { destruct Hv as [Hv1 Hv2]. split; rewrite Hlen1; assumption. }
  { exact Hp. }
  { exact He. }
  { rewrite Z.eqb_refl. rewrite Hseq1 by exact Halias. exact Hin. }
  assert (Hvit : Play.vitoria self s_res h2 = Ok (Z.of_nat t, h2)).
  { apply (vitoria_first_empty self j0 j1 j2 j3 Hjog s_res h2 t Hlt).
    - unfold hand_of. rewrite Hjog. fold jt.
      rewrite Hframe by (rewrite Hlen1; exact Hjt_valid). exact Hjt1.
    - intros k Hk. unfold hand_of. rewrite Hjog.
      assert (Hk4 : (k < 4)%nat) by lia.
      assert (Hjk : [j0; j1; j2; j3] !! k = Some (nth k [j0; j1; j2; j3] O)).
      { destruct k as [|[|[|[|k]]]]; [reflexivity..|lia]. }
      assert (Hne : nth k [j0; j1; j2; j3] O <> jt).
      { intros E. rewrite E in Hjk.
        pose proof (NoDup_lookup _ _ _ _ Hnd Hjk Hjt). lia. }
      assert (Hkv : (nth k [j0; j1; j2; j3] O < length (lists h0))%nat).
      { rewrite Forall_forall in Hvalid. apply Hvalid.
        eapply list_elem_of_lookup_2, Hjk. }
      rewrite Hframe by (rewrite Hlen1; exact Hkv).
      rewrite Hseq1 by exact Hne.
      specialize (Hothers k Hk4 ltac:(lia)). unfold hand_of in Hothers.
      now rewrite Hjog in Hothers. }
  exists h2. unfold Play.turn.
  unfold bindM at 1. rewrite Hpl.
  unfold bindM at 1. unfold get_obj at 1.
  assert (E : negb ((Pedra.valor (obj h0 move.1)).1 =? -1) = true).
  { apply negb_true_iff, Z.eqb_neq. exact Hp. }
  rewrite E.
  unfold bindM at 1. unfold bindM at 1. unfold liftR at 1.
  rewrite Ht, Hjog. rewrite (py_index_nat [j0; j1; j2; j3] t jt Hjt).
  rewrite Hrem.
  rewrite Ht in Hres.
  unfold bindM at 1. rewrite Hres.
  unfold bindM at 1. rewrite Hvit.
  assert (E' : negb (Z.of_nat t =? -1) = true).
  { apply negb_true_iff, Z.eqb_neq. lia. }
  rewrite E'. reflexivity.
Qed.

(** ** A match that does not end *)

Lemma extends_refl (h : Heap) : extends h h.
Proof. split; [|split; [|split]]; auto. Qed.

Lemma extends_trans (h1 h2 h3 : Heap) : extends h1 h2 -> extends h2 h3 -> extends h1 h3.
Proof.
  intros (A1 & B1 & C1 & D1) (A2 & B2 & C2 & D2).
  split; [|split; [|split; lia]].
  - intros l Hl. rewrite A2 by lia. now apply A1.
  - intros o Ho. rewrite B2 by lia. now apply B1.
Qed.

Lemma extends_sentinel (h : Heap) : extends h (with_sentinel h).
Proof.
  split; [|split; [|split]].
  - reflexivity.
  - intros o Ho. now apply obj_with_sentinel.
  - reflexivity.
  - unfold with_sentinel. cbn [objs]. rewrite length_app. lia.
Qed.

Lemma extends_new_list (h : Heap) (xs : list loc) :
  extends h (mkHeap (objs h) (lists h ++ [xs])).
Proof.
  split; [|split; [|split]].
  - intros l Hl. unfold seq_of. cbn [lists]. now rewrite lookup_app_l.
  - reflexivity.
  - cbn [lists]. rewrite length_app. lia.
  - reflexivity.
Qed.

(** Writing a list that the base store does not hold keeps the base. *)
Lemma extends_set_list (base h : Heap) (r : loc) (xs : list loc) :
  extends base h -> (length (lists base) <= r)%nat ->
  extends base (mkHeap (objs h) (<[r := xs]> (lists h))).
Proof.
  intros (A & B & C & D) Hr.
  split; [|split; [|split]].
  - intros l Hl. rewrite <- (A l Hl). unfold seq_of. cbn [lists].
    rewrite list_lookup_insert_ne by lia. reflexivity.
  - exact B.
  - cbn [lists]. rewrite length_insert. exact C.
  - exact D.
Qed.

Lemma random_player_last (state : GameState.t) (ms : list Move) (m : Move) :
  GameState.moves state = ms ++ [m] ->
  random_player (-1) state = Ok m.
Proof.
  intros Hm. unfold random_player, random_choice, Domino.actions. rewrite Hm.
  assert (Hlen : len (ms ++ [m]) = len ms + 1).
  { rewrite len_app. reflexivity. }
  pose proof (len_nonneg ms) as Hnn.
  assert (E : (len (ms ++ [m]) =? 0) = false) by (apply Z.eqb_neq; lia).
  rewrite E.
  assert (Hmod : -1 mod len (ms ++ [m]) = Z.of_nat (length ms)).
  { rewrite Hlen. unfold len.
    replace (-1) with (Z.of_nat (length ms) + (-1) * (Z.of_nat (length ms) + 1)) by lia.
    rewrite Z.mod_add by lia. apply Z.mod_small. lia. }
  rewrite Hmod. apply py_index_nat. apply list_lookup_middle. reflexivity.
Qed.

(** The loop of a turn that gathers the pool in the new list [r]. *)
Lemma gather_run (self : Domino.t) (to_move : Z) (r : loc) (base : Heap) (ixs : list Z) :
  (length (lists base) <= r)%nat ->
  Forall (fun i => exists j, py_index (Domino.jogadores self) i = Ok j) ixs ->
  forall h,
    extends base h ->
    exists h',
      foldM
        (fun (_ : unit) i =>
           if negb (i =? to_move) then
             do xs <- get_list r;
             do j <- liftR (py_index (Domino.jogadores self) i);
             do js <- get_list j;
             set_list r (xs ++ js)
           else ret tt)
        ixs tt h = Ok (tt, h')
      /\ extends base h'
      /\ objs h' = objs h.
Proof.
  intros Hr Hix. induction Hix as [|i ixs (j & Hj) _ IH]; intros h Hext; cbn [foldM].
  - exists h. unfold ret. split; [reflexivity|]. split; [exact Hext | reflexivity].
  - unfold bindM at 1. destruct (negb (i =? to_move)).
    + unfold bindM at 1. unfold get_list at 1.
      unfold bindM at 1. rewrite Hj. unfold liftR at 1.
      unfold bindM at 1. unfold get_list at 1. unfold set_list at 1.
      destruct (IH _ (extends_set_list base h r
                        (seq_of h r ++ seq_of h j) Hext Hr))
        as (h' & Hrun & Hext' & Hobjs).
      exists h'. split; [exact Hrun|]. split; [exact Hext'|]. exact Hobjs.
    + unfold ret at 1. apply IH. exact Hext.
Qed.

Lemma hands_extend (self : Domino.t) (h h' : Heap) :
  Forall (fun j => (j < length (lists h))%nat) (Domino.jogadores self) ->
  length (Domino.jogadores self) = 4%nat ->
  extends h h' ->
  forall k, (k < 4)%nat -> hand_of self h' k = hand_of self h k.
Proof.
  intros Hvalid Hlen (A & _) k Hk. unfold hand_of. apply A.
  rewrite Forall_forall in Hvalid. apply Hvalid.
  apply list_elem_of_In. apply nth_In. lia.
Qed.

(** A turn in which the pass is taken on an empty board hands an idle state
    to the next player. *)
Lemma turn_idle (self : Domino.t) (state : GameState.t) (h : Heap) :
  idle_board self h state ->
  exists (state' : GameState.t) (h' : Heap),
    Play.turn self last_move_player state h = Ok (inr state', h')
    /\ idle_board self h' state'.
Proof.
  intros (H1 & Hv & Hseat & (ms & s & Hms & Hs) & Hlen & Hvalid & Hfull).
  assert (Hpass : ~ is_placement h (s, -1)).
  { unfold is_placement. cbn [fst]. lia. }
  assert (Hs_valid : (s < length (objs h))%nat).
  { destruct (Nat.lt_ge_cases s (length (objs h))) as [Hlt|Hge]; [exact Hlt|].
    exfalso. unfold obj in Hs. rewrite lookup_ge_None_2 in Hs by lia.
    cbn in Hs. discriminate. }
  pose proof (result_pass_unset state (s, -1) (GameState.to_move state) h Hv Hpass H1)
    as Hres. cbv zeta in Hres.
  set (tm := (GameState.to_move state + 1) mod 4) in *.
  assert (Htm : 0 <= tm < 4) by (apply Z.mod_pos_bound; lia).
  set (hb := mkHeap (objs h) (lists h ++ [seq_of h (GameState.pedras state);
                                          seq_of h (GameState.pedras_restantes state)])) in *.
  set (h2 := with_sentinel hb) in *.
  set (s_res := GameState.make tm (length (lists h)) (S (length (lists h))) None
                  (GameState.ponta2 state)
                  (free_placements (seq_of hb (if tm =? GameState.to_move state
                                               then length (lists h)
                                               else S (length (lists h))))
                   ++ [(length (objs h), -1)]) (-1)) in *.
  assert (Hext2 : extends h h2).
  { apply (extends_trans h hb h2); [|apply extends_sentinel].
    split; [|split; [|split]].
    - intros l Hl. unfold hb, seq_of. cbn [lists]. now rewrite lookup_app_l.
    - reflexivity.
    - unfold hb. cbn [lists]. rewrite length_app. lia.
    - reflexivity. }
  assert (Hfull2 : forall k, (k < 4)%nat -> hand_of self h2 k <> []).
  { intros k Hk. rewrite (hands_extend self h h2 Hvalid Hlen Hext2 k Hk). now apply Hfull. }
  destruct (Domino.jogadores self) as [|j0 [|j1 [|j2 [|j3 [|j4 js]]]]] eqn:Hjog;
    try discriminate.
  assert (Hvit : Play.vitoria self s_res h2 = Ok (-1, h2)).
  { apply (vitoria_goes_on_unset self j0 j1 j2 j3 Hjog); [exact Hfull2 | reflexivity]. }
  set (R := length (lists h2)).
  set (h3 := mkHeap (objs h2) (lists h2 ++ [[]])).
  assert (Hext3 : extends h2 h3) by apply extends_new_list.
  assert (Hidx : forall i, 0 <= i < 4 ->
            exists j, py_index (Domino.jogadores self) i = Ok j
                      /\ (j < length (lists h))%nat).
  { intros i Hi. rewrite Hjog.
    assert (Hl : [j0; j1; j2; j3] !! Z.to_nat i
                 = Some (nth (Z.to_nat i) [j0; j1; j2; j3] O)).
    { destruct (Z.to_nat i) as [|[|[|[|n]]]] eqn:En; [reflexivity..|lia]. }
    exists (nth (Z.to_nat i) [j0; j1; j2; j3] O). split.
    - rewrite <- (Z2Nat.id i) at 1 by lia. now apply py_index_nat.
    - rewrite Forall_forall in Hvalid. apply Hvalid.
      eapply list_elem_of_lookup_2, Hl. }
  destruct (gather_run self tm R h2 (Domino.range 4) ltac:(unfold R; lia)
              ltac:(repeat constructor;
                    match goal with
                    | |- exists j, py_index _ ?i = _ =>
                        destruct (Hidx i ltac:(cbn; lia)) as (j & Hj & _); eauto
                    end)
              h3 Hext3)
    as (h4 & Hgather & Hext4 & Hobjs4).
  destruct (Hidx tm Htm) as (jt & Hjt & Hjt_valid).
  set (h5 := mkHeap (objs h4) (lists h4 ++ [seq_of h4 jt])).
  assert (Hext5 : extends h2 h5).
  { apply (extends_trans h2 h4 h5); [exact Hext4 | apply extends_new_list]. }
  set (h6 := with_sentinel h5).
  assert (Hext6 : extends h h6).
  { apply (extends_trans h h2 h6); [exact Hext2|].
    apply (extends_trans h2 h5 h6); [exact Hext5 | apply extends_sentinel]. }
  exists (GameState.make tm (length (lists h4)) R None (GameState.ponta2 state)
            (free_placements (seq_of h5 (if tm =? tm then jt else R))
             ++ [(length (objs h5), -1)]) (-1)), h6.
  split.
  - unfold Play.turn.
    unfold bindM at 1. unfold last_move_player at 1.
    rewrite (random_player_last state ms (s, -1) Hms). unfold liftR at 1.
    unfold bindM at 1. unfold get_obj at 1. cbn [fst].
    assert (E : ((Pedra.valor (obj h s)).1 =? -1) = true) by (apply Z.eqb_eq; exact Hs).
    rewrite E. cbn [negb].
    unfold bindM at 1. unfold ret at 1.
    unfold bindM at 1. rewrite Hres. fold h2 s_res.
    unfold bindM at 1. rewrite Hvit.
    change (negb (-1 =? -1)) with false. cbv iota.
    unfold s_res. cbv zeta. cbn [GameState.to_move GameState.ponta1 GameState.ponta2].
    unfold bindM at 1. unfold new_list at 1. fold R h3.
    unfold bindM at 1. rewrite Hgather.
    unfold bindM at 1. rewrite Hjt. unfold liftR at 1.
    unfold bindM at 1. unfold get_list at 1.
    unfold bindM at 1. unfold new_list at 1. fold h5.
    unfold bindM at 1. rewrite moves_unset. fold h6.
    unfold bindM at 1. unfold Domino.compute_utility.
    unfold bindM at 1. unfold get_obj at 1. cbn [fst].
    assert (E6 : ((Pedra.valor (obj h6 s)).1 =? -1) = true).
    { destruct Hext6 as (_ & B & _). rewrite (B s Hs_valid). exact E. }
    rewrite E6. cbn [andb negb Domino.is_not_None]. reflexivity.
  - unfold idle_board.
    cbn [GameState.ponta1 GameState.to_move GameState.moves].
    split; [reflexivity|].
    split.
    { unfold valid_lists. cbn [GameState.pedras GameState.pedras_restantes].
      unfold h6, h5. cbn [lists with_sentinel]. rewrite length_app. cbn [length].
      destruct Hext4 as (_ & _ & C4 & _). fold R in C4. lia. }
    split; [exact Htm|].
    split.
    { eexists _, _. split; [reflexivity|].
      unfold h6, obj, with_sentinel. cbn [objs]. now rewrite list_lookup_middle. }
    rewrite Hjog. split; [reflexivity|].
    split.
    { eapply Forall_impl; [exact Hvalid|]. intros j Hj.
      destruct Hext6 as (_ & _ & C & _).
      eapply Nat.lt_le_trans; [exact Hj | exact C]. }
    intros k Hk.
    assert (Hjog' : Domino.jogadores self = [j0; j1; j2; j3]) by exact Hjog.
    unfold hand_of. rewrite Hjog'.
    destruct Hext6 as (A & _).
    rewrite A.
    + specialize (Hfull k Hk). unfold hand_of in Hfull. now rewrite Hjog' in Hfull.
    + rewrite Forall_forall in Hvalid. apply Hvalid.
      apply list_elem_of_In. apply nth_In. cbn [length]. lia.
Qed.

Lemma round_idle (self : Domino.t) (n : nat) :
  forall (state : GameState.t) (h : Heap),
    idle_board self h state ->
    exists (state' : GameState.t) (h' : Heap),
      Play.round self (replicate n last_move_player) state h = Ok (inr state', h')
      /\ idle_board self h' state'.
Proof.
  induction n as [|n IH]; intros state h Hidle; cbn [replicate Play.round].
  - exists state, h. split; [reflexivity | exact Hidle].
  - destruct (turn_idle self state h Hidle) as (s1 & h1 & Hturn & Hidle1).
    destruct (IH s1 h1 Hidle1) as (s2 & h2 & Hround & Hidle2).
    exists s2, h2. split; [|exact Hidle2].
    unfold bindM. rewrite Hturn. exact Hround.
Qed.

Lemma play_rounds_idle (self : Domino.t) (n : nat) (rounds : nat) :
  forall (state : GameState.t) (h : Heap),
    idle_board self h state ->
    Play.play_rounds rounds self (replicate n last_move_player) state h
    = Err OutOfFuel.
Proof.
  induction rounds as [|rounds IH]; intros state h Hidle; cbn [Play.play_rounds].
  - reflexivity.
  - destruct (round_idle self n state h Hidle) as (s1 & h1 & Hround & Hidle1).
    unfold bindM. rewrite Hround. now apply IH.
Qed.

Lemma init_idle (rnd : nat -> Z) (h0 : Heap) (d : Domino.t) (h : Heap) :
  Domino.__init__ rnd h0 = Ok (d, h) ->
  idle_board d h (Domino.initial d).
Proof.
  intros Hinit.
  destruct (init_deal rnd h0) as (d1 & h1 & Hrun1 & Hv & _).
  destruct (init_run rnd h0)
    as (d2 & h2 & j0 & j1 & j2 & j3 & Hrun2 & Hjog & H7 & _ & _ & Hobjs & Hto & H1
        & _ & _ & _ & _ & _ & Hmoves).
  rewrite Hinit in Hrun1, Hrun2.
  injection Hrun1 as <- <-. injection Hrun2 as <- <-.
  assert (Hne : forall j, len (seq_of h j) = 7 -> seq_of h j <> []).
  { intros j Hj E. rewrite E in Hj. discriminate. }
  assert (Hlt : forall j, len (seq_of h j) = 7 -> (j < length (lists h))%nat).
  { intros j Hj. destruct (Nat.lt_ge_cases j (length (lists h))) as [|Hge]; [assumption|].
    exfalso. apply (Hne j Hj). unfold seq_of. now rewrite lookup_ge_None_2. }
  apply Forall_cons in H7 as [A0 H7]. apply Forall_cons in H7 as [A1 H7].
  apply Forall_cons in H7 as [A2 H7]. apply Forall_cons in H7 as [A3 _].
  unfold idle_board. rewrite Hjog.
  split; [exact H1|]. split; [exact Hv|]. split; [rewrite Hto; lia|].
  split.
  { eexists _, _. split; [exact Hmoves|].
    unfold obj. rewrite Hobjs. rewrite app_assoc.
    rewrite <- (length_app (objs h0) double_six) at 1.
    replace (length (objs h0) + 28)%nat with (length (objs h0 ++ double_six))
      by (rewrite length_app; reflexivity).
    now rewrite list_lookup_middle. }
  split; [reflexivity|].
  split; [repeat constructor; now apply Hlt|].
  intros k Hk. unfold hand_of. rewrite Hjog.
  destruct k as [|[|[|[|k]]]]; [| | | |lia]; cbn [nth]; now apply Hne.
Qed.

(** X30.  The loop of [play_game] need not end.  After any deal, if every
    choice of [random_player] falls on the last legal move, which on an
    empty board is the pass, then every turn passes, the board stays empty,
    [vitoria] finds no winner, and the match is still running after any
    number of rounds, for any number of such players. *)
Theorem play_game_may_not_end (rnd : nat -> Z) (h0 : Heap) :
  exists (d : Domino.t) (h : Heap),
    Domino.__init__ rnd h0 = Ok (d, h)
    /\ forall (rounds n : nat),
         Play.play_game rounds d (replicate n last_move_player) h = Err OutOfFuel.
Proof.
  destruct (init_deal rnd h0) as (d & h & Hrun & _).
  exists d, h. split; [exact Hrun|].
  intros rounds n. unfold Play.play_game.
  apply play_rounds_idle. exact (init_idle rnd h0 d h Hrun).
Qed.

(** ** The rest of the program on concrete positions *)

(** (5,3) against a first tile (6,5): the 5 they share is not seen. *)
Lemma igual_first_tile_witness :
  Pedra.position (Pedra.make (6, 5) (-1)) = -1
  /\ Pedra.igual (Pedra.make (5, 3) (-1)) (Pedra.make (6, 5) (-1)) = false.
Proof.
  refine (conj eq_refl _).
  destruct (igual_first_tile (Pedra.make (5, 3) (-1)) (Pedra.make (6, 5) (-1)) eq_refl)
    as [_ Hmiss].
  apply Hmiss; cbn; lia.
Defined.

Lemma buchas_counts_doubles_witness :
  Forall (fun l => 0 <= (Pedra.valor (obj ex_heap l)).1) [0; 1; 4]%nat
  /\ len (List.filter (fun l => is_double (obj ex_heap l)) [0; 1; 4]%nat)
     <= Domino.buchas ex_heap [0; 1; 4]%nat.
Proof.
  assert (H1 : Forall (fun l => 0 <= (Pedra.valor (obj ex_heap l)).1) [0; 1; 4]%nat)
    by (repeat constructor; vm_compute; discriminate).
  refine (conj H1 _).
  exact (proj1 (buchas_counts_doubles ex_heap [0; 1; 4]%nat H1)).
Defined.

Lemma moves_offers_a_move_witness :
  ends_together (Some 0%nat) (Some 0%nat)
  /\ exists ms h',
       Domino.moves 0 0%nat 1%nat (Some 0%nat) (Some 0%nat) 0 ex_heap = Ok (ms, h')
       /\ ms <> [].
Proof.
  assert (H1 : ends_together (Some 0%nat) (Some 0%nat)) by (intros _; discriminate).
  refine (conj H1 _).
  destruct (moves_offers_a_move 0 0%nat 1%nat (Some 0%nat) (Some 0%nat) 0 ex_heap H1)
    as (ms & h' & Hm & Hne & _).
  exists ms, h'. split; assumption.
Defined.

Lemma result_recomputes_moves_witness :
  Domino.result ex_state (1%nat, 0) 0 ex_heap = Ok ex_after
  /\ GameState.to_move ex_after.1 = 1
  /\ GameState.pedras ex_after.1 = 5%nat
  /\ GameState.pedras_restantes ex_after.1 = 6%nat.
Proof.
  assert (H1 : Domino.result ex_state (1%nat, 0) 0 ex_heap = Ok ex_after)
    by (vm_compute; reflexivity).
  refine (conj H1 _).
  destruct (result_recomputes_moves ex_state (1%nat, 0) 0 ex_heap ex_after.1 ex_after.2 H1)
    as (Ht & _ & Hp & Hr & _).
  split; [exact Ht|]. split; [exact Hp | exact Hr].
Defined.

Lemma placement_sets_end_witness :
  valid_lists ex_heap ex_state
  /\ is_placement ex_heap (1%nat, 0)
  /\ ends_together (GameState.ponta1 ex_state) (GameState.ponta2 ex_state)
  /\ Domino.result ex_state (1%nat, 0) 0 ex_heap = Ok ex_after
  /\ GameState.ponta1 ex_after.1 = Some 1%nat
  /\ GameState.ponta2 ex_after.1 = Some 0%nat.
Proof.
  assert (H1 : valid_lists ex_heap ex_state) by (split; simpl; lia).
  assert (H2 : is_placement ex_heap (1%nat, 0)) by (vm_compute; discriminate).
  assert (H3 : ends_together (GameState.ponta1 ex_state) (GameState.ponta2 ex_state))
    by (intros _; discriminate).
  assert (H4 : Domino.result ex_state (1%nat, 0) 0 ex_heap = Ok ex_after)
    by (vm_compute; reflexivity).
  refine (conj H1 (conj H2 (conj H3 (conj H4 _)))).
  destruct (placement_sets_end ex_state (1%nat, 0) 0 ex_heap ex_after.1 ex_after.2
              H1 H2 H3 H4) as (_ & Hend1 & _).
  exact (Hend1 ltac:(discriminate) eq_refl).
Defined.

(** Seat 0 tries to place (6,3), which is in the pool and not in its hand. *)
Lemma placement_of_absent_tile_witness :
  valid_lists ex_heap ex_state
  /\ is_placement ex_heap (3%nat, 0)
  /\ ends_together (GameState.ponta1 ex_state) (GameState.ponta2 ex_state)
  /\ Forall (fun y => Pedra.__eq__ (obj ex_heap y) (obj ex_heap 3%nat) = false)
       (seq_of ex_heap (GameState.pedras ex_state))
  /\ Domino.result ex_state (3%nat, 0) 0 ex_heap = Err ValueError.
Proof.
  assert (H1 : valid_lists ex_heap ex_state) by (split; simpl; lia).
  assert (H2 : is_placement ex_heap (3%nat, 0)) by (vm_compute; discriminate).
  assert (H3 : ends_together (GameState.ponta1 ex_state) (GameState.ponta2 ex_state))
    by (intros _; discriminate).
  assert (H4 : Forall (fun y => Pedra.__eq__ (obj ex_heap y) (obj ex_heap 3%nat) = false)
                 (seq_of ex_heap (GameState.pedras ex_state)))
    by (repeat constructor).
  refine (conj H1 (conj H2 (conj H3 (conj H4 _)))).
  exact (placement_of_absent_tile ex_state (3%nat, 0) 0 ex_heap H1 H2 H3 H4).
Defined.

Lemma pass_on_empty_board_witness :
  valid_lists ex_heap ex_empty_state
  /\ ~ is_placement ex_heap (7%nat, -1)
  /\ GameState.ponta1 ex_empty_state = None
  /\ exists s' h',
       Domino.result ex_empty_state (7%nat, -1) 0 ex_heap = Ok (s', h')
       /\ GameState.utility s' = -1
       /\ Domino.terminal_test s' = true
       /\ GameState.moves s'
          = map (fun l => (l, -1))
              (seq_of h' (if GameState.to_move s' =? 0
                          then GameState.pedras s'
                          else GameState.pedras_restantes s'))
            ++ [(8%nat, -1)].
Proof.
  assert (H1 : valid_lists ex_heap ex_empty_state) by (split; simpl; lia).
  assert (H2 : ~ is_placement ex_heap (7%nat, -1)) by (intros H; now apply H).
  refine (conj H1 (conj H2 (conj eq_refl _))).
  destruct (pass_on_empty_board ex_empty_state (7%nat, -1) 0 ex_heap H1 H2 eq_refl)
    as (s' & h' & Hr & Hu & Ht & _ & _ & _ & _ & _ & _ & Hm & _).
  exists s', h'. split; [exact Hr|]. split; [exact Hu|]. split; [exact Ht | exact Hm].
Defined.

Lemma blocked_pass_sorts_pool_witness :
  valid_lists ex_heap ex_blocked_state
  /\ ~ is_placement ex_heap (7%nat, -1)
  /\ GameState.ponta1 ex_blocked_state = Some 0%nat
  /\ GameState.ponta2 ex_blocked_state = Some 0%nat
  /\ can_play ex_heap 0%nat 0%nat
       (seq_of ex_heap (GameState.pedras_restantes ex_blocked_state)
        ++ seq_of ex_heap (GameState.pedras ex_blocked_state)) = false
  /\ exists s' h',
       Domino.result ex_blocked_state (7%nat, -1) 0 ex_heap = Ok (s', h')
       /\ StronglySorted (fun a b => pip_sum ex_heap a <= pip_sum ex_heap b)
            (seq_of h' (GameState.pedras_restantes ex_blocked_state))
       /\ seq_of h' (GameState.pedras_restantes s') = [5; 4]%nat.
Proof.
  assert (H1 : valid_lists ex_heap ex_blocked_state) by (split; simpl; lia).
  assert (H2 : ~ is_placement ex_heap (7%nat, -1)) by (intros H; now apply H).
  refine (conj H1 (conj H2 (conj eq_refl (conj eq_refl (conj eq_refl _))))).
  destruct (blocked_pass_sorts_pool ex_blocked_state (7%nat, -1) 0 ex_heap 0%nat 0%nat
              H1 H2 eq_refl eq_refl eq_refl)
    as (s' & h' & Hr & _ & Hs & Hc & _).
  exists s', h'. split; [exact Hr|]. split; [exact Hs | exact Hc].
Defined.

Lemma chances_seat0_single_event_witness :
  GameState.to_move ex_state = 0
  /\ Domino.chances ex_state ex_heap = Ok ([(0, [(1%nat, 0)], 1, 2)], ex_heap)
  /\ Domino.probability (F := float) (0, [(1%nat, 0)], 1, 2) = Ok 1%float.
Proof.
  refine (conj eq_refl _).
  exact (chances_seat0_single_event (F := float) ex_state ex_heap eq_refl).
Defined.


Lemma chances_empty_pool_witness :
  GameState.to_move ex_empty_pool_state <> 0
  /\ seq_of ex_empty_pool_heap (GameState.pedras_restantes ex_empty_pool_state) = []
  /\ exists cs h',
       Domino.chances ex_empty_pool_state ex_empty_pool_heap = Ok (cs, h')
       /\ cs <> []
       /\ Forall (fun c => Domino.probability (F := float) c = Err ZeroDivisionError) cs.
Proof.
  assert (H1 : GameState.to_move ex_empty_pool_state <> 0) by discriminate.
  refine (conj H1 (conj eq_refl _)).
  exact (chances_empty_pool (F := float) ex_empty_pool_state ex_empty_pool_heap
           H1 eq_refl).
Defined.

Lemma seat_heuristics_agree_with_eval_witness :
  Forall (fun l => (l < length (objs ex_heap))%nat)
    (seq_of ex_heap (GameState.pedras ex_state))
  /\ exists x : float,
       Domino.eval_0 ex_state 0 ex_heap = Ok (x, ex_heap)
       /\ exists h', Domino.eval ex_state 0 ex_heap = Ok (Some x, h').
Proof.
  assert (H1 : Forall (fun l => (l < length (objs ex_heap))%nat)
                 (seq_of ex_heap (GameState.pedras ex_state)))
    by (repeat constructor; simpl; lia).
  refine (conj H1 _).
  destruct (seat_heuristics_agree_with_eval (F := float) ex_state 0 ex_heap H1)
    as ((x & H0 & _ & He) & _).
  exists x. split; [exact H0|]. apply He. intros _. discriminate.
Defined.

(** The sum of the three probabilities of [ex_opponent_state] in binary64. *)
Lemma probabilities_sum_binary64_witness :
  GameState.to_move ex_opponent_state <> 0
  /\ seq_of ex_heap (GameState.pedras_restantes ex_opponent_state) <> []
  /\ len (seq_of ex_heap (GameState.pedras_restantes ex_opponent_state)) <= 28
  /\ (forall m, In m (GameState.moves ex_opponent_state) -> m.2 = 0 \/ m.2 = 1)
  /\ len (GameState.moves ex_opponent_state)
     <= len (seq_of ex_heap (GameState.pedras_restantes ex_opponent_state))
  /\ exists cs h' ps,
       Domino.chances ex_opponent_state ex_heap = Ok (cs, h')
       /\ mapR Domino.probability cs = Ok ps
       /\ within_epsilon (sum_float ps) = true.
Proof.
  assert (H1 : GameState.to_move ex_opponent_state <> 0) by discriminate.
  assert (H2 : seq_of ex_heap (GameState.pedras_restantes ex_opponent_state) <> [])
    by discriminate.
  assert (H3 : len (seq_of ex_heap (GameState.pedras_restantes ex_opponent_state)) <= 28)
    by (vm_compute; discriminate).
  assert (H4 : forall m, In m (GameState.moves ex_opponent_state) -> m.2 = 0 \/ m.2 = 1).
  { intros m [<- | []]. now left. }
  assert (H5 : len (GameState.moves ex_opponent_state)
               <= len (seq_of ex_heap (GameState.pedras_restantes ex_opponent_state)))
    by (vm_compute; discriminate).
  refine (conj H1 (conj H2 (conj H3 (conj H4 (conj H5 _))))).
  exact (probabilities_sum_binary64 ex_opponent_state ex_heap H1 H2 H3 H4 H5).
Defined.

(** Seat 0 holds one tile, (6,5), which it can place: the search returns
    that move. *)
Lemma expectiminimax_returns_legal_move_witness :
  expectiminimax (F := float) ex_match_state ex_match_heap = Ok ex_choice
  /\ In ex_choice.1 (GameState.moves ex_match_state).
Proof.
  assert (H1 : expectiminimax (F := float) ex_match_state ex_match_heap = Ok ex_choice)
    by (vm_compute; reflexivity).
  refine (conj H1 _).
  exact (expectiminimax_returns_legal_move (F := float) ex_match_state ex_match_heap
           ex_choice.1 ex_choice.2 H1).
Defined.

Lemma draw_takes_last_twice_witness :
  [1; 2; 3]%nat <> []
  /\ exists x xs',
       Domino.py_pop [1; 2; 3]%nat (Domino.randint 0 (len [1; 2; 3]%nat) 0 - 1)
       = Ok (x, xs')
       /\ [1; 2; 3]%nat !! 2%nat = Some x.
Proof.
  assert (H1 : [1; 2; 3]%nat <> []) by discriminate.
  refine (conj H1 _).
  destruct (draw_takes_last_twice [1; 2; 3]%nat 0 H1)
    as (_ & _ & _ & x & xs' & Hpop & _ & Hlast & _).
  exists x, xs'. split; [exact Hpop|]. apply Hlast. left. reflexivity.
Defined.

Lemma escolhe_pedras_deals_all_witness :
  (0 < length (lists ex_tiles_heap))%nat
  /\ len (seq_of ex_tiles_heap 0%nat) = 28
  /\ exists j0 j1 j2 j3 h',
       Domino.escolhe_pedras (fun _ => 0) 0%nat ex_tiles_heap = Ok ([j0; j1; j2; j3], h')
       /\ Permutation (seq_of h' j0 ++ seq_of h' j1 ++ seq_of h' j2 ++ seq_of h' j3)
            (seq_of ex_tiles_heap 0%nat).
Proof.
  assert (H1 : (0 < length (lists ex_tiles_heap))%nat) by (simpl; lia).
  refine (conj H1 (conj eq_refl _)).
  destruct (escolhe_pedras_deals_all (fun _ => 0) 0%nat ex_tiles_heap H1 eq_refl)
    as (j0 & j1 & j2 & j3 & h' & Hr & _ & Hp & _).
  exists j0, j1, j2, j3, h'. split; [exact Hr | exact Hp].
Defined.

Lemma vitoria_empty_hand_wins_witness :
  length (Domino.jogadores ex_match) = 4%nat
  /\ (1 < 4)%nat
  /\ hand_of ex_match ex_won_heap 1 = []
  /\ (forall k, (k < 1)%nat -> hand_of ex_match ex_won_heap k <> [])
  /\ Play.vitoria ex_match ex_match_state ex_won_heap = Ok (1, ex_won_heap).
Proof.
  assert (H2 : (1 < 4)%nat) by lia.
  assert (H4 : forall k, (k < 1)%nat -> hand_of ex_match ex_won_heap k <> []).
  { intros k Hk. assert (k = 0%nat) as -> by lia. discriminate. }
  refine (conj eq_refl (conj H2 (conj eq_refl (conj H4 _)))).
  exact (vitoria_empty_hand_wins ex_match ex_match_state ex_won_heap 1 eq_refl H2
           eq_refl H4).
Defined.

Lemma vitoria_game_goes_on_witness :
  length (Domino.jogadores ex_match) = 4%nat
  /\ (forall k, (k < 4)%nat -> hand_of ex_match ex_match_heap k <> [])
  /\ can_play ex_match_heap 0%nat 0%nat (hand_of ex_match ex_match_heap 0) = true
  /\ Play.vitoria ex_match ex_match_state ex_match_heap = Ok (-1, ex_match_heap).
Proof.
  assert (H2 : forall k, (k < 4)%nat -> hand_of ex_match ex_match_heap k <> []).
  { intros k Hk. destruct k as [|[|[|[|k]]]]; [discriminate..|lia]. }
  refine (conj eq_refl (conj H2 (conj eq_refl _))).
  apply (vitoria_game_goes_on ex_match ex_match_state ex_match_heap eq_refl H2).
  right. exists 0%nat, 0%nat, 0%nat. repeat split. lia.
Defined.

Lemma vitoria_blocked_least_pips_witness :
  length (Domino.jogadores ex_match) = 4%nat
  /\ (forall k, (k < 4)%nat -> hand_of ex_match ex_blocked_match_heap k <> [])
  /\ GameState.ponta1 ex_match_state = Some 0%nat
  /\ GameState.ponta2 ex_match_state = Some 0%nat
  /\ (forall k, (k < 4)%nat ->
        can_play ex_blocked_match_heap 0%nat 0%nat
          (hand_of ex_match ex_blocked_match_heap k) = false)
  /\ exists w : nat,
       Play.vitoria ex_match ex_match_state ex_blocked_match_heap
       = Ok (Z.of_nat w, ex_blocked_match_heap)
       /\ (w < 4)%nat.
Proof.
  assert (H2 : forall k, (k < 4)%nat -> hand_of ex_match ex_blocked_match_heap k <> []).
  { intros k Hk. destruct k as [|[|[|[|k]]]]; [discriminate..|lia]. }
  assert (H5 : forall k, (k < 4)%nat ->
                 can_play ex_blocked_match_heap 0%nat 0%nat
                   (hand_of ex_match ex_blocked_match_heap k) = false).
  { intros k Hk. destruct k as [|[|[|[|k]]]]; [reflexivity..|lia]. }
  refine (conj eq_refl (conj H2 (conj eq_refl (conj eq_refl (conj H5 _))))).
  destruct (vitoria_blocked_least_pips ex_match ex_match_state ex_blocked_match_heap
              0%nat 0%nat eq_refl H2 eq_refl eq_refl H5)
    as (w & Hv & Hw & _).
  exists w. split; [exact Hv | exact Hw].
Defined.

(** Seat 0 lets [expectiminimax] choose, places its last tile, and wins. *)
Lemma last_tile_wins_witness :
  expectiminimax (F := float) ex_match_state ex_match_heap = Ok ex_choice
  /\ is_placement ex_choice.2 ex_choice.1
  /\ hand_of ex_match ex_choice.2 0 = [1%nat]
  /\ exists h',
       Play.turn ex_match (fun _ state => expectiminimax (F := float) state)
         ex_match_state ex_match_heap
       = Ok (inl 0, h').
Proof.
  assert (H1 : expectiminimax (F := float) ex_match_state ex_match_heap = Ok ex_choice)
    by (vm_compute; reflexivity).
  assert (H2 : is_placement ex_choice.2 ex_choice.1) by (vm_compute; discriminate).
  refine (conj H1 (conj H2 (conj eq_refl _))).
  apply (last_tile_wins ex_match (fun _ state => expectiminimax (F := float) state)
           ex_match_state ex_match_heap ex_choice.2 ex_choice.1 0 1%nat).
  - reflexivity.
  - repeat constructor; rewrite ?elem_of_cons, ?elem_of_nil; lia.
  - repeat constructor; simpl; lia.
  - exact H1.
  - reflexivity.
  - lia.
  - split; simpl; lia.
  - intros _. discriminate.
  - exact H2.
  - reflexivity.
  - reflexivity.
  - left. reflexivity.
  - discriminate.
  - intros k Hk Hne. destruct k as [|[|[|[|k]]]]; [lia|discriminate..|lia].
Defined.
